(** * dolphin-audio-converter: the batch conversion loop

    A shallow embedding of [convert_files] (src/dolphin-audio-converter.py)
    and of the helpers it calls, followed by the properties of the progress
    aggregation, the cancellation path, the failure path and the clean-up.

    Conventions of the embedding.
    - A Python [str] is the list of its code points; [bytes] is a list of
      [Byte.byte].
    - A Python [float] is an IEEE 754 binary64 value, [spec_float] with
      [prec = 53] and [emax = 1024]; the arithmetic is the Standard
      Library's executable specification [SFdiv], [SFmul], [SFltb].
    - A Python [int] is a [Z].
    - An operation that can raise returns [res]; the [try ... except
      Exception: pass] of the polling loop turns a raise into [None].
    - Everything outside the process (the file system, ffprobe, ffmpeg, the
      kdialog prompt, the qdbus replies) is read from a [task_env], one per
      input file; what the program does to the outside is appended to a
      trace of [event]s.
    - The calls to the outside are taken to return, and the encoder to
      exit: a pass in which [exists()], [mkstemp] or [Popen] raises, or
      whose encoder runs for ever, is not described.  The exceptions of a
      pass are those of the path methods and of the slice arithmetic.
    - The texts of labels, dialog messages and notifications are left out;
      an event records which call was made and with which value. *)

From Stdlib Require Import ZArith NArith List Bool String Ascii Lia.
From Stdlib Require Import Floats.SpecFloat.
From Stdlib Require Import Reals Lra.
Import ListNotations.

Local Open Scope Z_scope.

(* ------------------------------------------------------------------ *)
(** ** Strings and bytes *)

Definition str := list N.

Definition bytes := list Byte.byte.

Definition lit (s : string) : str :=
  map N_of_ascii (list_ascii_of_string s).

Definition str_eqb (a b : str) : bool :=
  if list_eq_dec N.eq_dec a b then true else false.

Definition ch_dot : N := 46%N.
Definition ch_slash : N := 47%N.
Definition ch_newline : N := 10%N.

Definition contains (c : N) (s : str) : bool := existsb (N.eqb c) s.

Fixpoint starts_with (p s : str) : bool :=
  match p, s with
  | [], _ => true
  | _ :: _, [] => false
  | a :: p', b :: s' => N.eqb a b && starts_with p' s'
  end.

(** [s.rfind(c)]: the index of the last occurrence, [None] for Python's -1. *)
Fixpoint rfind (c : N) (s : str) : option nat :=
  match s with
  | [] => None
  | x :: t =>
      match rfind c t with
      | Some i => Some (S i)
      | None => if N.eqb x c then Some O else None
      end
  end.

(** [s.split(sep)] on a one-character separator. *)
Fixpoint split_on (sep : N) (s : str) : list str :=
  match s with
  | [] => [[]]
  | x :: t =>
      if N.eqb x sep then [] :: split_on sep t
      else match split_on sep t with
           | [] => [[x]]
           | w :: ws => (x :: w) :: ws
           end
  end.

(* ------------------------------------------------------------------ *)
(** ** Exceptions *)

Inductive exn := ValueError | OverflowError | ZeroDivisionError.

Inductive res (A : Type) : Type :=
| Ok (a : A)
| Raise (e : exn).

Arguments Ok {A} a.
Arguments Raise {A} e.

Definition bind {A B : Type} (r : res A) (k : A -> res B) : res B :=
  match r with
  | Ok a => k a
  | Raise e => Raise e
  end.

Notation "x <- r ;; k" := (bind r (fun x => k))
  (at level 61, r at next level, right associativity).

(* ------------------------------------------------------------------ *)
(** ** [bytes.decode(errors='replace')]

    The UTF-8 decoder of CPython with the [replace] handler: an invalid
    start byte, or the maximal valid prefix of a sequence broken by a bad
    continuation byte, becomes one U+FFFD and decoding resumes at the next
    byte; a sequence cut by the end of the data becomes one U+FFFD. *)

Definition REPLACEMENT : N := 65533%N.

Definition is_continuation (b : N) : bool :=
  (N.leb 128 b && N.leb b 191)%N.

Fixpoint utf8_decode (bs : list N) : str :=
  match bs with
  | [] => []
  | c :: r1 =>
    if (c <? 128)%N then c :: utf8_decode r1
    else if (c <? 194)%N then REPLACEMENT :: utf8_decode r1
    else if (c <? 224)%N then
      match r1 with
      | [] => [REPLACEMENT]
      | c2 :: r2 =>
        if is_continuation c2
        then ((c - 192) * 64 + (c2 - 128))%N :: utf8_decode r2
        else REPLACEMENT :: utf8_decode r1
      end
    else if (c <? 240)%N then
      match r1 with
      | [] => [REPLACEMENT]
      | c2 :: r2 =>
        if negb (is_continuation c2)
           || (if (c2 <? 160)%N then (c =? 224)%N else (c =? 237)%N)
        then REPLACEMENT :: utf8_decode r1
        else
          match r2 with
          | [] => [REPLACEMENT]
          | c3 :: r3 =>
            if is_continuation c3
            then ((c - 224) * 4096 + (c2 - 128) * 64 + (c3 - 128))%N
                 :: utf8_decode r3
            else REPLACEMENT :: utf8_decode r2
          end
      end
    else if (c <? 245)%N then
      match r1 with
      | [] => [REPLACEMENT]
      | c2 :: r2 =>
        if negb (is_continuation c2)
           || (if (c2 <? 144)%N then (c =? 240)%N else (c =? 244)%N)
        then REPLACEMENT :: utf8_decode r1
        else
          match r2 with
          | [] => [REPLACEMENT]
          | c3 :: r3 =>
            if negb (is_continuation c3)
            then REPLACEMENT :: utf8_decode r2
            else
              match r3 with
              | [] => [REPLACEMENT]
              | c4 :: r4 =>
                if is_continuation c4
                then ((c - 240) * 262144 + (c2 - 128) * 4096
                      + (c3 - 128) * 64 + (c4 - 128))%N
                     :: utf8_decode r4
                else REPLACEMENT :: utf8_decode r3
              end
          end
      end
    else REPLACEMENT :: utf8_decode r1
  end.

Definition decode_replace (b : bytes) : str :=
  utf8_decode (map Byte.to_N b).

(* ------------------------------------------------------------------ *)
(** ** [pathlib.PurePosixPath]

    A path is its anchor (the empty string, "/" or "//") and the list of
    its components; two paths are equal when both are.  The methods are
    those of Python 3.10 to 3.12: a name that ends with a dot has no
    suffix, and a path without a final component has no name to change. *)

Record path := mkPath { anchor : str; parts : list str }.

Definition path_eqb (p q : path) : bool :=
  str_eqb (anchor p) (anchor q)
  && (if list_eq_dec (list_eq_dec N.eq_dec) (parts p) (parts q)
      then true else false).

Fixpoint lstrip (c : N) (s : str) : str :=
  match s with
  | x :: t => if N.eqb x c then lstrip c t else s
  | [] => []
  end.

(** [Path(filepath)]: a leading run of exactly two slashes is the anchor
    "//", any other leading run is "/"; empty components and "." are
    dropped. *)
Definition Path (filepath : str) : path :=
  let rel := lstrip ch_slash filepath in
  let n := (List.length filepath - List.length rel)%nat in
  let root := match n with
              | O => []
              | 2%nat => [ch_slash; ch_slash]
              | _ => [ch_slash]
              end in
  mkPath root
    (filter (fun x => negb (str_eqb x []) && negb (str_eqb x [ch_dot]))
            (split_on ch_slash rel)).

(** [p.name] *)
Definition path_name (p : path) : str := last (parts p) [].

(** [p.suffix]: from the last dot of the name, when that dot is neither the
    first nor the last character. *)
Definition path_suffix (p : path) : str :=
  let name := path_name p in
  match rfind ch_dot name with
  | Some i =>
      if (Nat.ltb 0 i && Nat.ltb i (List.length name - 1))%bool
      then skipn i name else []
  | None => []
  end.

(** [p.stem] *)
Definition path_stem (p : path) : str :=
  let name := path_name p in
  match rfind ch_dot name with
  | Some i =>
      if (Nat.ltb 0 i && Nat.ltb i (List.length name - 1))%bool
      then firstn i name else name
  | None => name
  end.

Definition replace_name (p : path) (name : str) : path :=
  mkPath (anchor p) (removelast (parts p) ++ [name]).

(** [p.with_name(name)] *)
Definition with_name (p : path) (name : str) : res path :=
  if str_eqb (path_name p) [] then Raise ValueError
  else if str_eqb name [] || contains ch_slash name || str_eqb name [ch_dot]
  then Raise ValueError
  else Ok (replace_name p name).

(** [p.with_stem(stem)] *)
Definition with_stem (p : path) (stem : str) : res path :=
  with_name p (stem ++ path_suffix p).

(** [p.with_suffix(suffix)] *)
Definition with_suffix (p : path) (suffix : str) : res path :=
  if contains ch_slash suffix then Raise ValueError
  else if (negb (str_eqb suffix []) && negb (starts_with [ch_dot] suffix))
          || str_eqb suffix [ch_dot]
  then Raise ValueError
  else
    let name := path_name p in
    if str_eqb name [] then Raise ValueError
    else
      let old_suffix := path_suffix p in
      let name' :=
        if str_eqb old_suffix [] then name ++ suffix
        else firstn (List.length name - List.length old_suffix) name ++ suffix in
      Ok (replace_name p name').

(** Lines 383-388 of [convert_files]: the output path of one input. *)
Definition target_suffix (fmt : str) : str :=
  if str_eqb fmt (lit "m4a") || str_eqb fmt (lit "alac")
  then lit ".m4a" else ch_dot :: fmt.

Definition choose_output (input_path : path) (fmt : str) : res path :=
  let suffix := target_suffix fmt in
  output_path <- with_suffix input_path suffix ;;
  if path_eqb output_path input_path then
    p1 <- with_stem input_path (path_stem input_path ++ lit "_" ++ fmt) ;;
    with_suffix p1 suffix
  else Ok output_path.

(* ------------------------------------------------------------------ *)
(** ** Floats *)

Definition prec : Z := 53.
Definition emax : Z := 1024.

Definition float := spec_float.

(** [float(z)] for an [int]: correctly rounded, [OverflowError] when the
    integer is beyond the largest double. *)
Definition float_of_int (z : Z) : res float :=
  match binary_normalize prec emax z 0 false with
  | S754_infinity _ => Raise OverflowError
  | x => Ok x
  end.

(** An integer constant that is a double exactly. *)
Definition fconst (z : Z) : float := binary_normalize prec emax z 0 false.

Definition fdiv (x y : float) : float := SFdiv prec emax x y.
Definition fmul (x y : float) : float := SFmul prec emax x y.
Definition fltb (x y : float) : bool := SFltb x y.

Definition is_zero (x : float) : bool :=
  match x with S754_zero _ => true | _ => false end.

(** [x / y] on floats: division by zero raises. *)
Definition float_truediv (x y : float) : res float :=
  if is_zero y then Raise ZeroDivisionError else Ok (fdiv x y).

(** [a / b] on ints, both below 2^53 in magnitude (a list length is). *)
Definition int_truediv (a b : Z) : res float :=
  if b =? 0 then Raise ZeroDivisionError
  else x <- float_of_int a ;; y <- float_of_int b ;; Ok (fdiv x y).

(** [int(x)]: truncation toward zero; raises on an infinity or a NaN. *)
Definition int_of_float (x : float) : res Z :=
  match x with
  | S754_zero _ => Ok 0
  | S754_finite s m e =>
      let a := match e with
               | Z0 => Zpos m
               | Zpos _ => Z.shiftl (Zpos m) e
               | Zneg k => Z.shiftr (Zpos m) (Zpos k)
               end in
      Ok (if s then - a else a)
  | S754_infinity _ => Raise OverflowError
  | S754_nan => Raise ValueError
  end.

(** [min(1.0, x)]: the second argument only when it is smaller. *)
Definition fmin_one (x : float) : float :=
  if fltb x (fconst 1) then x else fconst 1.

(** [duration and duration > 0] *)
Definition duration_known (d : option float) : option float :=
  match d with
  | Some x => if negb (is_zero x) && fltb (fconst 0) x then Some x else None
  | None => None
  end.

(* ------------------------------------------------------------------ *)
(** ** The progress aggregator *)

(** Lines 400-401: [int(k / total * 100)]; [slice_start] is the bound at
    [idx], [slice_end] the bound at [idx + 1]. *)
Definition slice_bound (k total : Z) : res Z :=
  q <- int_truediv k total ;;
  int_of_float (fmul q (fconst 100)).

(** Lines 437-439: the global percent for [us] microseconds elapsed. *)
Definition overall_percent (slice_start slice_end : Z) (duration : float)
  (us : Z) : res Z :=
  u <- float_of_int us ;;
  seconds <- float_truediv u (fconst 1000000) ;;
  ratio <- float_truediv seconds duration ;;
  let file_pct := fmin_one ratio in
  w <- float_of_int (slice_end - slice_start) ;;
  k <- int_of_float (fmul file_pct w) ;;
  Ok (slice_start + k).

(** What the specification writes for the same two quantities. *)
Definition spec_slice_bound (k total : Z) : Z := k * 100 / total.

(* ------------------------------------------------------------------ *)
(** ** The progress channel reader

    [re.findall(r"^out_time_ms=(\d+)", content, re.MULTILINE)]: one match
    per line that starts with the key followed by at least one digit; the
    group is the longest run of digits.  A line ends at a newline only.
    The pattern is a [str], so [\d] is any decimal digit of Unicode, not
    only "0" to "9", and [int] reads the same digits. *)

(** The digits zero of Unicode 14.0, the tables of CPython 3.11; the ten
    decimal digits of a script are its zero and the nine code points that
    follow it. *)
Definition DECIMAL_ZEROS : list N :=
  [48; 1632; 1776; 1984; 2406; 2534; 2662; 2790; 2918; 3046; 3174; 3302;
   3430; 3558; 3664; 3792; 3872; 4160; 4240; 6112; 6160; 6470; 6608; 6784;
   6800; 6992; 7088; 7232; 7248; 42528; 43216; 43264; 43472; 43504; 43600;
   44016; 65296; 66720; 68912; 69734; 69872; 69942; 70096; 70384; 70736;
   70864; 71248; 71360; 71472; 71904; 72016; 72784; 73040; 73120; 92768;
   92864; 93008; 120782; 120792; 120802; 120812; 120822; 123200; 123632;
   125264; 130032]%N.

(** The value of a decimal digit, [None] for any other character. *)
Definition decimal_value (c : N) : option N :=
  match find (fun z => N.leb z c && N.ltb c (z + 10))%N DECIMAL_ZEROS with
  | Some z => Some (c - z)%N
  | None => None
  end.

(** [c.isdecimal()], the class [\d]. *)
Definition is_decimal (c : N) : bool :=
  match decimal_value c with Some _ => true | None => false end.

Fixpoint take_digits (s : str) : str :=
  match s with
  | c :: t => if is_decimal c then c :: take_digits t else []
  | [] => []
  end.

Definition match_line (line : str) : list str :=
  let key := lit "out_time_ms=" in
  if starts_with key line then
    match take_digits (skipn (List.length key) line) with
    | [] => []
    | ds => [ds]
    end
  else [].

Definition findall_out_time (content : str) : list str :=
  flat_map match_line (split_on ch_newline content).

(** [sys.int_info.default_max_str_digits] *)
Definition MAX_STR_DIGITS : nat := 4300.

Definition digit_of (c : N) : Z :=
  match decimal_value c with Some v => Z.of_N v | None => 0 end.

(** [int(s)] on a run of digits: [ValueError] when the run is longer than
    the limit of the conversion. *)
Definition int_of_digits (s : str) : res Z :=
  if Nat.ltb MAX_STR_DIGITS (List.length s) then Raise ValueError
  else Ok (fold_left (fun acc c => 10 * acc + digit_of c) s 0).

(** [matches[-1]] when there is a match. *)
Definition last_match (content : str) : option str :=
  match rev (findall_out_time content) with
  | m :: _ => Some m
  | [] => None
  end.

(* ------------------------------------------------------------------ *)
(** ** The outside world and the trace *)

(** One pass of the polling loop: what reading the progress file gives
    ([None] when opening or reading raises) and what the display would
    answer to an update. *)
Record tick := mkTick { content : option str; tick_alive : bool }.

Record task_env := mkEnv {
  input_exists : bool;          (* input_path.exists() *)
  lossy_accepted : bool;        (* warn_if_lossy(probe_codec(..), fmt) *)
  duration : option float;      (* get_duration(filepath) *)
  prepare_alive : bool;         (* answer to the update of line 403 *)
  ticks : list tick;            (* the passes made while the encoder runs *)
  returncode : Z;               (* exit code when the encoder ends by itself *)
  stderr : bytes;               (* what the encoder wrote to stderr *)
  done_alive : bool             (* answer to the update of line 480 *)
}.

Inductive phase := Preparing | Converting | Finishing.

Inductive event :=
| PbarOpen
| PbarSet (idx : nat) (ph : phase) (value : Z) (alive : bool)
| MkTemp (idx : nat)
| Spawn (idx : nat) (output : path)
| Kill (idx : nat)
| Wait (idx : nat)
| UnlinkProgress (idx : nat)
| UnlinkOutput (idx : nat) (output : path)
| PbarClose
| NotifyCancelled (idx total : nat)
| ErrorDialog (done total errors : nat)
| NotifyDone (done : nat).

(** [pbar_set]: without a handle or without qdbus no call is made and the
    answer is [True]; otherwise the answer is the exit status of qdbus. *)
Definition pbar_set (display : bool) (answer : bool) : bool :=
  if display then answer else true.

Record state := mkState {
  errors : list str;
  done : nat;
  trace : list event
}.

Definition emit (st : state) (evs : list event) : state :=
  mkState (errors st) (done st) (trace st ++ evs).

Definition add_error (st : state) (msg : str) : state :=
  mkState (errors st ++ [msg]) (done st) (trace st).

Definition add_done (st : state) : state :=
  mkState (errors st) (S (done st)) (trace st).

(** How one pass of the [for] loop, and the whole call, can end. *)
Inductive flow := Next | Cancelled | Raised (e : exn).

(* ------------------------------------------------------------------ *)
(** ** The polling loop (lines 428-448) *)

(** The body of the [try]: the value to forward, if the pass computes one. *)
Definition tick_overall (slice_start slice_end : Z) (d : option float)
  (t : tick) : option Z :=
  match content t with
  | None => None
  | Some c =>
      match last_match c, duration_known d with
      | Some m, Some dur =>
          match us <- int_of_digits m ;;
                overall_percent slice_start slice_end dur us with
          | Ok v => Some v
          | Raise _ => None
          end
      | _, _ => None
      end
  end.

Fixpoint poll_loop (display : bool) (idx : nat) (slice_start slice_end : Z)
  (d : option float) (last_pct : Z) (ts : list tick) : list event * bool :=
  match ts with
  | [] => ([], false)
  | t :: ts' =>
      match tick_overall slice_start slice_end d t with
      | Some overall =>
          if overall >? last_pct then
            let alive := pbar_set display (tick_alive t) in
            if alive then
              let '(evs, c) :=
                poll_loop display idx slice_start slice_end d overall ts' in
              (PbarSet idx Converting overall true :: evs, c)
            else ([PbarSet idx Converting overall false; Kill idx], true)
          else poll_loop display idx slice_start slice_end d last_pct ts'
      | None => poll_loop display idx slice_start slice_end d last_pct ts'
      end
  end.

(* ------------------------------------------------------------------ *)
(** ** One pass of the [for] loop (lines 378-480) *)

Definition loop_body (display : bool) (total : nat) (fmt : str)
  (idx : nat) (filepath : str) (te : task_env) (st : state) : state * flow :=
  let input_path := Path filepath in
  if negb (input_exists te) then
    (add_error st (lit "File not found: " ++ filepath), Next)
  else
    match choose_output input_path fmt with
    | Raise e => (st, Raised e)
    | Ok output_path =>
      if negb (lossy_accepted te) then (st, Next)
      else
        match slice_bound (Z.of_nat idx) (Z.of_nat total),
              slice_bound (Z.of_nat idx + 1) (Z.of_nat total) with
        | Raise e, _ => (st, Raised e)
        | Ok _, Raise e => (st, Raised e)
        | Ok slice_start, Ok slice_end =>
          let st1 :=
            emit st [PbarSet idx Preparing slice_start
                       (pbar_set display (prepare_alive te));
                     MkTemp idx; Spawn idx output_path] in
          let '(evs, cancelled) :=
            poll_loop display idx slice_start slice_end (duration te)
                      slice_start (ticks te) in
          let st2 := emit st1 (evs ++ [Wait idx; UnlinkProgress idx]) in
          if cancelled then
            (emit st2 [UnlinkOutput idx output_path; PbarClose;
                       NotifyCancelled (S idx) total], Cancelled)
          else if negb (returncode te =? 0) then
            let excerpt := firstn 400 (decode_replace (stderr te)) in
            (emit (add_error st2
                     (path_name input_path ++ lit ":" ++ [ch_newline]
                      ++ excerpt))
                  [UnlinkOutput idx output_path], Next)
          else
            (emit (add_done st2)
                  [PbarSet idx Finishing slice_end
                     (pbar_set display (done_alive te))], Next)
        end
    end.

(** The [for] loop over [enumerate(files)], from index [idx] on. *)
Fixpoint run_loop (display : bool) (total : nat) (fmt : str)
  (env : nat -> task_env) (idx : nat) (files : list str) (st : state)
  : state * flow :=
  match files with
  | [] => (st, Next)
  | filepath :: rest =>
      match loop_body display total fmt idx filepath (env idx) st with
      | (st', Next) => run_loop display total fmt env (S idx) rest st'
      | (st', fl) => (st', fl)
      end
  end.

(** Lines 482-505: closing the display and the final report. *)
Definition final_report (total : nat) (st : state) : state :=
  let st1 := emit st [PbarClose] in
  match errors st1 with
  | _ :: _ =>
      emit st1 [ErrorDialog (done st1) total (List.length (errors st1))]
  | [] =>
      if Nat.ltb 0 (done st1) then emit st1 [NotifyDone (done st1)] else st1
  end.

Definition initial_state : state := mkState [] 0 [PbarOpen].

(** [convert_files(files, fmt, quality)].  [display] tells whether
    [pbar_open] returned a handle and qdbus was found; [quality] only
    enters the labels and the arguments of the encoder and is left out. *)
Definition convert_files (display : bool) (env : nat -> task_env)
  (files : list str) (fmt : str) : state * flow :=
  let total := List.length files in
  match run_loop display total fmt env 0 files initial_state with
  | (st, Next) => (final_report total st, Next)
  | (st, fl) => (st, fl)
  end.

(* ------------------------------------------------------------------ *)
(** ** Reading a trace *)

(** The values passed to [pbar_set], in order. *)
Fixpoint forwarded (tr : list event) : list Z :=
  match tr with
  | [] => []
  | PbarSet _ _ v _ :: tr' => v :: forwarded tr'
  | _ :: tr' => forwarded tr'
  end.

Fixpoint count_close (tr : list event) : nat :=
  match tr with
  | [] => 0
  | PbarClose :: tr' => S (count_close tr')
  | _ :: tr' => count_close tr'
  end.

Fixpoint nondecreasing (l : list Z) : Prop :=
  match l with
  | [] => True
  | x :: l' => match l' with
               | [] => True
               | y :: _ => x <= y
               end /\ nondecreasing l'
  end.

(* ------------------------------------------------------------------ *)
(** ** Formats and suffixes *)

Definition FORMAT_KEYS : list str :=
  [lit "mp3"; lit "ogg"; lit "flac"; lit "wav"; lit "m4a"; lit "opus"; lit "alac"].

Definition valid_suffix (s : str) : Prop :=
  contains ch_slash s = false /\ starts_with [ch_dot] s = true /\ s <> [ch_dot].

(* ------------------------------------------------------------------ *)
(** ** More readings of a trace, and the passes of the loop *)

Definition event_idx (e : event) : option nat :=
  match e with
  | PbarSet i _ _ _ | MkTemp i | Spawn i _ | Kill i | Wait i
  | UnlinkProgress i | UnlinkOutput i _ => Some i
  | _ => None
  end.

Fixpoint count_finishing (tr : list event) : nat :=
  match tr with
  | [] => 0
  | PbarSet _ Finishing _ _ :: tr' => S (count_finishing tr')
  | _ :: tr' => count_finishing tr'
  end.

(** The progress files that exist after a trace, given those before it. *)
Fixpoint live_progress (live : list nat) (tr : list event) : list nat :=
  match tr with
  | [] => live
  | MkTemp i :: tr' => live_progress (i :: live) tr'
  | UnlinkProgress i :: tr' => live_progress (remove Nat.eq_dec i live) tr'
  | _ :: tr' => live_progress live tr'
  end.

(** The last value passed to [pbar_set], [prev] if the trace has none. *)
Fixpoint last_forwarded (prev : option Z) (tr : list event) : option Z :=
  match tr with
  | [] => prev
  | PbarSet _ _ v _ :: tr' => last_forwarded (Some v) tr'
  | _ :: tr' => last_forwarded prev tr'
  end.

(** Every update sent from the polling loop exceeds the value sent just
    before it. *)
Fixpoint filter_respected (prev : option Z) (tr : list event) : Prop :=
  match tr with
  | [] => True
  | PbarSet _ Converting v _ :: tr' =>
      (exists p, prev = Some p /\ p < v) /\ filter_respected (Some v) tr'
  | PbarSet _ _ v _ :: tr' => filter_respected (Some v) tr'
  | _ :: tr' => filter_respected prev tr'
  end.

(** No update of the trace was answered "not alive" from the polling
    loop, and no encoder was killed. *)
Definition undisturbed (e : event) : Prop :=
  match e with
  | PbarSet _ Converting _ false => False
  | Kill _ => False
  | _ => True
  end.

(** The events of a pass that spawns the encoder, up to the removal of the
    progress file. *)
Definition run_events (display : bool) (idx : nat) (te : task_env)
  (output : path) (slice_start : Z) (evs : list event) : list event :=
  [PbarSet idx Preparing slice_start (pbar_set display (prepare_alive te));
   MkTemp idx; Spawn idx output]
  ++ evs ++ [Wait idx; UnlinkProgress idx].

Definition failure_entry (filepath : str) (te : task_env) : str :=
  path_name (Path filepath) ++ lit ":" ++ [ch_newline]
  ++ firstn 400 (decode_replace (stderr te)).

(** The ways a pass of the loop can go, read off [loop_body]. *)
Inductive pass (display : bool) (total : nat) (fmt : str) (idx : nat)
  (filepath : str) (te : task_env) (st : state) : state -> flow -> Prop :=
| PassMissing :
    input_exists te = false ->
    pass display total fmt idx filepath te st
      (add_error st (lit "File not found: " ++ filepath)) Next
| PassRaised e :
    input_exists te = true ->
    choose_output (Path filepath) fmt = Raise e
    \/ slice_bound (Z.of_nat idx) (Z.of_nat total) = Raise e
    \/ slice_bound (Z.of_nat idx + 1) (Z.of_nat total) = Raise e ->
    pass display total fmt idx filepath te st st (Raised e)
| PassRejected out :
    input_exists te = true ->
    choose_output (Path filepath) fmt = Ok out ->
    lossy_accepted te = false ->
    pass display total fmt idx filepath te st st Next
| PassCancelled out s_start s_end evs :
    input_exists te = true ->
    choose_output (Path filepath) fmt = Ok out ->
    lossy_accepted te = true ->
    slice_bound (Z.of_nat idx) (Z.of_nat total) = Ok s_start ->
    slice_bound (Z.of_nat idx + 1) (Z.of_nat total) = Ok s_end ->
    poll_loop display idx s_start s_end (duration te) s_start (ticks te)
      = (evs, true) ->
    pass display total fmt idx filepath te st
      (emit st (run_events display idx te out s_start evs
                ++ [UnlinkOutput idx out; PbarClose;
                    NotifyCancelled (S idx) total]))
      Cancelled
| PassFailed out s_start s_end evs :
    input_exists te = true ->
    choose_output (Path filepath) fmt = Ok out ->
    lossy_accepted te = true ->
    slice_bound (Z.of_nat idx) (Z.of_nat total) = Ok s_start ->
    slice_bound (Z.of_nat idx + 1) (Z.of_nat total) = Ok s_end ->
    poll_loop display idx s_start s_end (duration te) s_start (ticks te)
      = (evs, false) ->
    returncode te <> 0 ->
    pass display total fmt idx filepath te st
      (mkState (errors st ++ [failure_entry filepath te]) (done st)
         (trace st ++ run_events display idx te out s_start evs
          ++ [UnlinkOutput idx out]))
      Next
| PassDone out s_start s_end evs :
    input_exists te = true ->
    choose_output (Path filepath) fmt = Ok out ->
    lossy_accepted te = true ->
    slice_bound (Z.of_nat idx) (Z.of_nat total) = Ok s_start ->
    slice_bound (Z.of_nat idx + 1) (Z.of_nat total) = Ok s_end ->
    poll_loop display idx s_start s_end (duration te) s_start (ticks te)
      = (evs, false) ->
    returncode te = 0 ->
    pass display total fmt idx filepath te st
      (mkState (errors st) (S (done st))
         (trace st ++ run_events display idx te out s_start evs
          ++ [PbarSet idx Finishing s_end (pbar_set display (done_alive te))]))
      Next.

(** Every indexed event belongs to a task below [bound] whose input
    exists. *)
Definition well_indexed (env : nat -> task_env) (bound : nat)
  (tr : list event) : Prop :=
  Forall (fun e => forall j, event_idx e = Some j ->
                   (j < bound)%nat /\ input_exists (env j) = true) tr.

(** What holds between two passes of the loop, before pass [idx]. *)
Record between_passes (env : nat -> task_env) (idx : nat) (st : state)
  : Prop := {
  bp_indexed : well_indexed env idx (trace st);
  bp_undisturbed : Forall undisturbed (trace st);
  bp_done : done st = count_finishing (trace st);
  bp_done_le : (done st <= idx)%nat;
  bp_live : live_progress [] (trace st) = [];
  bp_filter : filter_respected None (trace st);
  bp_close : count_close (trace st) = 0%nat
}.

(** What holds when the loop was left by the [return] of the
    cancellation path, in pass [idx]. *)
Record cancelled_at (env : nat -> task_env) (total : nat) (st : state)
  (idx : nat) (pre : list event) (v : Z) (out : path) : Prop := {
  ca_idx : (idx < total)%nat;
  ca_trace : trace st = pre ++ [PbarSet idx Converting v false; Kill idx;
                                Wait idx; UnlinkProgress idx;
                                UnlinkOutput idx out; PbarClose;
                                NotifyCancelled (S idx) total];
  ca_indexed : well_indexed env (S idx) (trace st);
  ca_undisturbed : Forall undisturbed pre;
  ca_done : done st = count_finishing pre;
  ca_done_le : (done st <= idx)%nat;
  ca_live : live_progress [] (trace st) = [];
  ca_filter : filter_respected None (trace st);
  ca_close : count_close (trace st) = 1%nat
}.

Definition loop_end (env : nat -> task_env) (total : nat) (st : state)
  (fl : flow) : Prop :=
  match fl with
  | Next => between_passes env total st
  | Cancelled => exists idx pre v out, cancelled_at env total st idx pre v out
  | Raised _ => exists idx, (idx < total)%nat /\ between_passes env idx st
  end.

(** The sweep of the bar: what was forwarded so far is sorted and below
    the start of the next slice. *)
Record sweep (total idx : nat) (st : state) : Prop := {
  sw_sorted : nondecreasing (forwarded (trace st));
  sw_below : forall b, slice_bound (Z.of_nat idx) (Z.of_nat total) = Ok b ->
               Forall (fun v => v <= b) (forwarded (trace st));
  sw_last : forall v a b, (0 < idx)%nat ->
               In (PbarSet (idx - 1) Finishing v a) (trace st) ->
               slice_bound (Z.of_nat idx) (Z.of_nat total) = Ok b ->
               last_forwarded None (trace st) = Some b
}.

Definition no_record (t : tick) : Prop :=
  match content t with
  | Some c => last_match c = None
  | None => True
  end.

(** The updates of task [i] carry values of the slice of task [i]. *)
Definition in_own_slice (total : nat) (e : event) : Prop :=
  match e with
  | PbarSet i _ v _ =>
      exists s_start s_end,
        slice_bound (Z.of_nat i) (Z.of_nat total) = Ok s_start /\
        slice_bound (Z.of_nat i + 1) (Z.of_nat total) = Ok s_end /\
        s_start <= v <= s_end
  | _ => True
  end.

(** The "Preparing" update of task [i] carries the start of its slice. *)
Definition prepared_at_start (total : nat) (e : event) : Prop :=
  match e with
  | PbarSet i Preparing v _ =>
      slice_bound (Z.of_nat i) (Z.of_nat total) = Ok v
  | _ => True
  end.

(** What the polling loop of task [idx] emits: updates and a kill. *)
Definition poll_event (idx : nat) (e : event) : Prop :=
  (exists v a, e = PbarSet idx Converting v a) \/ e = Kill idx.

(** Every spawn of the trace stands between the creation of the progress
    file of its task and, after the polling loop and the wait, the
    removal of that file. *)
Definition spawns_paired (tr : list event) : Prop :=
  forall i o, In (Spawn i o) tr ->
    exists pre polled post,
      tr = pre ++ [MkTemp i; Spawn i o] ++ polled
           ++ [Wait i; UnlinkProgress i] ++ post /\
      Forall (poll_event i) polled.

(* ------------------------------------------------------------------ *)
(** ** Doubles as real numbers (for the proofs) *)

Definition pow2 (e : Z) : R := powerRZ 2 e.

Definition round_result (m2 e2 : Z) : spec_float :=
  match m2 with
  | Z0 => S754_zero false
  | Zpos m => if e2 <=? emax - prec then S754_finite false m e2 else S754_infinity false
  | Zneg _ => S754_nan
  end.

(** The real value of a finite double. *)
Definition F2R (x : float) : R :=
  match x with
  | S754_finite s m e =>
      ((if s then -1 else 1) * IZR (Zpos m) * pow2 e)%R
  | _ => 0%R
  end.

(** Non-negative, finite, with a mantissa of at most 53 bits. *)
Definition nonneg_finite (x : float) : Prop :=
  match x with
  | S754_zero false => True
  | S754_finite false m e => Zpos m < 2 ^ 53
  | _ => False
  end.

(** Non-negative, possibly infinite. *)
Definition nonneg_shape (x : float) : Prop :=
  match x with
  | S754_zero false | S754_infinity false => True
  | S754_finite false m e => Zpos m < 2 ^ 53
  | _ => False
  end.

Definition eps_div : R := pow2 (-49).

Definition eps_mul : R := pow2 (-44).

Definition exp_le (k : Z) (x : float) : Prop :=
  match x with
  | S754_finite _ _ e => e <= k
  | _ => True
  end.

Definition sign_false (x : float) : Prop :=
  match x with
  | S754_zero false | S754_infinity false | S754_finite false _ _ => True
  | _ => False
  end.

Definition eps_slice : R := pow2 (-41).

(* ------------------------------------------------------------------ *)
(** ** Sample tasks and batches *)

Definition progress_record (us : string) : str :=
  lit "out_time_ms=" ++ lit us ++ [ch_newline].

(** An input that exists and is accepted; the probe of the duration
    failed and the encoder ends with [rc] before the first poll. *)
Definition quiet_task (rc : Z) (err : bytes) : task_env :=
  mkEnv true true None true [] rc err true.

(** An input of [seconds] seconds whose progress file shows [us]
    microseconds at the only poll, to which the display answers
    [answer]. *)
Definition polled_task (seconds : Z) (us : string) (answer : bool) : task_env :=
  mkEnv true true (Some (fconst seconds)) true
        [mkTick (Some (progress_record us)) answer] 0 [] true.

(** An input of ten seconds whose progress file never shows a record,
    in front of a display that answers "not alive" to everything. *)
Definition silent_task : task_env :=
  mkEnv true true (Some (fconst 10)) false
        [mkTick (Some (lit "frame=12")) false; mkTick None false;
         mkTick (Some (lit "out_time_ms=N/A")) false]
        0 [] false.

Definition missing_task : task_env :=
  mkEnv false true None true [] 0 [] true.

Definition two_files : list str := [lit "/music/a.wav"; lit "b.flac"].

Definition env_two_done (i : nat) : task_env :=
  match i with
  | O => polled_task 10 "5000000" true
  | _ => polled_task 20 "10000000" true
  end.

Definition env_two_quiet (i : nat) : task_env := quiet_task 0 [].

Definition env_one_failure (i : nat) : task_env := quiet_task 1 [].

Definition env_fail_then_cancel (i : nat) : task_env :=
  match i with
  | O => quiet_task 1 []
  | _ => polled_task 20 "10000000" false
  end.

Definition stderr_800 : bytes :=
  List.concat (repeat [Byte.xc3; Byte.xa9] 400).

Definition env_fail_utf8 (i : nat) : task_env := quiet_task 1 stderr_800.

Definition env_missing_then_done (i : nat) : task_env :=
  match i with
  | O => missing_task
  | _ => quiet_task 0 []
  end.

(* ================================================================== *)
(** * The rest of the program

    The tables of formats and codecs, the arguments of the encoder, the
    lossy warning, the handle of the progress dialog, the configuration
    file, the patching of the service menu and the entry point.

    Further conventions.
    - What depends on the Unicode tables of the interpreter is read from a
      record [unicode]: the class [\d] and the class [\w] of the [re]
      module, and [str.lower].
    - A parsed JSON document is a [json]; a [dict] is the list of its
      items in insertion order, with distinct keys.
    - [str(v)] of a JSON value that is not a string is read from a
      function [render]. *)

Record unicode := mkUnicode {
  isdecimal : N -> bool;        (* the class \d of a str pattern *)
  isword : N -> bool;           (* the class \w of a str pattern *)
  lower : str -> str            (* str.lower() *)
}.

(* ------------------------------------------------------------------ *)
(** ** Whitespace: [str.strip()] and [str.split()] without argument *)

(** [c.isspace()] for one character. *)
Definition is_space (c : N) : bool :=
  ((9 <=? c) && (c <=? 13) || (28 <=? c) && (c <=? 32) || (c =? 133)
   || (c =? 160) || (c =? 5760) || (8192 <=? c) && (c <=? 8202)
   || (c =? 8232) || (c =? 8233) || (c =? 8239) || (c =? 8287)
   || (c =? 12288))%N.

Fixpoint lstrip_space (s : str) : str :=
  match s with
  | c :: t => if is_space c then lstrip_space t else s
  | [] => []
  end.

(** [s.strip()] *)
Definition strip (s : str) : str :=
  rev (lstrip_space (rev (lstrip_space s))).

(** [s.split()]: the maximal runs of characters that are not whitespace. *)
Fixpoint split_space (s : str) : list str :=
  match s with
  | [] => []
  | c :: t =>
      if is_space c then split_space t
      else
        match t with
        | [] => [[c]]
        | d :: _ =>
            if is_space d then [c] :: split_space t
            else match split_space t with
                 | w :: ws => (c :: w) :: ws
                 | [] => [[c]]
                 end
        end
  end.

(* ------------------------------------------------------------------ *)
(** ** Dictionaries *)

Definition dict (V : Type) := list (str * V).

(** [d.get(k)] *)
Fixpoint dict_get {V : Type} (d : dict V) (k : str) : option V :=
  match d with
  | [] => None
  | (k', v) :: r => if str_eqb k' k then Some v else dict_get r k
  end.

(** [d[k] = v]: the value of an existing key is replaced where it stands,
    a new key is added at the end. *)
Fixpoint dict_set {V : Type} (d : dict V) (k : str) (v : V) : dict V :=
  match d with
  | [] => [(k, v)]
  | (k', v') :: r =>
      if str_eqb k' k then (k', v) :: r else (k', v') :: dict_set r k v
  end.

(** [d.setdefault(k, v)] *)
Definition dict_setdefault {V : Type} (d : dict V) (k : str) (v : V) : dict V :=
  match dict_get d k with
  | Some _ => d
  | None => d ++ [(k, v)]
  end.

(** [k in d] *)
Definition dict_mem {V : Type} (d : dict V) (k : str) : bool :=
  match dict_get d k with Some _ => true | None => false end.

(** [x in l] for a list of strings. *)
Definition mem (x : str) (l : list str) : bool := existsb (str_eqb x) l.

(* ------------------------------------------------------------------ *)
(** ** The tables (lines 35-117) *)

Record format_def := mkFormat {
  label : str;
  options : list (str * str)    (* (value, description) *)
}.

Definition opt (value description : string) : str * str :=
  (lit value, lit description).

Definition FORMAT_DEFS : dict format_def :=
  [ (lit "mp3", mkFormat (lit "MP3")
       [opt "V0" "VBR ~245 kbps (best)"; opt "V2" "VBR ~190 kbps";
        opt "V4" "VBR ~165 kbps"; opt "128k" "CBR 128 kbps";
        opt "192k" "CBR 192 kbps"; opt "256k" "CBR 256 kbps";
        opt "320k" "CBR 320 kbps (max)"]);
    (lit "ogg", mkFormat (lit "OGG (Vorbis)")
       [opt "Q6" "~192 kbps (default)"; opt "Q3" "~112 kbps";
        opt "Q5" "~160 kbps"; opt "Q8" "~256 kbps";
        opt "Q10" "~500 kbps (best)"]);
    (lit "flac", mkFormat (lit "FLAC") [opt "lossless" "Lossless"]);
    (lit "wav", mkFormat (lit "WAV") [opt "lossless" "Lossless (PCM 16-bit)"]);
    (lit "m4a", mkFormat (lit "M4A (AAC)")
       [opt "192k" "192 kbps (default)"; opt "128k" "128 kbps";
        opt "256k" "256 kbps"; opt "320k" "320 kbps"]);
    (lit "opus", mkFormat (lit "Opus")
       [opt "128k" "128 kbps (default)"; opt "64k" "64 kbps (voice)";
        opt "96k" "96 kbps"; opt "192k" "192 kbps";
        opt "256k" "256 kbps (transparent)"]);
    (lit "alac", mkFormat (lit "ALAC (M4A)") [opt "lossless" "Lossless"]) ].

Definition CODEC_CATEGORY : dict str :=
  map (fun c => (lit c, lit "lossy"))
      ["mp3"; "vorbis"; "aac"; "opus"; "wmav1"; "wmav2"; "ac3"; "eac3";
       "mp2"; "amrnb"; "amrwb"; "wmavoice"]%string
  ++ map (fun c => (lit c, lit "lossless"))
      ["flac"; "alac"; "wavpack"; "ape"; "tta"; "truehd"; "mlp";
       "pcm_s16le"; "pcm_s24le"; "pcm_s32le"; "pcm_f32le"; "pcm_f64le";
       "pcm_s16be"]%string.

(** [len(opts) == 1 and opts[0][0] == "lossless"] *)
Definition only_lossless (opts : list (str * str)) : bool :=
  match opts with
  | [(v, _)] => str_eqb v (lit "lossless")
  | _ => false
  end.

(** [data["options"][0][0]]; no format of the table has an empty list. *)
Definition first_option (data : format_def) : str :=
  match options data with
  | (v, _) :: _ => v
  | [] => []
  end.

(* ------------------------------------------------------------------ *)
(** ** The qdbus binary (lines 121-123) and the handle (lines 266-282) *)

(** [QDBUS]: the first of the three names that [shutil.which] finds. *)
Definition QDBUS (which : str -> bool) : option str :=
  find which [lit "qdbus-qt5"; lit "qdbus"; lit "qdbus6"].

(** [pbar_open], from what kdialog printed. *)
Definition pbar_open (stdout : str) : option (str * str) :=
  match split_space (strip stdout) with
  | p0 :: p1 :: _ => Some (p0, p1)
  | [p0] => Some (p0, lit "/")
  | [] => None
  end.

(** [handle and QDBUS]: whether [pbar_set] and [pbar_close] call qdbus at
    all; this is the [display] of [convert_files]. *)
Definition display_of (handle : option (str * str)) (qdbus : option str) : bool :=
  match handle, qdbus with
  | Some _, Some _ => true
  | _, _ => false
  end.

(* ------------------------------------------------------------------ *)
(** ** [build_ffmpeg_args] (lines 230-248) *)

(** [re.match(r"^V\d$", quality)]: [$] also matches before a newline that
    ends the string. *)
Definition match_V_digit (U : unicode) (quality : str) : bool :=
  match quality with
  | [v; d] => N.eqb v 86 && isdecimal U d
  | [v; d; nl] => N.eqb v 86 && isdecimal U d && N.eqb nl 10
  | _ => false
  end.

Definition build_ffmpeg_args (U : unicode) (fmt quality : str) : list str :=
  if str_eqb fmt (lit "mp3") then
    if match_V_digit U quality
    then [lit "-codec:a"; lit "libmp3lame"; lit "-q:a"; skipn 1 quality]
    else [lit "-codec:a"; lit "libmp3lame"; lit "-b:a"; quality]
  else if str_eqb fmt (lit "ogg") then
    let q := if starts_with (lit "Q") quality then skipn 1 quality
             else lit "6" in
    [lit "-codec:a"; lit "libvorbis"; lit "-q:a"; q]
  else if str_eqb fmt (lit "m4a") then
    [lit "-codec:a"; lit "aac"; lit "-b:a"; quality]
  else if str_eqb fmt (lit "opus") then
    [lit "-codec:a"; lit "libopus"; lit "-b:a"; quality]
  else if str_eqb fmt (lit "flac") then
    [lit "-codec:a"; lit "flac"; lit "-compression_level"; lit "8"]
  else if str_eqb fmt (lit "wav") then
    [lit "-codec:a"; lit "pcm_s16le"]
  else if str_eqb fmt (lit "alac") then
    [lit "-codec:a"; lit "alac"]
  else [].

(** [quality_label] (lines 153-154), also [q_suffix] of line 372. *)
Definition quality_label (quality : str) : str :=
  if str_eqb quality (lit "lossless") then []
  else lit " (" ++ quality ++ lit ")".

(* ------------------------------------------------------------------ *)
(** ** [warn_if_lossy] (lines 313-362) *)

Inductive warning := LossyToLossy | LossyToLossless.

(** The dialogs shown and the answer; [rc] is the exit status of kdialog
    if a dialog is shown. *)
Definition warn_if_lossy (input_codec : option str) (output_fmt : str)
  (rc : Z) : list warning * bool :=
  let src_cat :=
    match input_codec with
    | Some c => match dict_get CODEC_CATEGORY c with
                | Some cat => cat
                | None => lit "unknown"
                end
    | None => lit "unknown"
    end in
  let is_lossless :=
    match dict_get FORMAT_DEFS output_fmt with
    | Some dst_data => only_lossless (options dst_data)
    | None => false
    end in
  let dst_lossy := negb is_lossless in
  if str_eqb src_cat (lit "lossy") && dst_lossy
  then ([LossyToLossy], rc =? 0)
  else if str_eqb src_cat (lit "lossy") && negb dst_lossy
  then ([LossyToLossless], rc =? 0)
  else ([], true).

(* ------------------------------------------------------------------ *)
(** ** The configuration file (lines 127-142) *)

#[local] Unset Elimination Schemes.

Inductive json :=
| JNull
| JBool (b : bool)
| JInt (z : Z)
| JFloat (f : float)
| JStr (s : str)
| JList (l : list json)
| JDict (d : list (str * json)).

#[local] Set Elimination Schemes.

(** [v == s] for a string [s]. *)
Definition json_is (v : json) (s : str) : bool :=
  match v with
  | JStr t => str_eqb t s
  | _ => false
  end.

(** What [CONFIG_FILE] holds: no file, a file that cannot be read or
    parsed, or a parsed document. *)
Inductive config_file :=
| NoFile
| Unreadable
| Parsed (v : json).

Definition defaults : dict json :=
  map (fun '(fmt, data) => (fmt, JStr (first_option data))) FORMAT_DEFS.

(** [load_config]: a document that is not an object has no [setdefault];
    the exception is caught and the defaults are returned. *)
Definition load_config (file : config_file) : dict json :=
  match file with
  | Parsed (JDict data) =>
      fold_left (fun d '(k, v) => dict_setdefault d k v) defaults data
  | _ => defaults
  end.

(* ------------------------------------------------------------------ *)
(** ** [update_desktop_names] (lines 157-179) *)

(** [s.splitlines()] *)
Definition is_linebreak (c : N) : bool :=
  ((10 <=? c) && (c <=? 13) || (28 <=? c) && (c <=? 30) || (c =? 133)
   || (c =? 8232) || (c =? 8233))%N.

(** [skip_lf] is set just after a carriage return, whose line feed
    belongs to the same line end. *)
Fixpoint splitlines_from (skip_lf : bool) (s : str) : list str :=
  match s with
  | [] => []
  | c :: t =>
      if skip_lf && N.eqb c 10 then splitlines_from false t
      else if is_linebreak c then [] :: splitlines_from (N.eqb c 13) t
      else match splitlines_from false t with
           | l :: ls => (c :: l) :: ls
           | [] => [[c]]
           end
  end.

Definition splitlines (s : str) : list str := splitlines_from false s.

(** ["\n".join(lines)] *)
Fixpoint join_lines (lines : list str) : str :=
  match lines with
  | [] => []
  | [l] => l
  | l :: ls => l ++ ch_newline :: join_lines ls
  end.

(** [(\w+)\]] at the start of [s]: the longest non-empty run of word
    characters that is followed by a closing bracket. *)
Fixpoint word_then_bracket (U : unicode) (s : str) : option str :=
  match s with
  | c :: t =>
      if isword U c then
        match word_then_bracket U t with
        | Some w => Some (c :: w)
        | None =>
            match t with
            | d :: _ => if N.eqb d 93 then Some [c] else None
            | [] => None
            end
        end
      else None
  | [] => None
  end.

(** [re.match(r"^\[Desktop Action (\w+)\]", line)]: the group, if the line
    matches. *)
Definition match_action (U : unicode) (line : str) : option str :=
  let header := lit "[Desktop Action " in
  if starts_with header line
  then word_then_bracket U (skipn (List.length header) line)
  else None.

(** [fmt.capitalize()] for the keys of [FORMAT_DEFS], which are ASCII. *)
Definition ascii_upper (c : N) : N :=
  if ((97 <=? c) && (c <=? 122))%N then (c - 32)%N else c.

Definition ascii_lower (c : N) : N :=
  if ((65 <=? c) && (c <=? 90))%N then (c + 32)%N else c.

Definition capitalize (s : str) : str :=
  match s with
  | [] => []
  | c :: t => ascii_upper c :: map ascii_lower t
  end.

(** [f"{q}"] *)
Definition format_value (render : json -> str) (q : json) : str :=
  match q with
  | JStr s => s
  | _ => render q
  end.

(** Lines 161-168; [None] when [cfg[fmt]] raises [KeyError]. *)
Fixpoint name_map_from (render : json -> str) (cfg : dict json)
  (defs : dict format_def) (name_map : dict str) : option (dict str) :=
  match defs with
  | [] => Some name_map
  | (fmt, data) :: rest =>
      match dict_get cfg fmt with
      | None => None
      | Some q =>
          let ql := if json_is q (lit "lossless") then []
                    else lit " (" ++ format_value render q ++ lit ")" in
          let key := lit "convertTo" ++ capitalize fmt in
          name_map_from render cfg rest
            (dict_set name_map key (lit "Convert to " ++ label data ++ ql))
      end
  end.

(** Lines 170-178: the loop over the lines. *)
Fixpoint patch_lines (U : unicode) (name_map : dict str)
  (current_action : option str) (lines : list str) : list str :=
  match lines with
  | [] => []
  | line :: rest =>
      let current :=
        match match_action U line with
        | Some a => Some a
        | None => current_action
        end in
      let line' :=
        match current with
        | Some a =>
            if negb (str_eqb a []) && starts_with (lit "Name=") line
            then match dict_get name_map a with
                 | Some v => lit "Name=" ++ v
                 | None => line
                 end
            else line
        | None => line
        end in
      line' :: patch_lines U name_map current rest
  end.

Inductive desktop_result :=
| NoDesktopFile                 (* nothing is read or written *)
| RaisedKeyError                (* cfg lacks a format *)
| Written (text : str).         (* the new contents of the file *)

(** [desktop] is the text of the first of [DESKTOP_PATHS] that exists. *)
Definition update_desktop_names (U : unicode) (render : json -> str)
  (cfg : dict json) (desktop : option str) : desktop_result :=
  match desktop with
  | None => NoDesktopFile
  | Some text =>
      match name_map_from render cfg FORMAT_DEFS [] with
      | None => RaisedKeyError
      | Some name_map =>
          Written (join_lines (patch_lines U name_map None (splitlines text))
                   ++ [ch_newline])
      end
  end.

(* ------------------------------------------------------------------ *)
(** ** [run_configure] (lines 510-572) *)

(** What a kdialog menu returned. *)
Record dialog := mkDialog { dialog_rc : Z; dialog_stdout : str }.

Inductive configure_event :=
| Menu (tags : list str)
| SaveConfig (cfg : dict json)
| UpdateDesktop (cfg : dict json)
| NotifySaved (label : str) (quality : str).

Definition configurable : list str :=
  map fst (filter (fun '(_, data) => negb (only_lossless (options data)))
                  FORMAT_DEFS).

(** The calls made, in order, when none of them raises. *)
Definition run_configure (file : config_file) (r r2 : dialog)
  : list configure_event :=
  let cfg := load_config file in
  let menu1 := Menu configurable in
  if negb (dialog_rc r =? 0) then [menu1]
  else
    let chosen_fmt := strip (dialog_stdout r) in
    if negb (mem chosen_fmt configurable) then [menu1]
    else
      match dict_get FORMAT_DEFS chosen_fmt with
      | None => [menu1]
      | Some fmt_def =>
          let menu2 := Menu (map fst (options fmt_def)) in
          if negb (dialog_rc r2 =? 0) then [menu1; menu2]
          else
            let chosen_q := strip (dialog_stdout r2) in
            let valid_vals := map fst (options fmt_def) in
            if negb (mem chosen_q valid_vals) then [menu1; menu2]
            else
              let cfg' := dict_set cfg chosen_fmt (JStr chosen_q) in
              [menu1; menu2; SaveConfig cfg'; UpdateDesktop cfg';
               NotifySaved (label fmt_def) chosen_q]
      end.

(* ------------------------------------------------------------------ *)
(** ** [main] (lines 576-620) *)

(** The result of [parse_args]. *)
Record args := mkArgs {
  arg_format : option str;
  arg_configure : bool;
  arg_files : list str
}.

Inductive outcome :=
| Configure                     (* run_configure() *)
| Usage                         (* print_help(); exit 1 *)
| UnknownFormat (fmt : str)     (* error dialog; exit 1 *)
| NoInputFiles                  (* error dialog; exit 1 *)
| NoFfmpeg                      (* error dialog; exit 1 *)
| Convert (files : list str) (fmt : str) (quality : json).

Definition main (U : unicode) (a : args) (ffmpeg_found : bool)
  (file : config_file) : outcome :=
  if arg_configure a then Configure
  else
    match arg_format a with
    | None => Usage
    | Some [] => Usage
    | Some f =>
        let fmt := lower U f in
        if negb (dict_mem FORMAT_DEFS fmt) then UnknownFormat fmt
        else
          match arg_files a with
          | [] => NoInputFiles
          | _ :: _ =>
              if negb ffmpeg_found then NoFfmpeg
              else
                let cfg := load_config file in
                match dict_get FORMAT_DEFS fmt with
                | None => UnknownFormat fmt
                | Some data =>
                    let default_q := first_option data in
                    let quality :=
                      match dict_get cfg fmt with
                      | Some q => q
                      | None => JStr default_q
                      end in
                    Convert (arg_files a) fmt quality
                end
          end
    end.

(* ------------------------------------------------------------------ *)
(** ** Sample tables *)

(** The digits "0" to "9". *)
Definition is_digit (c : N) : bool := (N.leb 48 c && N.leb c 57)%N.

(** The three tables restricted to ASCII. *)
Definition ascii_word (c : N) : bool :=
  (is_digit c || N.eqb c 95 || (N.leb 65 c && N.leb c 90)
   || (N.leb 97 c && N.leb c 122))%bool.

Definition ascii_tables : unicode :=
  mkUnicode is_digit ascii_word (map ascii_lower).

(** A service menu with one action, with DOS line ends. *)
Definition sample_desktop : str :=
  lit "[Desktop Entry]" ++ [13%N; 10%N] ++ lit "Name=Audio" ++ [13%N; 10%N]
  ++ lit "[Desktop Action convertToOgg]" ++ [13%N; 10%N] ++ lit "Name=Ogg".

Definition sample_desktop_patched : str :=
  lit "[Desktop Entry]" ++ [10%N] ++ lit "Name=Audio" ++ [10%N]
  ++ lit "[Desktop Action convertToOgg]" ++ [10%N]
  ++ lit "Name=Convert to OGG (Vorbis) (Q6)" ++ [10%N].

(* ------------------------------------------------------------------ *)
(** ** Counting the inputs of a batch (for the proofs) *)

(** The inputs among the first [n] that exist and were declined at the
    lossy warning. *)
Definition declined (env : nat -> task_env) (n : nat) : nat :=
  List.length
    (filter (fun j => input_exists (env j) && negb (lossy_accepted (env j)))
            (seq 0 n)).

(** An update that was answered "alive", or any other event but a kill. *)
Definition answered_alive (e : event) : Prop :=
  match e with
  | PbarSet _ _ _ a => a = true
  | Kill _ => False
  | _ => True
  end.

(* ------------------------------------------------------------------ *)
(** ** More readings of a trace (for the proofs) *)

(** The number of updates sent from the polling loops. *)
Fixpoint count_converting (tr : list event) : nat :=
  match tr with
  | [] => 0
  | PbarSet _ Converting _ _ :: tr' => S (count_converting tr')
  | _ :: tr' => count_converting tr'
  end.

(** The output path that an event names, with the index of its task. *)
Definition event_output (e : event) : option (nat * path) :=
  match e with
  | Spawn i o | UnlinkOutput i o => Some (i, o)
  | _ => None
  end.

(** What the events of the passes from [idx] on, over [files], say of
    output paths: each belongs to a task at or after [idx], whose input
    exists, and is the output chosen for the input of that task. *)
Definition outputs_of (env : nat -> task_env) (fmt : str) (idx : nat)
  (files : list str) (e : event) : Prop :=
  forall i o, event_output e = Some (i, o) ->
    (idx <= i)%nat /\
    exists filepath, nth_error files (i - idx) = Some filepath /\
      input_exists (env i) = true /\
      choose_output (Path filepath) fmt = Ok o.

(** No task has both its "Done" update and the removal of its output. *)
Definition kept_if_done (evs : list event) : Prop :=
  forall i o v a,
    In (UnlinkOutput i o) evs -> In (PbarSet i Finishing v a) evs -> False.

(* ------------------------------------------------------------------ *)
(** ** Code points (for the proofs) *)

(** A Unicode scalar value: a code point that is not a surrogate. *)
Definition scalar_value (c : N) : Prop :=
  (c < 1114112 /\ ~ (55296 <= c <= 57343))%N.

(* ------------------------------------------------------------------ *)
(** ** Well-formed arguments of the encoder (for the proofs) *)

(** A non-empty run of ASCII digits. *)
Definition all_digits (s : str) : bool :=
  negb (str_eqb s []) && forallb is_digit s.

(** A bit rate: digits followed by "k". *)
Definition is_bitrate (s : str) : bool :=
  match rev s with
  | k :: ds => N.eqb k 107 && all_digits (rev ds)
  | [] => false
  end.

(** A codec, alone or followed by a quality, a bit rate or a compression
    level with a value of the right shape. *)
Definition ffmpeg_args_ok (ffmpeg_args : list str) : bool :=
  match ffmpeg_args with
  | [c; codec] => str_eqb c (lit "-codec:a") && negb (str_eqb codec [])
  | [c; codec; flag; v] =>
      str_eqb c (lit "-codec:a") && negb (str_eqb codec [])
      && ((str_eqb flag (lit "-q:a") && all_digits v)
          || (str_eqb flag (lit "-b:a") && is_bitrate v)
          || (str_eqb flag (lit "-compression_level") && all_digits v))
  | _ => false
  end.

(** The codecs that [CODEC_CATEGORY] calls lossy, and the formats whose
    only option is "lossless". *)
Definition lossy_codecs : list str :=
  map lit ["mp3"; "vorbis"; "aac"; "opus"; "wmav1"; "wmav2"; "ac3"; "eac3";
           "mp2"; "amrnb"; "amrwb"; "wmavoice"]%string.

Definition lossless_formats : list str := [lit "flac"; lit "wav"; lit "alac"].

(* ------------------------------------------------------------------ *)
(** ** Lines (for the proofs) *)

(** A string that [splitlines] would leave in one piece. *)
Definition one_line (s : str) : Prop := existsb is_linebreak s = false.

(** What [update_desktop_names] may do to a line: nothing, or replace a
    line that starts with "Name=" by "Name=" and a value of the map. *)
Definition kept_or_renamed (name_map : dict str) (line line' : str) : Prop :=
  line' = line
  \/ (starts_with (lit "Name=") line = true /\
      exists action v, dict_get name_map action = Some v
                       /\ line' = lit "Name=" ++ v).

(** The text that line 168 builds for a format. *)
Definition action_name (render : json -> str) (data : format_def) (q : json)
  : str :=
  lit "Convert to " ++ label data
  ++ (if json_is q (lit "lossless") then []
      else lit " (" ++ format_value render q ++ lit ")").

(* ================================================================== *)
(** * Properties *)

(* ------------------------------------------------------------------ *)
(** ** Rounding: what [binary_round_aux] returns *)

Lemma pow2_pos e : (0 < pow2 e)%R.
Proof. unfold pow2. apply powerRZ_lt. lra. Qed.

Lemma pow2_add a b : pow2 (a + b) = (pow2 a * pow2 b)%R.
Proof. unfold pow2. apply powerRZ_add. lra. Qed.

Lemma pow2_IZR k : 0 <= k -> pow2 k = IZR (2 ^ k).
Proof.
  intros H. unfold pow2.
  rewrite <- (Z2Nat.id k) at 1 by exact H.
  rewrite <- pow_powerRZ.
  rewrite <- (Z2Nat.id k) at 2 by exact H.
  rewrite <- pow_IZR. reflexivity.
Qed.

Lemma pow2_le a b : a <= b -> (pow2 a <= pow2 b)%R.
Proof.
  intros H. replace b with (a + (b - a)) by lia.
  rewrite pow2_add. rewrite (pow2_IZR (b - a)) by lia.
  assert (1 <= 2 ^ (b - a)) by (pose proof (Z.pow_pos_nonneg 2 (b - a)); lia).
  apply IZR_le in H0. pose proof (pow2_pos a). nra.
Qed.

Lemma pow2_0 : pow2 0 = 1%R.
Proof. reflexivity. Qed.

Lemma digits2_pos_bounds p :
  2 ^ (Zpos (digits2_pos p) - 1) <= Zpos p < 2 ^ Zpos (digits2_pos p).
Proof.
  induction p as [p IH | p IH |]; simpl digits2_pos.
  - rewrite Pos2Z.inj_succ.
    replace (Z.succ (Zpos (digits2_pos p)) - 1) with (Z.succ (Zpos (digits2_pos p) - 1)) by lia.
    rewrite !Z.pow_succ_r by lia. lia.
  - rewrite Pos2Z.inj_succ.
    replace (Z.succ (Zpos (digits2_pos p)) - 1) with (Z.succ (Zpos (digits2_pos p) - 1)) by lia.
    rewrite !Z.pow_succ_r by lia. lia.
  - simpl. lia.
Qed.

Lemma Zdigits2_bounds m : 0 < m -> 2 ^ (Zdigits2 m - 1) <= m < 2 ^ Zdigits2 m.
Proof. destruct m; try lia. intros _. apply digits2_pos_bounds. Qed.

Lemma Zdigits2_nonneg m : 0 <= Zdigits2 m.
Proof. destruct m; simpl; lia. Qed.

Lemma Zdigits2_le m n : 0 <= n -> 0 <= m < 2 ^ n -> Zdigits2 m <= n.
Proof.
  intros Hn [H0 H]. destruct (Z.eq_dec m 0) as [->|Hm]; [simpl; lia|].
  assert (Hb := Zdigits2_bounds m ltac:(lia)).
  destruct (Z_le_gt_dec (Zdigits2 m) n) as [|Hgt]; [assumption|].
  assert (2 ^ n <= 2 ^ (Zdigits2 m - 1)) by (apply Z.pow_le_mono_r; lia).
  lia.
Qed.

Lemma Zdigits2_ge m n : 0 <= n -> 2 ^ n <= m -> n + 1 <= Zdigits2 m.
Proof.
  intros Hn H.
  assert (0 < m) by (pose proof (Z.pow_pos_nonneg 2 n); lia).
  assert (Hb := Zdigits2_bounds m ltac:(lia)).
  destruct (Z_le_gt_dec (n + 1) (Zdigits2 m)) as [|Hgt]; [assumption|].
  assert (2 ^ Zdigits2 m <= 2 ^ n) by (apply Z.pow_le_mono_r; lia).
  lia.
Qed.

Lemma shr_1_m mrs : 0 <= shr_m mrs -> shr_m (shr_1 mrs) = shr_m mrs / 2.
Proof.
  destruct mrs as [m r s]. cbn [shr_m]. intros H.
  destruct m as [|p|p]; try lia; try reflexivity.
  destruct p as [p|p|]; cbn [shr_1 shr_m].
  - apply Z.div_unique with 1; lia.
  - apply Z.div_unique with 0; lia.
  - reflexivity.
Qed.

Lemma iter_shr_1_m p : forall mrs, 0 <= shr_m mrs ->
  shr_m (SpecFloat.iter_pos shr_1 p mrs) = shr_m mrs / 2 ^ Zpos p.
Proof.
  induction p as [p IH | p IH |]; intros mrs H; simpl SpecFloat.iter_pos.
  - assert (H1 : 0 <= shr_m (shr_1 mrs)) by (rewrite shr_1_m by assumption; apply Z.div_pos; lia).
    assert (H2 : 0 <= shr_m (SpecFloat.iter_pos shr_1 p (shr_1 mrs))) by (rewrite IH by assumption; apply Z.div_pos; lia).
    rewrite IH by assumption. rewrite IH by assumption. rewrite shr_1_m by assumption.
    rewrite !Z.div_div by lia. f_equal.
    replace (Z.pos p~1) with (1 + Z.pos p + Z.pos p) by lia.
    rewrite !Z.pow_add_r by lia. change (2 ^ 1) with 2. ring.
  - assert (H2 : 0 <= shr_m (SpecFloat.iter_pos shr_1 p mrs)) by (rewrite IH by assumption; apply Z.div_pos; lia).
    rewrite IH by assumption. rewrite IH by assumption.
    rewrite !Z.div_div by lia. f_equal.
    replace (Z.pos p~0) with (Z.pos p + Z.pos p) by lia.
    rewrite !Z.pow_add_r by lia. change (2 ^ 1) with 2. ring.
  - rewrite shr_1_m by assumption. reflexivity.
Qed.

(** The two shifts of [shr]: mantissa and exponent. *)
Lemma shr_spec mrs e n : 0 <= shr_m mrs ->
  let '(mrs', e') := shr mrs e n in
  (n <= 0 -> mrs' = mrs /\ e' = e) /\
  (0 < n -> shr_m mrs' = shr_m mrs / 2 ^ n /\ e' = e + n).
Proof.
  intros H. destruct n as [|p|p]; simpl.
  - split; [auto | lia].
  - split; [lia|]. intros _. split; [apply iter_shr_1_m; assumption | reflexivity].
  - split; [auto | lia].
Qed.

Lemma shr_m_of_loc m l : shr_m (shr_record_of_loc m l) = m.
Proof. destruct l as [|[]]; reflexivity. Qed.

Lemma loc_of_shr_record_of_loc m l : loc_of_shr_record (shr_record_of_loc m l) = l.
Proof. destruct l as [|[]]; reflexivity. Qed.

Lemma round_nearest_even_bounds m l :
  m <= round_nearest_even m l <= m + 1.
Proof. destruct l as [|[]]; simpl; try lia. destruct (Z.even m); lia. Qed.

Lemma Zpow_plus1 n : 0 <= n -> 2 ^ (n + 1) = 2 * 2 ^ n.
Proof. intros H. rewrite Z.pow_add_r by lia. change (2 ^ 1) with 2. ring. Qed.

Lemma fexp_unfold x : fexp prec emax x = Z.max (x - 53) (-1074).
Proof. reflexivity. Qed.

Lemma shift_value m e n : 0 <= m -> 0 < n ->
  (IZR (m / 2 ^ n) * pow2 (e + n) <= IZR m * pow2 e
   < (IZR (m / 2 ^ n) + 1) * pow2 (e + n))%R.
Proof.
  intros Hm Hn.
  rewrite pow2_add, (pow2_IZR n) by lia.
  assert (Hp : 0 < 2 ^ n) by (apply Z.pow_pos_nonneg; lia).
  pose proof (Z.div_mod m (2 ^ n) ltac:(lia)) as Hdm.
  pose proof (Z.mod_pos_bound m (2 ^ n) Hp) as Hr.
  set (q := m / 2 ^ n) in *. set (r := m mod 2 ^ n) in *.
  assert (HmR : IZR m = (IZR (2 ^ n) * IZR q + IZR r)%R)
    by (rewrite Hdm at 1; rewrite plus_IZR, mult_IZR; reflexivity).
  assert (0 <= IZR r)%R by (apply IZR_le; lia).
  assert (IZR r < IZR (2 ^ n))%R by (apply IZR_lt; lia).
  pose proof (pow2_pos e). rewrite HmR. nra.
Qed.

Lemma div_pow2_lt m a b : 0 <= b -> 0 <= a -> 0 <= m < 2 ^ (a + b) -> m / 2 ^ b < 2 ^ a.
Proof.
  intros Hb Ha [H0 H]. apply Z.div_lt_upper_bound.
  - apply Z.pow_pos_nonneg; lia.
  - rewrite <- Z.pow_add_r by lia. replace (b + a) with (a + b) by lia. exact H.
Qed.

Lemma Zdigits2_lt_pow m : 0 <= m -> m < 2 ^ Zdigits2 m.
Proof.
  intros H. destruct (Z.eq_dec m 0) as [->|]; [simpl; lia|].
  apply Zdigits2_bounds. lia.
Qed.

Lemma round_aux_spec mx ex lx : 0 <= mx ->
  exists m2 e2,
    binary_round_aux prec emax false mx ex lx = round_result m2 e2 /\
    0 <= m2 < 2 ^ 53 /\
    e2 <= Z.max ex (fexp prec emax (Zdigits2 mx + ex + 1)) /\
    (IZR mx * pow2 ex - 2 * pow2 e2 <= IZR m2 * pow2 e2
       <= IZR mx * pow2 ex + 2 * pow2 e2)%R /\
    (lx = loc_Exact -> fexp prec emax (Zdigits2 mx + ex) <= ex ->
       m2 = mx /\ e2 = ex).
Proof.
  intros Hmx. unfold binary_round_aux, shr_fexp.
  set (d := Zdigits2 mx).
  set (n1 := fexp prec emax (d + ex) - ex).
  pose proof (shr_spec (shr_record_of_loc mx lx) ex n1) as S1.
  rewrite shr_m_of_loc in S1. specialize (S1 Hmx).
  destruct (shr (shr_record_of_loc mx lx) ex n1) as [mrs' e'].
  destruct S1 as [S1a S1b].
  set (a := shr_m mrs') in *.
  pose proof (round_nearest_even_bounds a (loc_of_shr_record mrs')) as Hm1.
  set (m1 := round_nearest_even a (loc_of_shr_record mrs')) in *.
  assert (Hd : 0 <= d) by apply Zdigits2_nonneg.
  assert (Hdlt : mx < 2 ^ d) by (apply Zdigits2_lt_pow; assumption).
  (* stage one, integers *)
  assert (Ha0 : 0 <= a).
  { destruct (Z_le_gt_dec n1 0) as [Hn|Hn].
    - destruct (S1a Hn) as [-> _]. unfold a. rewrite shr_m_of_loc. assumption.
    - destruct (S1b ltac:(lia)) as [E _]. rewrite E. apply Z.div_pos; [lia|].
      apply Z.pow_pos_nonneg; lia. }
  assert (He' : e' <= Z.max ex (fexp prec emax (d + ex)) /\ ex <= e').
  { destruct (Z_le_gt_dec n1 0) as [Hn|Hn].
    - destruct (S1a Hn) as [_ ->]. lia.
    - destruct (S1b ltac:(lia)) as [_ ->]. unfold n1. lia. }
  set (d1 := Zdigits2 m1).
  assert (Hd1 : 0 <= d1) by apply Zdigits2_nonneg.
  assert (Hd1b : fexp prec emax (d1 + e') <= Z.max ex (fexp prec emax (d + ex + 1))).
  { destruct (Z_le_gt_dec n1 0) as [Hn|Hn].
    - destruct (S1a Hn) as [E1 E2]. subst e'.
      assert (a = mx) by (unfold a; rewrite E1; apply shr_m_of_loc).
      assert (d1 <= d + 1) by (apply Zdigits2_le; [lia|]; rewrite Zpow_plus1 by lia; lia).
      rewrite !fexp_unfold. lia.
    - destruct (S1b ltac:(lia)) as [E1 E2]. subst e'.
      destruct (Z_le_gt_dec n1 d) as [Hnd|Hnd].
      + assert (a < 2 ^ (d - n1)) by (rewrite E1; apply div_pow2_lt; try lia;
          replace (d - n1 + n1) with d by lia; lia).
        assert (d1 <= d - n1 + 1) by (apply Zdigits2_le; [lia|]; rewrite Zpow_plus1 by lia; lia).
        unfold n1 in *. rewrite !fexp_unfold in *. lia.
      + assert (a = 0).
        { rewrite E1. apply Z.div_small. split; [assumption|].
          assert (2 ^ d <= 2 ^ n1) by (apply Z.pow_le_mono_r; lia). lia. }
        assert (d1 <= 1) by (apply Zdigits2_le; [lia|]; simpl; lia).
        unfold n1 in *. rewrite !fexp_unfold in *. lia. }
  (* stage two *)
  set (n2 := fexp prec emax (d1 + e') - e').
  assert (Hm10 : 0 <= m1) by lia.
  pose proof (shr_spec (shr_record_of_loc m1 loc_Exact) e' n2) as S2.
  rewrite shr_m_of_loc in S2. specialize (S2 Hm10).
  destruct (shr (shr_record_of_loc m1 loc_Exact) e' n2) as [mrs'' e''].
  destruct S2 as [S2a S2b].
  exists (shr_m mrs''), e''.
  assert (Hm1lt : m1 < 2 ^ d1) by (apply Zdigits2_lt_pow; assumption).
  split; [reflexivity|].
  assert (Hstage2 :
    (n2 <= 0 /\ shr_m mrs'' = m1 /\ e'' = e') \/
    (0 < n2 /\ shr_m mrs'' = m1 / 2 ^ n2 /\ e'' = e' + n2)).
  { destruct (Z_le_gt_dec n2 0) as [Hn|Hn].
    - left. destruct (S2a Hn) as [-> ->]. rewrite shr_m_of_loc. auto.
    - right. destruct (S2b ltac:(lia)) as [-> ->]. split; [lia|auto]. }
  assert (Hstage1 :
    (n1 <= 0 /\ a = mx /\ e' = ex /\ loc_of_shr_record mrs' = lx) \/
    (0 < n1 /\ a = mx / 2 ^ n1 /\ e' = ex + n1)).
  { destruct (Z_le_gt_dec n1 0) as [Hn|Hn].
    - left. destruct (S1a Hn) as [E1 E2]. unfold a. rewrite E1.
      rewrite shr_m_of_loc, loc_of_shr_record_of_loc. auto.
    - right. destruct (S1b ltac:(lia)) as [E1 E2]. split; [lia|auto]. }
  clear S1a S1b S2a S2b.
  split.
  { destruct Hstage2 as [(Hn & -> & ->) | (Hn & -> & ->)].
    - split; [assumption|].
      assert (d1 <= 53) by (unfold n2 in Hn; rewrite fexp_unfold in Hn; lia).
      assert (2 ^ d1 <= 2 ^ 53) by (apply Z.pow_le_mono_r; lia). lia.
    - split; [apply Z.div_pos; [lia | apply Z.pow_pos_nonneg; lia]|].
      apply div_pow2_lt; try lia.
      assert (d1 <= 53 + n2) by (unfold n2; rewrite fexp_unfold; lia).
      assert (2 ^ d1 <= 2 ^ (53 + n2)) by (apply Z.pow_le_mono_r; lia). lia. }
  split.
  { destruct Hstage2 as [(Hn & _ & ->) | (Hn & _ & ->)].
    - rewrite fexp_unfold in *. lia.
    - unfold n2. replace (e' + (fexp prec emax (d1 + e') - e')) with (fexp prec emax (d1 + e')) by lia.
      exact Hd1b. }
  split.
  { assert (HA : (IZR a * pow2 e' <= IZR mx * pow2 ex < (IZR a + 1) * pow2 e')%R).
    { destruct Hstage1 as [(Hn & -> & -> & _) | (Hn & -> & ->)].
      - pose proof (pow2_pos ex). nra.
      - apply shift_value; lia. }
    assert (HM1 : (IZR a <= IZR m1 <= IZR a + 1)%R).
    { split; [apply IZR_le; lia|]. rewrite <- plus_IZR. apply IZR_le; lia. }
    assert (HV : (IZR (shr_m mrs'') * pow2 e'' <= IZR m1 * pow2 e'
                  < (IZR (shr_m mrs'') + 1) * pow2 e'')%R).
    { destruct Hstage2 as [(Hn & -> & ->) | (Hn & -> & ->)].
      - pose proof (pow2_pos e'). nra.
      - apply shift_value; lia. }
    assert (Hee : (pow2 e' <= pow2 e'')%R).
    { apply pow2_le. destruct Hstage2 as [(Hn & _ & ->) | (Hn & _ & ->)]; lia. }
    pose proof (pow2_pos e'). pose proof (pow2_pos e'').
    split; nra. }
  intros -> Hex.
  destruct Hstage1 as [(Hn & Ea & Ee & El) | (Hn & _)]; [|unfold n1 in Hn; lia].
  assert (Em1 : m1 = mx) by (unfold m1; rewrite El, Ea; reflexivity).
  destruct Hstage2 as [(Hn2 & -> & ->) | (Hn2 & _)]; [auto|].
  exfalso. unfold n2, d1 in Hn2. rewrite Em1, Ee in Hn2. fold d in Hn2. lia.
Qed.

Lemma round_result_shape m2 e2 : 0 <= m2 < 2 ^ 53 -> nonneg_shape (round_result m2 e2).
Proof.
  intros [H0 H]. destruct m2 as [|p|p]; unfold round_result; try lia.
  - exact I.
  - destruct (e2 <=? emax - prec); [exact H | exact I].
Qed.

Lemma round_result_finite m2 e2 : 0 <= m2 < 2 ^ 53 -> e2 <= 971 ->
  nonneg_finite (round_result m2 e2) /\ F2R (round_result m2 e2) = (IZR m2 * pow2 e2)%R.
Proof.
  intros [H0 H] He. destruct m2 as [|p|p]; unfold round_result; try lia.
  - split; [exact I | simpl; lra].
  - replace (e2 <=? emax - prec) with true by (symmetry; apply Z.leb_le; unfold emax, prec; lia).
    split; [exact H | unfold F2R; lra].
Qed.

Lemma int_of_float_floor x : nonneg_finite x ->
  exists z, int_of_float x = Ok z /\ (IZR z <= F2R x < IZR z + 1)%R.
Proof.
  destruct x as [[|]|[|]| |[|] m e]; simpl; try contradiction.
  - intros _. exists 0. split; [reflexivity | lra].
  - intros _. destruct e as [|p|p].
    + exists (Zpos m). split; [reflexivity|]. rewrite pow2_0. lra.
    + exists (Z.shiftl (Zpos m) (Zpos p)). split; [reflexivity|].
      rewrite Z.shiftl_mul_pow2 by lia. rewrite mult_IZR, <- pow2_IZR by lia.
      pose proof (pow2_pos (Zpos p)). nra.
    + exists (Z.shiftr (Zpos m) (Zpos p)). split; [reflexivity|].
      rewrite Z.shiftr_div_pow2 by lia.
      pose proof (shift_value (Zpos m) (Zneg p) (Zpos p) ltac:(lia) ltac:(lia)) as H.
      replace (Z.neg p + Z.pos p) with 0 in H by lia. rewrite pow2_0 in H. lra.
Qed.

Lemma pos_iter_xO p k : Zpos (Pos.iter xO p k) = Zpos p * 2 ^ Zpos k.
Proof.
  induction k as [|k IH] using Pos.peano_ind.
  - simpl. lia.
  - rewrite Pos.iter_succ. rewrite Pos2Z.inj_xO, IH.
    rewrite Pos2Z.inj_succ, Z.pow_succ_r by lia. ring.
Qed.

Lemma shl_align_spec mx ex ex' :
  let '(m, e) := shl_align mx ex ex' in
  (ex' < ex -> Zpos m = Zpos mx * 2 ^ (ex - ex') /\ e = ex') /\
  (ex <= ex' -> m = mx /\ e = ex).
Proof.
  unfold shl_align. destruct (ex' - ex) as [|d|d] eqn:E.
  - split; [lia | auto].
  - split; [lia | auto].
  - split; [|lia]. intros _. split; [|reflexivity].
    rewrite pos_iter_xO. f_equal. f_equal. lia.
Qed.

(** [float(n)] for a positive integer below 2^53 is exact, with a full
    mantissa. *)
Lemma fconst_small n : 0 < n < 2 ^ 53 ->
  exists m e, fconst n = S754_finite false m e /\
    Zdigits2 (Zpos m) = 53 /\ -52 <= e <= 0 /\ Zpos m = n * 2 ^ (- e).
Proof.
  intros [H0 H]. destruct n as [|p|p]; try lia.
  unfold fconst, binary_normalize, binary_round.
  set (d := Zpos (digits2_pos p)).
  assert (Hb : 2 ^ (d - 1) <= Zpos p < 2 ^ d) by apply digits2_pos_bounds.
  assert (Hd : 1 <= d <= 53).
  { split; [unfold d; lia|]. apply (Zdigits2_le (Zpos p) 53); lia. }
  replace (fexp prec emax (d + 0)) with (d - 53) by (rewrite fexp_unfold; lia).
  pose proof (shl_align_spec p 0 (d - 53)) as S.
  destruct (shl_align p 0 (d - 53)) as [mz ez]. destruct S as [Sa Sb].
  assert (Hm : Zpos mz = Zpos p * 2 ^ (- ez) /\ ez = d - 53).
  { destruct (Z_lt_le_dec (d - 53) 0) as [Hlt|Hge].
    - destruct (Sa Hlt) as [E1 E2]. subst ez. split; [|reflexivity].
      rewrite E1. replace (0 - (d - 53)) with (- (d - 53)) by lia. reflexivity.
    - destruct (Sb Hge) as [E1 E2]. subst. split; [|lia]. simpl. lia. }
  destruct Hm as [Hm He].
  assert (Hdig : Zdigits2 (Zpos mz) = 53).
  { assert (2 ^ 52 <= Zpos mz < 2 ^ 53).
    { rewrite Hm, He. replace (- (d - 53)) with (53 - d) by lia.
      split.
      - replace 52 with ((d - 1) + (53 - d)) by lia. rewrite Z.pow_add_r by lia.
        apply Z.mul_le_mono_nonneg_r; [apply Z.pow_nonneg; lia | lia].
      - replace 53 with (d + (53 - d)) at 2 by lia. rewrite Z.pow_add_r by lia.
        apply Z.mul_lt_mono_pos_r; [apply Z.pow_pos_nonneg; lia | lia]. }
    apply Z.le_antisymm.
    - apply Zdigits2_le; lia.
    - apply (Zdigits2_ge (Zpos mz) 52); lia. }
  destruct (round_aux_spec (Zpos mz) ez loc_Exact ltac:(lia)) as (m2 & e2 & E & _ & _ & _ & Hex).
  assert (Hc : fexp prec emax (Zdigits2 (Zpos mz) + ez) <= ez)
    by (rewrite Hdig, fexp_unfold; lia).
  destruct (Hex eq_refl Hc) as [-> ->].
  rewrite E. unfold round_result.
  replace (ez <=? emax - prec) with true by (symmetry; apply Z.leb_le; unfold emax, prec; lia).
  exists mz, ez. split; [reflexivity|]. split; [assumption|]. split; [lia|]. exact Hm.
Qed.

Lemma fconst_nonneg_shape n : 0 <= n -> nonneg_shape (fconst n).
Proof.
  intros H. destruct n as [|p|p]; try lia; [exact I|].
  unfold fconst, binary_normalize, binary_round.
  destruct (shl_align p 0 _) as [mz ez].
  destruct (round_aux_spec (Zpos mz) ez loc_Exact ltac:(lia)) as (m2 & e2 & E & Hm & _).
  rewrite E. apply round_result_shape. assumption.
Qed.

Lemma pow2_S e : pow2 (e + 1) = (2 * pow2 e)%R.
Proof. rewrite pow2_add. change (pow2 1) with (2 * 1)%R. lra. Qed.

Lemma pow2_plus_nat e k : 0 <= k -> pow2 (e + k) = (IZR (2 ^ k) * pow2 e)%R.
Proof. intros H. rewrite pow2_add, (pow2_IZR k) by lia. lra. Qed.

Lemma digits_of_bound m e k : 0 < m -> (IZR m * pow2 e < pow2 k)%R ->
  Zdigits2 m + e <= k.
Proof.
  intros Hm H.
  destruct (Z_le_gt_dec (Zdigits2 m + e) k) as [|Hgt]; [assumption|exfalso].
  pose proof (Zdigits2_bounds m Hm) as [Hlo _].
  assert (Hd : 1 <= Zdigits2 m) by (destruct m; simpl; lia).
  apply IZR_le in Hlo. rewrite <- pow2_IZR in Hlo by lia.
  assert (pow2 k <= pow2 (Zdigits2 m - 1 + e))%R by (apply pow2_le; lia).
  rewrite pow2_add in H0. pose proof (pow2_pos e). nra.
Qed.

Lemma SFdiv_core_full ma ea mb eb :
  Zdigits2 (Zpos ma) = 53 -> Zdigits2 (Zpos mb) = 53 ->
  -60 <= ea <= 60 -> -60 <= eb <= 60 ->
  SFdiv_core_binary prec emax (Zpos ma) ea (Zpos mb) eb =
    ((Zpos ma * 2 ^ 53) / Zpos mb, ea - eb - 53,
     new_location (Zpos mb) ((Zpos ma * 2 ^ 53) mod Zpos mb)).
Proof.
  intros Ha Hb Hea Heb. unfold SFdiv_core_binary.
  rewrite Ha, Hb.
  replace (Z.min (fexp prec emax (53 + ea - (53 + eb))) (ea - eb)) with (ea - eb - 53)
    by (rewrite fexp_unfold; lia).
  replace (ea - eb - (ea - eb - 53)) with 53 by lia.
  cbv beta iota zeta.
  rewrite Z.shiftl_mul_pow2 by lia.
  unfold Z.div, Z.modulo.
  destruct (Z.div_eucl (Zpos ma * 2 ^ 53) (Zpos mb)) as [q r]. reflexivity.
Qed.

(** The quotient of two small positive integers, [a <= b]: finite, at
    most one unit in the 49th binary place away from [a / b]. *)
Lemma int_truediv_bound a b : 0 < a -> a <= b -> b < 2 ^ 53 ->
  exists m e, int_truediv a b = Ok (round_result m e) /\
    0 <= m < 2 ^ 53 /\ e <= -51 /\
    ((IZR m * pow2 e - eps_div) * IZR b <= IZR a
       <= (IZR m * pow2 e + eps_div) * IZR b)%R.
Proof.
  intros Ha Hab Hb.
  destruct (fconst_small a ltac:(lia)) as (ma & ea & Efa & Hda & Hea & Hma).
  destruct (fconst_small b ltac:(lia)) as (mb & eb & Efb & Hdb & Heb & Hmb).
  unfold int_truediv.
  replace (b =? 0) with false by (symmetry; apply Z.eqb_neq; lia).
  unfold float_of_int. fold (fconst a) (fconst b). rewrite Efa, Efb.
  cbn [bind]. unfold fdiv, SFdiv.
  rewrite SFdiv_core_full by (assumption || lia).
  set (q := Zpos ma * 2 ^ 53 / Zpos mb).
  set (e' := ea - eb - 53).
  pose proof (Zdigits2_bounds (Zpos ma) ltac:(lia)) as Bma. rewrite Hda in Bma.
  pose proof (Zdigits2_bounds (Zpos mb) ltac:(lia)) as Bmb. rewrite Hdb in Bmb.
  change (2 ^ (53 - 1)) with (2 ^ 52) in Bma, Bmb.
  assert (Hq : 2 ^ 52 <= q < 2 ^ 54).
  { unfold q. split.
    - apply Z.div_le_lower_bound; lia.
    - apply Z.div_lt_upper_bound; lia. }
  assert (Hee : ea <= eb).
  { destruct (Z_le_gt_dec ea eb) as [|Hgt]; [assumption|exfalso].
    assert (2 * 2 ^ (- ea) <= 2 ^ (- eb)).
    { replace (- eb) with (1 + (- ea) + (ea - eb - 1)) by lia.
      rewrite !Z.pow_add_r by lia. change (2 ^ 1) with 2.
      assert (0 < 2 ^ (- ea)) by (apply Z.pow_pos_nonneg; lia).
      assert (0 < 2 ^ (ea - eb - 1)) by (apply Z.pow_pos_nonneg; lia).
      nia. }
    assert (0 < 2 ^ (- ea)) by (apply Z.pow_pos_nonneg; lia).
    nia. }
  destruct (round_aux_spec q e' (new_location (Zpos mb) ((Zpos ma * 2 ^ 53) mod Zpos mb))
              ltac:(lia)) as (m2 & e2 & E & Hm2 & He2 & HV & _).
  cbn [xorb]. rewrite E. exists m2, e2.
  assert (Hdq : Zdigits2 q <= 54) by (apply Zdigits2_le; lia).
  assert (He2' : e2 <= e' + 2) by (rewrite fexp_unfold in He2; unfold e' in *; lia).
  split; [reflexivity|]. split; [assumption|]. split; [unfold e' in *; lia|].
  (* the reals *)
  pose proof (Z.div_mod (Zpos ma * 2 ^ 53) (Zpos mb) ltac:(lia)) as Hdm.
  pose proof (Z.mod_pos_bound (Zpos ma * 2 ^ 53) (Zpos mb) ltac:(lia)) as Hr.
  fold q in Hdm.
  set (r := (Zpos ma * 2 ^ 53) mod Zpos mb) in *.
  assert (HqR : (IZR q * IZR (Zpos mb) <= IZR (Zpos ma) * IZR (2 ^ 53)
                 < (IZR q + 1) * IZR (Zpos mb))%R).
  { rewrite <- !mult_IZR, <- plus_IZR, <- mult_IZR. split; [apply IZR_le | apply IZR_lt]; lia. }
  assert (HaR : IZR a = (IZR (Zpos ma) * pow2 ea)%R).
  { rewrite Hma, mult_IZR, <- pow2_IZR by lia.
    rewrite Rmult_assoc, <- pow2_add. replace (- ea + ea) with 0 by lia.
    rewrite pow2_0. lra. }
  assert (HbR : IZR b = (IZR (Zpos mb) * pow2 eb)%R).
  { rewrite Hmb, mult_IZR, <- pow2_IZR by lia.
    rewrite Rmult_assoc, <- pow2_add. replace (- eb + eb) with 0 by lia.
    rewrite pow2_0. lra. }
  assert (HP : (pow2 e' * pow2 eb * IZR (2 ^ 53) = pow2 ea)%R).
  { rewrite <- pow2_IZR, <- !pow2_add by lia. f_equal. unfold e'. lia. }
  assert (Hc : (pow2 e' <= pow2 (-53))%R) by (apply pow2_le; unfold e'; lia).
  assert (Hp2 : (pow2 e2 <= 4 * pow2 e')%R).
  { replace (4 * pow2 e')%R with (pow2 (e' + 2)).
    - apply pow2_le; lia.
    - rewrite pow2_plus_nat by lia. reflexivity. }
  assert (He : eps_div = (16 * pow2 (-53))%R).
  { unfold eps_div. replace (-49) with (-53 + 4) by lia.
    rewrite pow2_plus_nat by lia. reflexivity. }
  pose proof (pow2_pos e') as P1. pose proof (pow2_pos eb) as P2.
  pose proof (pow2_pos e2) as P3. pose proof (pow2_pos (-53)) as P4.
  assert (Pmb : (0 < IZR (Zpos mb))%R) by (apply IZR_lt; lia).
  assert (Pb : (0 < IZR b)%R) by (apply IZR_lt; lia).
  assert (Pt : (0 < pow2 e' * pow2 eb)%R) by (apply Rmult_lt_0_compat; assumption).
  set (V := (IZR m2 * pow2 e2)%R) in *.
  set (Q := IZR q) in *. set (A := IZR (Zpos ma)) in *. set (B := IZR (Zpos mb)) in *.
  set (K := IZR (2 ^ 53)) in *.
  assert (Ha2 : IZR a = (A * K * (pow2 e' * pow2 eb))%R) by (rewrite HaR, <- HP; ring).
  assert (Hlow : (Q * pow2 e' * IZR b <= IZR a)%R).
  { rewrite Ha2, HbR. replace (Q * pow2 e' * (B * pow2 eb))%R with (Q * B * (pow2 e' * pow2 eb))%R by ring.
    apply Rmult_le_compat_r; lra. }
  assert (Hup : (IZR a <= (Q + 1) * pow2 e' * IZR b)%R).
  { rewrite Ha2, HbR. replace ((Q + 1) * pow2 e' * (B * pow2 eb))%R with ((Q + 1) * B * (pow2 e' * pow2 eb))%R by ring.
    apply Rmult_le_compat_r; lra. }
  split.
  - apply Rle_trans with (Q * pow2 e' * IZR b)%R; [|assumption].
    apply Rmult_le_compat_r; lra.
  - apply Rle_trans with ((Q + 1) * pow2 e' * IZR b)%R; [assumption|].
    apply Rmult_le_compat_r; lra.
Qed.

Lemma eps_mul_eq : eps_mul = (2 * pow2 (-45))%R.
Proof.
  unfold eps_mul. replace (-44) with (-45 + 1) by lia. apply pow2_S.
Qed.

(** A product with a small integer: finite, at most one unit in the 44th
    binary place away from the exact product. *)
Lemma fmul_bound f wz : nonneg_finite f -> exp_le (-50) f -> 0 <= wz <= 100 ->
  (F2R f * IZR wz < pow2 7)%R ->
  exists m e, fmul f (fconst wz) = round_result m e /\
    0 <= m < 2 ^ 53 /\ e <= -45 /\
    (F2R f * IZR wz - eps_mul <= IZR m * pow2 e <= F2R f * IZR wz + eps_mul)%R.
Proof.
  intros Hf He Hw Hlt.
  pose proof (pow2_pos (-45)) as P45. pose proof eps_mul_eq as Heps.
  assert (Zero : forall v : R, v = 0%R ->
    exists m e, S754_zero false = round_result m e /\ 0 <= m < 2 ^ 53 /\ e <= -45 /\
      (v - eps_mul <= IZR m * pow2 e <= v + eps_mul)%R).
  { intros v ->. exists 0, (-45). split; [reflexivity|]. split; [lia|]. split; [lia|]. lra. }
  destruct (Z.eq_dec wz 0) as [->|Hnz].
  - change (fconst 0) with (S754_zero false).
    destruct f as [[|]|[|]| |[|] mf ef]; try contradiction; apply Zero; simpl; lra.
  - destruct (fconst_small wz ltac:(lia)) as (mw & ew & Ew & Hdw & Hew & Hmw).
    rewrite Ew.
    destruct f as [[|]|[|]| |[|] mf ef]; try contradiction.
    + apply Zero. simpl. lra.
    + cbn [nonneg_finite exp_le F2R] in *.
      unfold fmul, SFmul. cbn [xorb].
      destruct (round_aux_spec (Zpos (mf * mw)) (ef + ew) loc_Exact ltac:(lia))
        as (m2 & e2 & E & Hm2 & He2 & HV & _).
      rewrite E. exists m2, e2.
      assert (HX : (IZR (Zpos (mf * mw)) * pow2 (ef + ew) = 1 * IZR (Zpos mf) * pow2 ef * IZR wz)%R).
      { rewrite Pos2Z.inj_mul, mult_IZR, pow2_add.
        assert (IZR wz = IZR (Zpos mw) * pow2 ew)%R.
        { rewrite Hmw, mult_IZR, <- pow2_IZR by lia.
          rewrite Rmult_assoc, <- pow2_add. replace (- ew + ew) with 0 by lia.
          rewrite pow2_0. lra. }
        rewrite H. ring. }
      rewrite HX in HV.
      assert (Hdg : Zdigits2 (Zpos (mf * mw)) + (ef + ew) <= 7).
      { apply digits_of_bound; [lia|]. rewrite HX. exact Hlt. }
      assert (He2' : e2 <= -45) by (rewrite fexp_unfold in He2; lia).
      assert (pow2 e2 <= pow2 (-45))%R by (apply pow2_le; lia).
      split; [reflexivity|]. split; [assumption|]. split; [assumption|]. lra.
Qed.

Lemma fltb_finite m e m' e' :
  fltb (S754_finite false m e) (S754_finite false m' e') = true ->
  e < e' \/ (e = e' /\ Zpos m < Zpos m').
Proof.
  unfold fltb, SFltb, SFcompare.
  destruct (Z.compare_spec e e') as [He|He|He]; try discriminate.
  - change (Pos.compare_cont Eq m m') with (Pos.compare m m').
    destruct (Pos.compare_spec m m') as [Hc|Hc|Hc]; try discriminate.
    intros _. right. split; [assumption | lia].
  - intros _. left. assumption.
Qed.

Lemma fconst_1 : fconst 1 = S754_finite false (2 ^ 52) (-52).
Proof. reflexivity. Qed.

Lemma pow2_cancel k : 0 <= k -> (IZR (2 ^ k) * pow2 (- k) = 1)%R.
Proof.
  intros H. rewrite <- pow2_IZR, <- pow2_add by lia.
  replace (k + - k) with 0 by lia. apply pow2_0.
Qed.

(** [min(1.0, x)] of a non-negative quotient is a finite value in [0, 1]. *)
Lemma fmin_one_props x : nonneg_shape x \/ x = S754_nan ->
  nonneg_finite (fmin_one x) /\ exp_le (-52) (fmin_one x) /\
  (0 <= F2R (fmin_one x) <= 1)%R.
Proof.
  assert (One : nonneg_finite (fconst 1) /\ exp_le (-52) (fconst 1) /\
                (0 <= F2R (fconst 1) <= 1)%R).
  { rewrite fconst_1. cbn [nonneg_finite exp_le F2R].
    split; [rewrite Pos2Z.inj_pow; apply Z.pow_lt_mono_r; lia|]. split; [lia|].
    rewrite Pos2Z.inj_pow. pose proof (pow2_cancel 52 ltac:(lia)) as Hc.
    cbn [Z.opp] in Hc. 
    rewrite Rmult_1_l, Hc. lra. }
  intros [Hx | ->]; [|exact One].
  unfold fmin_one.
  destruct (fltb x (fconst 1)) eqn:Hlt; [|exact One].
  destruct x as [[|]|[|]| |[|] m e]; try contradiction; try discriminate.
  - cbn [nonneg_finite exp_le F2R]. split; [exact I|]. split; [exact I|]. lra.
  - cbn [nonneg_shape nonneg_finite exp_le F2R] in *.
    rewrite fconst_1 in Hlt. apply fltb_finite in Hlt.
    rewrite Pos2Z.inj_pow in Hlt.
    split; [assumption|]. split; [lia|].
    assert (0 < IZR (Zpos m))%R by (apply IZR_lt; lia).
    pose proof (pow2_pos e).
    split; [nra|].
    rewrite Rmult_1_l.
    destruct Hlt as [He | [-> Hm]].
    + assert (pow2 e <= pow2 (-53))%R by (apply pow2_le; lia).
      assert (IZR (Zpos m) <= IZR (2 ^ 53))%R by (apply IZR_le; lia).
      pose proof (pow2_cancel 53 ltac:(lia)) as Hc. cbn [Z.opp] in Hc.
      set (K := IZR (2 ^ 53)) in *. pose proof (pow2_pos (-53)).
      apply Rle_trans with (K * pow2 (-53))%R; [|lra].
      apply Rmult_le_compat; lra.
    + assert (IZR (Zpos m) <= IZR (2 ^ 52))%R by (apply IZR_le; lia).
      pose proof (pow2_cancel 52 ltac:(lia)) as Hc. cbn [Z.opp] in Hc.
      set (K := IZR (2 ^ 52)) in *. pose proof (pow2_pos (-52)).
      rewrite <- Hc. apply Rmult_le_compat_r; lra.
Qed.

(* ------------------------------------------------------------------ *)
(** ** The bounds of the slices *)

Lemma nonneg_shape_sign x : nonneg_shape x -> sign_false x.
Proof. destruct x as [[|]|[|]| |[|] m e]; simpl; auto. Qed.

Lemma fdiv_sign_false x y : sign_false x -> sign_false y ->
  fdiv x y = S754_nan \/ nonneg_shape (fdiv x y).
Proof.
  destruct x as [[|]|[|]| |[|] mx ex]; simpl; try contradiction;
  destruct y as [[|]|[|]| |[|] my ey]; simpl; try contradiction; intros Hx Hy;
  auto.
  right. unfold fdiv, SFdiv.
  destruct (SFdiv_core_binary prec emax (Zpos mx) ex (Zpos my) ey) as [[q e'] l] eqn:E.
  assert (0 <= q).
  { unfold SFdiv_core_binary in E.
    destruct (Z.div_eucl _ (Zpos my)) as [q' r'] eqn:Ed in E.
    inversion E; subst.
    match type of Ed with Z.div_eucl ?a ?b = _ =>
      assert (q = a / b) by (unfold Z.div; rewrite Ed; reflexivity);
      assert (0 <= a) end.
    { destruct (ex - ey - _); try lia. apply Z.shiftl_nonneg. lia. }
    subst q. apply Z.div_pos; lia. }
  simpl xorb.
  destruct (round_aux_spec q e' l ltac:(assumption)) as (m2 & e2 & E2 & Hm & _).
  rewrite E2. apply round_result_shape. assumption.
Qed.

Lemma float_of_int_small n : 0 < n < 2 ^ 53 -> float_of_int n = Ok (fconst n).
Proof.
  intros H. destruct (fconst_small n H) as (m & e & E & _).
  unfold float_of_int. fold (fconst n). rewrite E. reflexivity.
Qed.

Lemma float_of_int_fconst n x : float_of_int n = Ok x -> x = fconst n.
Proof.
  unfold float_of_int. fold (fconst n).
  destruct (fconst n); intros H; inversion H; reflexivity.
Qed.

Lemma exp_le_weaken a b x : a <= b -> exp_le a x -> exp_le b x.
Proof. destruct x; simpl; auto. intros. lia. Qed.

Lemma round_result_exp m e k : 0 <= m -> e <= k -> exp_le k (round_result m e).
Proof.
  intros Hm He. destruct m as [|p|p]; unfold round_result; try lia.
  - exact I.
  - destruct (e <=? emax - prec); [exact He | exact I].
Qed.

Lemma eps_sum : (100 * eps_div + eps_mul <= eps_slice)%R.
Proof.
  unfold eps_div, eps_mul, eps_slice.
  replace (-41) with (-49 + 8) by lia. replace (-44) with (-49 + 5) by lia.
  rewrite !pow2_plus_nat by lia.
  change (IZR (2 ^ 8)) with 256%R. change (IZR (2 ^ 5)) with 32%R.
  pose proof (pow2_pos (-49)). lra.
Qed.

Lemma eps_div_small : (eps_div <= 1 / 4)%R.
Proof.
  unfold eps_div.
  assert (pow2 (-49) <= pow2 (-2))%R by (apply pow2_le; lia).
  assert (IZR (2 ^ 2) * pow2 (- (2)) = 1)%R by (apply pow2_cancel; lia).
  cbn [Z.opp] in H0. change (IZR (2 ^ 2)) with 4%R in H0. lra.
Qed.

(** The bound of a slice: a result, the floor of a real [p] that is within
    2^-41 of [100 * k / total]. *)
Lemma slice_bound_spec k total : 0 < k -> k <= total -> total < 2 ^ 53 ->
  exists z p, slice_bound k total = Ok z /\
    (0 <= p)%R /\ (IZR z <= p < IZR z + 1)%R /\
    ((p - eps_slice) * IZR total <= 100 * IZR k
       <= (p + eps_slice) * IZR total)%R.
Proof.
  intros Hk Hkt Ht.
  destruct (int_truediv_bound k total Hk Hkt Ht) as (m & e & Eq & Hm & He & HV).
  unfold slice_bound. rewrite Eq. cbn [bind].
  destruct (round_result_finite m e Hm ltac:(lia)) as [Hfin HF].
  set (q := round_result m e) in *.
  assert (Pt : (0 < IZR total)%R) by (apply IZR_lt; lia).
  assert (Hkt' : (IZR k <= IZR total)%R) by (apply IZR_le; lia).
  pose proof eps_div_small as He4.
  assert (HV1 : (F2R q <= 1 + eps_div)%R).
  { rewrite HF. destruct HV as [HV _].
    apply Rmult_le_reg_r with (IZR total); [assumption|]. nra. }
  assert (HV0 : (0 <= F2R q)%R).
  { rewrite HF. apply Rmult_le_pos; [apply IZR_le; lia | left; apply pow2_pos]. }
  destruct (fmul_bound q 100 Hfin) as (m' & e' & Em & Hm' & He' & HP).
  - apply round_result_exp; lia.
  - lia.
  - change (pow2 7) with (2 * (2 * (2 * (2 * (2 * (2 * (2 * 1)))))))%R. lra.
  - rewrite Em.
    destruct (round_result_finite m' e' Hm' ltac:(lia)) as [Hfin' HF'].
    destruct (int_of_float_floor _ Hfin') as (z & Ez & Hz).
    exists z, (F2R (round_result m' e')). split; [exact Ez|].
    split.
    { rewrite HF'. apply Rmult_le_pos; [apply IZR_le; lia | left; apply pow2_pos]. }
    split; [exact Hz|].
    rewrite HF'. rewrite HF in HP. pose proof eps_sum as Hs.
    set (V := (IZR m * pow2 e)%R) in *. set (P := (IZR m' * pow2 e')%R) in *.
    split.
    + apply Rle_trans with (100 * ((V - eps_div) * IZR total))%R; [|lra].
      replace (100 * ((V - eps_div) * IZR total))%R
        with ((100 * V - 100 * eps_div) * IZR total)%R by ring.
      apply Rmult_le_compat_r; lra.
    + apply Rle_trans with (100 * ((V + eps_div) * IZR total))%R; [lra|].
      replace (100 * ((V + eps_div) * IZR total))%R
        with ((100 * V + 100 * eps_div) * IZR total)%R by ring.
      apply Rmult_le_compat_r; lra.
Qed.

Lemma slice_bound_zero total : 0 < total < 2 ^ 53 -> slice_bound 0 total = Ok 0.
Proof.
  intros H. unfold slice_bound, int_truediv.
  replace (total =? 0) with false by (symmetry; apply Z.eqb_neq; lia).
  rewrite (float_of_int_small total H).
  destruct (fconst_small total H) as (m & e & E & _). rewrite E.
  reflexivity.
Qed.

Lemma slice_bound_full total : 0 < total < 2 ^ 53 -> slice_bound total total = Ok 100.
Proof.
  intros H. unfold slice_bound, int_truediv.
  replace (total =? 0) with false by (symmetry; apply Z.eqb_neq; lia).
  rewrite (float_of_int_small total H). cbn [bind].
  destruct (fconst_small total H) as (m & e & E & Hd & He & Hm). rewrite E.
  unfold fdiv, SFdiv. rewrite SFdiv_core_full by (assumption || lia).
  rewrite Z.mul_comm, Z.div_mul, Z.mod_mul by lia.
  replace (e - e - 53) with (-53) by lia.
  replace (new_location (Zpos m) 0) with loc_Exact
    by (unfold new_location; destruct (Z.even (Zpos m)); reflexivity).
  vm_compute. reflexivity.
Qed.

Lemma eps_slice_total total : 0 < total <= 2 ^ 40 ->
  (eps_slice * IZR total <= 1 / 2)%R.
Proof.
  intros H. unfold eps_slice.
  assert (IZR total <= IZR (2 ^ 40))%R by (apply IZR_le; lia).
  assert (0 < IZR total)%R by (apply IZR_lt; lia).
  pose proof (pow2_pos (-41)).
  apply Rle_trans with (pow2 (-41) * IZR (2 ^ 40))%R; [apply Rmult_le_compat_l; lra|].
  rewrite <- pow2_IZR, <- pow2_add by lia. simpl Z.add.
  assert (IZR (2 ^ 1) * pow2 (- (1)) = 1)%R by (apply pow2_cancel; lia).
  cbn [Z.opp] in H3. change (IZR (2 ^ 1)) with 2%R in H3. lra.
Qed.

Lemma eps_slice_small : (0 < eps_slice <= 1 / 2)%R.
Proof.
  unfold eps_slice. split; [apply pow2_pos|].
  assert (pow2 (-41) <= pow2 (-1))%R by (apply pow2_le; lia).
  assert (IZR (2 ^ 1) * pow2 (- (1)) = 1)%R by (apply pow2_cancel; lia).
  cbn [Z.opp] in H0. change (IZR (2 ^ 1)) with 2%R in H0. lra.
Qed.

(** Slice bounds do not decrease with the index. *)
Lemma slice_bound_mono i j total zi zj :
  0 <= i -> i <= j -> j <= total -> total <= 2 ^ 40 ->
  slice_bound i total = Ok zi -> slice_bound j total = Ok zj -> zi <= zj.
Proof.
  intros Hi Hij Hjt Ht Ei Ej.
  destruct (Z.eq_dec i j) as [->|Hne]; [rewrite Ei in Ej; inversion Ej; lia|].
  assert (Ht53 : total < 2 ^ 53) by (assert (2 ^ 40 < 2 ^ 53) by (apply Z.pow_lt_mono_r; lia); lia).
  destruct (slice_bound_spec j total ltac:(lia) Hjt Ht53) as (z & p & E & Hp0 & Hz & Hp).
  rewrite Ej in E. inversion E; subst z. clear E.
  pose proof (eps_slice_total total ltac:(lia)) as Heps.
  assert (Pt : (0 < IZR total)%R) by (apply IZR_lt; lia).
  destruct (Z.eq_dec i 0) as [->|Hi0].
  - rewrite slice_bound_zero in Ei by lia. inversion Ei; subst zi.
    assert (-1 < IZR zj)%R by lra.
    apply lt_IZR in H. lia.
  - destruct (slice_bound_spec i total ltac:(lia) ltac:(lia) Ht53) as (z & p' & E & Hp0' & Hz' & Hp').
    rewrite Ei in E. inversion E; subst z. clear E.
    assert (Hij' : (IZR i + 1 <= IZR j)%R) by (rewrite <- plus_IZR; apply IZR_le; lia).
    assert (p' * IZR total <= p * IZR total)%R by nra.
    assert (p' <= p)%R by (apply Rmult_le_reg_r with (IZR total); assumption).
    assert (IZR zi < IZR zj + 1)%R by lra.
    rewrite <- plus_IZR in H1. apply lt_IZR in H1. lia.
Qed.

(** A slice bound is the floor the specification writes, or one below. *)
Lemma slice_bound_near_floor k total z :
  0 <= k -> k <= total -> 0 < total -> total <= 2 ^ 40 ->
  slice_bound k total = Ok z ->
  spec_slice_bound k total - 1 <= z <= spec_slice_bound k total.
Proof.
  intros Hk Hkt H0 Ht E. unfold spec_slice_bound.
  assert (Ht53 : total < 2 ^ 53) by (assert (2 ^ 40 < 2 ^ 53) by (apply Z.pow_lt_mono_r; lia); lia).
  destruct (Z.eq_dec k 0) as [->|Hk0].
  - rewrite slice_bound_zero in E by lia. inversion E; subst z.
    change (0 * 100) with 0. rewrite Z.div_0_l by lia. lia.
  - destruct (slice_bound_spec k total ltac:(lia) Hkt Ht53) as (z' & p & E' & Hp0 & Hz & Hp).
    rewrite E in E'. inversion E'; subst z'. clear E'.
    pose proof (eps_slice_total total ltac:(lia)) as Heps.
    assert (Pt : (0 < IZR total)%R) by (apply IZR_lt; lia).
    assert (M1 : (IZR z * IZR total <= p * IZR total)%R)
      by (apply Rmult_le_compat_r; lra).
    assert (M2 : (p * IZR total < (IZR z + 1) * IZR total)%R)
      by (apply Rmult_lt_compat_r; lra).
    assert (U : (IZR z * IZR total < 100 * IZR k + 1)%R) by lra.
    assert (L : (100 * IZR k - 1 < (IZR z + 1) * IZR total)%R) by lra.
    assert (U' : z * total < 100 * k + 1).
    { apply lt_IZR. rewrite plus_IZR, !mult_IZR. exact U. }
    assert (L' : 100 * k - 1 < (z + 1) * total).
    { apply lt_IZR. rewrite minus_IZR, !mult_IZR, plus_IZR. exact L. }
    split.
    + assert (k * 100 / total < z + 2).
      { apply Z.div_lt_upper_bound; lia. }
      lia.
    + apply Z.div_le_lower_bound; lia.
Qed.

(* ------------------------------------------------------------------ *)
(** ** The percent of a running task *)

Lemma duration_known_sign d dur : duration_known d = Some dur -> sign_false dur.
Proof.
  unfold duration_known. destruct d as [x|]; [|discriminate].
  destruct (negb (is_zero x) && fltb (fconst 0) x) eqn:E; [|discriminate].
  intros H; inversion H; subst x. apply andb_prop in E. destruct E as [_ E].
  destruct dur as [[|]|[|]| |[|] m e]; simpl; auto; discriminate.
Qed.

Lemma digit_of_nonneg c : 0 <= digit_of c.
Proof.
  unfold digit_of. destruct (decimal_value c) as [v|]; [apply N2Z.is_nonneg | lia].
Qed.

Lemma int_of_digits_nonneg s us : int_of_digits s = Ok us -> 0 <= us.
Proof.
  unfold int_of_digits.
  destruct (Nat.ltb MAX_STR_DIGITS (List.length s)); [discriminate|].
  intros H; inversion H; subst us. clear H.
  assert (G : forall l acc, 0 <= acc ->
            0 <= fold_left (fun a c => 10 * a + digit_of c) l acc).
  { induction l as [|c l IH]; intros acc Ha; cbn [fold_left]; [assumption|].
    apply IH. pose proof (digit_of_nonneg c). lia. }
  apply G. lia.
Qed.

(** The global percent of a running task stays inside its slice. *)
Lemma overall_percent_range slice_start slice_end dur us v :
  0 <= slice_end - slice_start <= 100 -> 0 <= us -> sign_false dur ->
  overall_percent slice_start slice_end dur us = Ok v ->
  slice_start <= v <= slice_end.
Proof.
  intros Hw Hus Hd. unfold overall_percent.
  destruct (float_of_int us) as [u|] eqn:Eu; [|discriminate]. cbn [bind].
  apply float_of_int_fconst in Eu.
  assert (Hu : sign_false u).
  { subst u. apply nonneg_shape_sign, fconst_nonneg_shape. assumption. }
  unfold float_truediv. change (is_zero (fconst 1000000)) with false.
  cbn [bind]. destruct (is_zero dur); [discriminate|]. cbn [bind].
  set (x := fdiv (fdiv u (fconst 1000000)) dur).
  assert (Hx : nonneg_shape x \/ x = S754_nan).
  { unfold x.
    destruct (fdiv_sign_false u (fconst 1000000) Hu I) as [E1 | S1].
    - rewrite E1. right. reflexivity.
    - destruct (fdiv_sign_false _ dur (nonneg_shape_sign _ S1) Hd) as [E2 | S2]; auto. }
  destruct (fmin_one_props x Hx) as (Hfin & Hexp & Hval).
  set (f := fmin_one x) in *.
  set (wz := slice_end - slice_start) in *.
  assert (Ew : float_of_int wz = Ok (fconst wz)).
  { destruct (Z.eq_dec wz 0) as [->|]; [reflexivity|].
    apply float_of_int_small.
    assert (2 ^ 7 < 2 ^ 53) by (apply Z.pow_lt_mono_r; lia).
    change (2 ^ 7) with 128 in H. lia. }
  rewrite Ew. cbn [bind].
  assert (Hw' : (0 <= IZR wz <= 100)%R) by (split; apply IZR_le; lia).
  destruct (fmul_bound f wz Hfin) as (m & e & Em & Hm & He & HP).
  - apply exp_le_weaken with (-52); [lia | exact Hexp].
  - lia.
  - change (pow2 7) with (2 * (2 * (2 * (2 * (2 * (2 * (2 * 1)))))))%R. nra.
  - rewrite Em.
    destruct (round_result_finite m e Hm ltac:(lia)) as [Hfin' HF'].
    destruct (int_of_float_floor _ Hfin') as (k & Ek & Hk).
    rewrite Ek. cbn [bind]. intros H; inversion H; subst v. clear H.
    rewrite HF' in Hk.
    assert (P0 : (0 <= IZR m * pow2 e)%R)
      by (apply Rmult_le_pos; [apply IZR_le; lia | left; apply pow2_pos]).
    assert (Heps : (eps_mul <= 1 / 2)%R).
    { unfold eps_mul. assert (pow2 (-44) <= pow2 (-1))%R by (apply pow2_le; lia).
      assert (IZR (2 ^ 1) * pow2 (- (1)) = 1)%R by (apply pow2_cancel; lia).
      cbn [Z.opp] in H0. change (IZR (2 ^ 1)) with 2%R in H0. lra. }
    assert (Hfw : (F2R f * IZR wz <= IZR wz)%R) by nra.
    assert (K1 : (IZR k < IZR wz + 1)%R) by lra.
    assert (K2 : (-1 < IZR k)%R) by lra.
    rewrite <- plus_IZR in K1. apply lt_IZR in K1. apply lt_IZR in K2.
    unfold wz in *. lia.
Qed.

Lemma tick_overall_range slice_start slice_end d t v :
  0 <= slice_end - slice_start <= 100 ->
  tick_overall slice_start slice_end d t = Some v ->
  slice_start <= v <= slice_end.
Proof.
  intros Hw. unfold tick_overall.
  destruct (content t) as [c|]; [|discriminate].
  destruct (last_match c) as [mt|]; [|discriminate].
  destruct (duration_known d) as [dur|] eqn:Ed; [|discriminate].
  destruct (int_of_digits mt) as [us|] eqn:Eus; [|discriminate]. cbn [bind].
  destruct (overall_percent slice_start slice_end dur us) as [v'|] eqn:Eo;
    [|discriminate].
  intros H; inversion H; subst v'.
  eapply overall_percent_range; eauto.
  - eapply int_of_digits_nonneg; eassumption.
  - eapply duration_known_sign; eauto.
Qed.

(* ------------------------------------------------------------------ *)
(** ** Paths *)

Lemma str_eqb_eq a b : str_eqb a b = true <-> a = b.
Proof. unfold str_eqb. destruct (list_eq_dec N.eq_dec a b); split; congruence. Qed.

Lemma str_eqb_neq a b : str_eqb a b = false <-> a <> b.
Proof. unfold str_eqb. destruct (list_eq_dec N.eq_dec a b); split; congruence. Qed.

Lemma path_eqb_eq p q : path_eqb p q = true -> p = q.
Proof.
  unfold path_eqb. intros H. apply andb_prop in H. destruct H as [Ha Hp].
  apply str_eqb_eq in Ha.
  destruct (list_eq_dec (list_eq_dec N.eq_dec) (parts p) (parts q)); [|discriminate].
  destruct p, q; simpl in *; congruence.
Qed.

Lemma path_eqb_neq p q : path_eqb p q = false -> p <> q.
Proof.
  unfold path_eqb. intros H E. subst q.
  assert (str_eqb (anchor p) (anchor p) = true) by (apply str_eqb_eq; reflexivity).
  rewrite H0 in H. simpl in H.
  destruct (list_eq_dec (list_eq_dec N.eq_dec) (parts p) (parts p)); congruence.
Qed.

Lemma contains_false c s : contains c s = false <-> ~ In c s.
Proof.
  unfold contains. split.
  - intros H Hin. assert (existsb (N.eqb c) s = true).
    { apply existsb_exists. exists c. split; [assumption | apply N.eqb_refl]. }
    congruence.
  - intros H. destruct (existsb (N.eqb c) s) eqn:E; [|reflexivity].
    apply existsb_exists in E. destruct E as (x & Hin & Hx).
    apply N.eqb_eq in Hx. subst x. contradiction.
Qed.

Lemma contains_app c a b : contains c (a ++ b) = contains c a || contains c b.
Proof. unfold contains. apply existsb_app. Qed.

(** [rfind]: the decomposition of a string at its last occurrence. *)
Lemma rfind_none c s : rfind c s = None <-> ~ In c s.
Proof.
  induction s as [|x t IH]; simpl; [tauto|].
  destruct (rfind c t) as [i|] eqn:E.
  - split; [discriminate|]. intros H. exfalso.
    assert (In c t -> False) by (intros; apply H; auto).
    apply IH in H0. discriminate.
  - destruct (N.eqb_spec x c) as [->|Hne].
    + split; [discriminate|]. intros H. exfalso. apply H. auto.
    + split; [|reflexivity]. intros _ [H|H]; [congruence|].
      apply (proj1 IH eq_refl). assumption.
Qed.

Lemma rfind_some c s i : rfind c s = Some i ->
  exists a b, s = a ++ c :: b /\ List.length a = i /\ ~ In c b.
Proof.
  revert i. induction s as [|x t IH]; simpl; intros i H; [discriminate|].
  destruct (rfind c t) as [j|] eqn:E.
  - inversion H; subst i. destruct (IH j eq_refl) as (a & b & -> & Hl & Hb).
    exists (x :: a), b. simpl. auto.
  - destruct (N.eqb_spec x c) as [->|Hne]; [|discriminate].
    inversion H; subst i. exists [], t. simpl. split; [reflexivity|].
    split; [reflexivity|]. apply rfind_none. assumption.
Qed.

Lemma rfind_app c a b : ~ In c b -> rfind c (a ++ c :: b) = Some (List.length a).
Proof.
  intros Hb. induction a as [|x a IH]; simpl.
  - apply rfind_none in Hb. rewrite Hb. rewrite N.eqb_refl. reflexivity.
  - rewrite IH. reflexivity.
Qed.

Lemma stem_suffix p : path_stem p ++ path_suffix p = path_name p.
Proof.
  unfold path_stem, path_suffix.
  destruct (rfind ch_dot (path_name p)) as [i|]; [|apply app_nil_r].
  destruct (Nat.ltb 0 i && Nat.ltb i (List.length (path_name p) - 1))%bool;
    [apply firstn_skipn | apply app_nil_r].
Qed.

(** A non-empty suffix is a dot followed by a non-empty run without dots. *)
Lemma suffix_shape p : path_suffix p <> [] ->
  exists b, path_suffix p = ch_dot :: b /\ b <> [] /\ ~ In ch_dot b.
Proof.
  unfold path_suffix. destruct (rfind ch_dot (path_name p)) as [i|] eqn:E; [|congruence].
  destruct (Nat.ltb 0 i && Nat.ltb i (List.length (path_name p) - 1))%bool eqn:C;
    [|congruence].
  intros _. destruct (rfind_some _ _ _ E) as (a & b & Hs & Hl & Hb).
  apply andb_prop in C. destruct C as [C1 C2].
  apply Nat.ltb_lt in C1, C2.
  rewrite Hs. rewrite <- Hl.
  rewrite skipn_app, skipn_all, Nat.sub_diag. simpl.
  exists b. split; [reflexivity|]. split; [|assumption].
  intros ->. rewrite Hs, length_app in C2. simpl in C2. lia.
Qed.

Lemma path_name_replace p n : path_name (replace_name p n) = n.
Proof. unfold path_name, replace_name. simpl. apply last_last. Qed.

Lemma replace_name_fix p n : replace_name p n = p -> n = path_name p.
Proof.
  intros H. rewrite <- H at 1. symmetry. apply path_name_replace.
Qed.

Lemma replace_name_twice p n m : replace_name (replace_name p n) m = replace_name p m.
Proof. unfold replace_name. simpl. rewrite removelast_last. reflexivity. Qed.

Lemma with_suffix_ok p s q : with_suffix p s = Ok q ->
  q = replace_name p (path_stem p ++ s) /\ path_name p <> [].
Proof.
  unfold with_suffix.
  destruct (contains ch_slash s); [discriminate|].
  destruct ((negb (str_eqb s []) && negb (starts_with [ch_dot] s)) || str_eqb s [ch_dot]);
    [discriminate|].
  destruct (str_eqb (path_name p) []) eqn:En; [discriminate|].
  apply str_eqb_neq in En. intros H. inversion H; subst q. clear H.
  split; [|assumption]. f_equal.
  destruct (str_eqb (path_suffix p) []) eqn:Es.
  - apply str_eqb_eq in Es. pose proof (stem_suffix p) as Hs.
    rewrite Es, app_nil_r in Hs. rewrite Hs. reflexivity.
  - pose proof (stem_suffix p) as Hs.
    set (st := path_stem p) in *. set (sf := path_suffix p) in *.
    rewrite <- Hs.
    rewrite length_app, Nat.add_sub.
    rewrite firstn_app, firstn_all, Nat.sub_diag. simpl. rewrite app_nil_r. reflexivity.
Qed.

Lemma with_suffix_total p s : valid_suffix s -> path_name p <> [] ->
  with_suffix p s = Ok (replace_name p (path_stem p ++ s)).
Proof.
  intros (H1 & H2 & H3) Hn.
  destruct (with_suffix p s) as [q|e] eqn:E.
  - apply with_suffix_ok in E. destruct E as [-> _]. reflexivity.
  - exfalso. unfold with_suffix in E. rewrite H1, H2 in E.
    apply str_eqb_neq in H3. rewrite H3 in E.
    rewrite andb_false_r in E. simpl in E.
    apply str_eqb_neq in Hn. rewrite Hn in E. discriminate.
Qed.

Lemma target_suffix_shape fmt : exists b, target_suffix fmt = ch_dot :: b.
Proof.
  unfold target_suffix.
  destruct (str_eqb fmt (lit "m4a") || str_eqb fmt (lit "alac")); eexists; reflexivity.
Qed.

(** The output path is never the input path. *)
Lemma choose_output_differs p fmt out :
  choose_output p fmt = Ok out ->
  out <> p /\
  (with_suffix p (target_suffix fmt) = Ok p ->
   out = replace_name p (path_stem p ++ lit "_" ++ fmt ++ target_suffix fmt)).
Proof.
  unfold choose_output.
  destruct (with_suffix p (target_suffix fmt)) as [q|] eqn:E1; [|discriminate].
  cbn [bind].
  destruct (path_eqb q p) eqn:Eq.
  - apply path_eqb_eq in Eq. subst q.
    destruct (with_suffix_ok _ _ _ E1) as [Hfix Hname].
    symmetry in Hfix. apply replace_name_fix in Hfix.
    pose proof (stem_suffix p) as Hs. rewrite <- Hs in Hfix.
    apply app_inv_head in Hfix.
    unfold with_stem, with_name.
    destruct (str_eqb (path_name p) []); [discriminate|].
    set (n1 := (path_stem p ++ lit "_" ++ fmt) ++ path_suffix p).
    destruct (str_eqb n1 [] || contains ch_slash n1 || str_eqb n1 [ch_dot]); [discriminate|].
    cbn [bind]. intros E2.
    destruct (with_suffix_ok _ _ _ E2) as [Hout _].
    rewrite replace_name_twice in Hout.
    assert (Hstem : path_stem (replace_name p n1) = path_stem p ++ lit "_" ++ fmt).
    { destruct (target_suffix_shape fmt) as (b0 & Hb0).
      assert (Hne : path_suffix p <> []) by (rewrite <- Hfix, Hb0; discriminate).
      destruct (suffix_shape p Hne) as (b & Hb & Hbne & Hbd).
      unfold path_stem. rewrite path_name_replace. unfold n1. rewrite Hb.
      rewrite rfind_app by assumption.
      set (a := path_stem p ++ lit "_" ++ fmt).
      assert (La : (0 < List.length a)%nat).
      { unfold a. rewrite !length_app. simpl. lia. }
      assert (Lb : (0 < List.length b)%nat) by (destruct b; [congruence | simpl; lia]).
      replace (Nat.ltb 0 (List.length a)) with true by (symmetry; apply Nat.ltb_lt; lia).
      replace (Nat.ltb (List.length a) (List.length (a ++ ch_dot :: b) - 1)) with true
        by (symmetry; apply Nat.ltb_lt; rewrite length_app; simpl; lia).
      simpl andb. cbv iota.
      rewrite firstn_app, firstn_all, Nat.sub_diag. simpl. apply app_nil_r. }
    rewrite Hstem in Hout.
    assert (Hform : out = replace_name p (path_stem p ++ lit "_" ++ fmt ++ target_suffix fmt)).
    { rewrite Hout. f_equal. rewrite <- !app_assoc. reflexivity. }
    split; [|intros _; exact Hform].
    intros Heq. rewrite Heq in Hform. symmetry in Hform. apply replace_name_fix in Hform.
    rewrite <- Hs, <- Hfix in Hform.
    apply (f_equal (@List.length N)) in Hform.
    rewrite !length_app in Hform. simpl in Hform. lia.
  - intros H. inversion H; subst out. split.
    + apply path_eqb_neq. assumption.
    + intros E. inversion E; subst q.
      apply path_eqb_neq in Eq. congruence.
Qed.

Lemma split_on_no_sep sep s : Forall (fun x => ~ In sep x) (split_on sep s).
Proof.
  induction s as [|c t IH]; simpl.
  - constructor; [tauto | constructor].
  - destruct (N.eqb_spec c sep) as [->|Hne].
    + constructor; [simpl; tauto | assumption].
    + destruct (split_on sep t) as [|w ws]; inversion IH; subst.
      * constructor; [|constructor]. simpl. intros [H|[]]. congruence.
      * constructor; [|assumption]. simpl. intros [H|H]; [congruence | contradiction].
Qed.

Lemma Path_name_no_slash filepath : ~ In ch_slash (path_name (Path filepath)).
Proof.
  unfold path_name, Path. cbn [parts].
  set (l := filter _ _).
  assert (H : Forall (fun x => ~ In ch_slash x) l).
  { unfold l. apply Forall_forall. intros x Hx. apply filter_In in Hx.
    destruct Hx as [Hx _].
    pose proof (split_on_no_sep ch_slash (lstrip ch_slash filepath)) as F.
    rewrite Forall_forall in F. apply F. assumption. }
  destruct l as [|a l'] using rev_ind; [simpl; tauto|].
  rewrite last_last. apply Forall_app in H. destruct H as [_ H].
  inversion H; assumption.
Qed.

Lemma target_suffix_valid fmt : fmt <> [] -> contains ch_slash fmt = false ->
  valid_suffix (target_suffix fmt).
Proof.
  intros Hne Hs. unfold target_suffix, valid_suffix.
  destruct (str_eqb fmt (lit "m4a") || str_eqb fmt (lit "alac")).
  - repeat split; try reflexivity. discriminate.
  - split; [|split].
    + unfold contains in *. simpl. exact Hs.
    + reflexivity.
    + intros E. inversion E. contradiction.
Qed.

Lemma format_keys_valid :
  Forall (fun fmt => fmt <> [] /\ contains ch_slash fmt = false) FORMAT_KEYS.
Proof. repeat constructor; discriminate. Qed.

(** On a path that names a file, and for a format that can be a suffix,
    the choice of the output path does not raise. *)
Lemma choose_output_total filepath fmt :
  path_name (Path filepath) <> [] -> fmt <> [] -> contains ch_slash fmt = false ->
  exists out, choose_output (Path filepath) fmt = Ok out.
Proof.
  intros Hname Hfmt Hslash.
  set (p := Path filepath) in *.
  pose proof (target_suffix_valid fmt Hfmt Hslash) as Hv.
  unfold choose_output.
  rewrite (with_suffix_total p _ Hv Hname). cbn [bind].
  destruct (path_eqb _ p) eqn:Eq; [|eexists; reflexivity].
  apply path_eqb_eq in Eq. apply replace_name_fix in Eq.
  pose proof (stem_suffix p) as Hs. rewrite <- Hs in Eq.
  apply app_inv_head in Eq.
  unfold with_stem, with_name.
  replace (str_eqb (path_name p) []) with false by (symmetry; apply str_eqb_neq; assumption).
  set (n1 := (path_stem p ++ lit "_" ++ fmt) ++ path_suffix p).
  assert (Hin : In 95%N n1).
  { unfold n1. apply in_or_app. left. apply in_or_app. right. simpl. auto. }
  assert (N1 : str_eqb n1 [] = false).
  { apply str_eqb_neq. intros E. rewrite E in Hin. contradiction. }
  assert (N2 : contains ch_slash n1 = false).
  { pose proof (Path_name_no_slash filepath) as Hno. fold p in Hno.
    rewrite <- Hs in Hno.
    unfold n1. rewrite !contains_app.
    assert (contains ch_slash (path_stem p) = false)
      by (apply contains_false; intros H; apply Hno; apply in_or_app; auto).
    assert (contains ch_slash (path_suffix p) = false)
      by (apply contains_false; intros H'; apply Hno; apply in_or_app; auto).
    rewrite H, H0, Hslash. reflexivity. }
  assert (N3 : str_eqb n1 [ch_dot] = false).
  { apply str_eqb_neq. intros E. rewrite E in Hin. simpl in Hin.
    destruct Hin as [H|[]]. discriminate. }
  rewrite N1, N2, N3. cbn [orb bind].
  rewrite (with_suffix_total _ _ Hv).
  - eexists; reflexivity.
  - rewrite path_name_replace. intros E. rewrite E in Hin. contradiction.
Qed.

(* ------------------------------------------------------------------ *)
(** ** The passes of the loop *)

Lemma loop_body_pass display total fmt idx filepath te st :
  pass display total fmt idx filepath te st
    (fst (loop_body display total fmt idx filepath te st))
    (snd (loop_body display total fmt idx filepath te st)).
Proof.
  unfold loop_body.
  destruct (input_exists te) eqn:Ex; cbn [negb]; [|apply PassMissing; assumption].
  destruct (choose_output (Path filepath) fmt) as [out|e] eqn:Eo;
    [|apply PassRaised; auto].
  destruct (lossy_accepted te) eqn:El; cbn [negb];
    [|eapply PassRejected; eassumption].
  destruct (slice_bound (Z.of_nat idx) (Z.of_nat total)) as [s_start|e] eqn:Es;
    [|apply PassRaised; auto].
  destruct (slice_bound (Z.of_nat idx + 1) (Z.of_nat total)) as [s_end|e] eqn:Ee;
    [|apply PassRaised; auto].
  destruct (poll_loop display idx s_start s_end (duration te) s_start (ticks te))
    as [evs cancelled] eqn:Ep.
  destruct cancelled.
  - cbn [fst snd].
    replace (emit (emit (emit st _) _) _) with
      (emit st (run_events display idx te out s_start evs
                ++ [UnlinkOutput idx out; PbarClose; NotifyCancelled (S idx) total])).
    + eapply PassCancelled; eassumption.
    + unfold emit, run_events. cbn [errors done trace]. f_equal.
      rewrite <- !app_assoc. reflexivity.
  - destruct (returncode te =? 0) eqn:Er; cbn [negb fst snd].
    + apply Z.eqb_eq in Er.
      replace (emit (add_done _) _) with
        (mkState (errors st) (S (done st))
           (trace st ++ run_events display idx te out s_start evs
            ++ [PbarSet idx Finishing s_end (pbar_set display (done_alive te))])).
      * eapply PassDone; eassumption.
      * unfold emit, add_done, run_events. cbn [errors done trace]. f_equal.
        rewrite <- !app_assoc. reflexivity.
    + apply Z.eqb_neq in Er.
      replace (emit (add_error _ _) _) with
        (mkState (errors st ++ [failure_entry filepath te]) (done st)
           (trace st ++ run_events display idx te out s_start evs
            ++ [UnlinkOutput idx out])).
      * eapply PassFailed; eassumption.
      * unfold emit, add_error, run_events, failure_entry. cbn [errors done trace]. f_equal.
        rewrite <- !app_assoc. reflexivity.
Qed.

Lemma loop_body_pass' display total fmt idx filepath te st st' fl :
  loop_body display total fmt idx filepath te st = (st', fl) ->
  pass display total fmt idx filepath te st st' fl.
Proof.
  intros H. pose proof (loop_body_pass display total fmt idx filepath te st) as P.
  rewrite H in P. exact P.
Qed.

(** An invariant of the passes holds after the loop. *)
Lemma run_loop_inv (display : bool) (total : nat) (fmt : str)
  (env : nat -> task_env)
  (P : nat -> state -> Prop) (Q : state -> flow -> Prop) :
  (forall idx filepath st st' fl, (idx < total)%nat -> P idx st ->
     pass display total fmt idx filepath (env idx) st st' fl ->
     match fl with Next => P (S idx) st' | _ => Q st' fl end) ->
  forall files idx st st' fl,
    (idx + List.length files = total)%nat -> P idx st ->
    run_loop display total fmt env idx files st = (st', fl) ->
    match fl with Next => P total st' | _ => Q st' fl end.
Proof.
  intros Hstep. induction files as [|f rest IH]; intros idx st st' fl Hlen HP Hrun.
  - cbn [run_loop List.length] in *. inversion Hrun; subst st' fl.
    replace total with idx by lia. assumption.
  - cbn [run_loop] in Hrun. cbn [List.length] in Hlen.
    destruct (loop_body display total fmt idx f (env idx) st) as [st1 fl1] eqn:Eb.
    apply loop_body_pass' in Eb.
    specialize (Hstep idx f st st1 fl1 ltac:(lia) HP Eb).
    destruct fl1.
    + eapply IH; [|exact Hstep|exact Hrun]. lia.
    + inversion Hrun; subst. exact Hstep.
    + inversion Hrun; subst. exact Hstep.
Qed.

(* ------------------------------------------------------------------ *)
(** ** The polling loop *)

Section PollLoop.

Variables (display : bool) (idx : nat) (slice_start slice_end : Z)
  (d : option float).

Local Abbreviation poll := (poll_loop display idx slice_start slice_end d).

Local Abbreviation overall := (tick_overall slice_start slice_end d).

(** Induction over the passes of the polling loop: a pass sends nothing,
    sends an update that is answered, or sends one that is not. *)
Lemma poll_loop_cases (P : Z -> list tick -> list event -> bool -> Prop) :
  (forall last, P last [] [] false) ->
  (forall last t ts evs c,
     overall t = None \/ (exists v, overall t = Some v /\ v <= last) ->
     poll last ts = (evs, c) -> P last ts evs c -> P last (t :: ts) evs c) ->
  (forall last t ts v evs c,
     overall t = Some v -> last < v -> pbar_set display (tick_alive t) = true ->
     poll v ts = (evs, c) -> P v ts evs c ->
     P last (t :: ts) (PbarSet idx Converting v true :: evs) c) ->
  (forall last t ts v,
     overall t = Some v -> last < v -> pbar_set display (tick_alive t) = false ->
     P last (t :: ts) [PbarSet idx Converting v false; Kill idx] true) ->
  forall ts last evs c, poll last ts = (evs, c) -> P last ts evs c.
Proof.
  intros Hnil Hskip Hsend Hkill.
  induction ts as [|t ts IH]; intros last evs c H.
  - simpl in H. inversion H; subst. apply Hnil.
  - cbn [poll_loop] in H.
    destruct (tick_overall slice_start slice_end d t) as [v|] eqn:Ev.
    + destruct (v >? last) eqn:Egt.
      * assert (last < v) by (apply Z.gtb_lt in Egt; lia).
        destruct (pbar_set display (tick_alive t)) eqn:Ea.
        -- destruct (poll_loop display idx slice_start slice_end d v ts) as [evs' c'] eqn:Ep.
           inversion H; subst. eapply Hsend; eauto.
        -- inversion H; subst. eapply Hkill; eauto.
      * assert (v <= last).
        { destruct (Z.gtb_spec v last); [discriminate | lia]. }
        eapply Hskip; eauto.
    + eapply Hskip; eauto.
Qed.

Lemma poll_events_kind ts last evs c : poll last ts = (evs, c) ->
  Forall (fun e => (exists v a, e = PbarSet idx Converting v a) \/ e = Kill idx) evs.
Proof.
  apply (poll_loop_cases (fun _ _ evs _ =>
    Forall (fun e => (exists v a, e = PbarSet idx Converting v a) \/ e = Kill idx) evs)).
  - constructor.
  - auto.
  - intros. constructor; [left; eauto | assumption].
  - intros. constructor; [left; eauto|]. constructor; [right; reflexivity | constructor].
Qed.

Lemma poll_filter ts last evs c : poll last ts = (evs, c) ->
  filter_respected (Some last) evs.
Proof.
  apply (poll_loop_cases (fun last _ evs _ => filter_respected (Some last) evs)).
  - intros. exact I.
  - auto.
  - intros. cbn [filter_respected]. split; [eauto | assumption].
  - intros. cbn [filter_respected]. split; [eauto | exact I].
Qed.

Lemma poll_alive ts last evs c : poll last ts = (evs, c) ->
  if c
  then exists pre v, evs = pre ++ [PbarSet idx Converting v false; Kill idx]
                     /\ Forall undisturbed pre
  else Forall undisturbed evs.
Proof.
  apply (poll_loop_cases (fun _ _ evs (c : bool) =>
    if c
    then exists pre v, evs = pre ++ [PbarSet idx Converting v false; Kill idx]
                       /\ Forall undisturbed pre
    else Forall undisturbed evs)).
  - intros. constructor.
  - auto.
  - intros l0 t ts' v evs' c' _ _ _ _ IH. destruct c'.
    + destruct IH as (pre & v' & -> & Hpre).
      exists (PbarSet idx Converting v true :: pre), v'. split; [reflexivity|].
      constructor; [exact I | assumption].
    + constructor; [exact I | assumption].
  - intros. exists [], v. split; [reflexivity | constructor].
Qed.

(** Without a known duration, or while the progress file has no record,
    the loop sends nothing and is never cancelled. *)
Lemma poll_silent ts last :
  Forall (fun t => overall t = None) ts -> poll last ts = ([], false).
Proof.
  induction ts as [|t ts IH]; intros H; [reflexivity|].
  inversion H; subst. cbn [poll_loop]. rewrite H2. apply IH. assumption.
Qed.

End PollLoop.

Lemma forwarded_app a b : forwarded (a ++ b) = forwarded a ++ forwarded b.
Proof.
  induction a as [|e a IH]; [reflexivity|].
  destruct e; simpl; rewrite ?IH; reflexivity.
Qed.

Lemma count_close_app a b : count_close (a ++ b) = (count_close a + count_close b)%nat.
Proof.
  induction a as [|e a IH]; [reflexivity|].
  destruct e; simpl; rewrite ?IH; reflexivity.
Qed.

Lemma count_finishing_app a b :
  count_finishing (a ++ b) = (count_finishing a + count_finishing b)%nat.
Proof.
  induction a as [|e a IH]; [reflexivity|].
  destruct e as [|i ph v al| | | | | | | | | |]; simpl; rewrite ?IH; try reflexivity.
  destruct ph; simpl; rewrite ?IH; reflexivity.
Qed.

Lemma live_progress_app a b live :
  live_progress live (a ++ b) = live_progress (live_progress live a) b.
Proof.
  revert live. induction a as [|e a IH]; intros live; [reflexivity|].
  destruct e; simpl; apply IH.
Qed.

Lemma last_forwarded_app a b prev :
  last_forwarded prev (a ++ b) = last_forwarded (last_forwarded prev a) b.
Proof.
  revert prev. induction a as [|e a IH]; intros prev; [reflexivity|].
  destruct e; simpl; apply IH.
Qed.

Lemma filter_respected_app a b prev :
  filter_respected prev (a ++ b) <->
  filter_respected prev a /\ filter_respected (last_forwarded prev a) b.
Proof.
  revert prev. induction a as [|e a IH]; intros prev; [simpl; tauto|].
  destruct e as [|i ph v al| | | | | | | | | |]; simpl; try apply IH.
  destruct ph; simpl; rewrite IH; tauto.
Qed.

(** What the events of the polling loop leave unchanged. *)
Lemma kind_count_close idx evs :
  Forall (fun e => (exists v a, e = PbarSet idx Converting v a) \/ e = Kill idx) evs ->
  count_close evs = 0%nat /\ count_finishing evs = 0%nat /\
  (forall live, live_progress live evs = live) /\
  Forall (fun e => event_idx e = Some idx) evs /\
  (forall o, ~ In (Spawn idx o) evs) /\ ~ In (MkTemp idx) evs.
Proof.
  induction 1 as [|e evs He _ IH].
  - repeat split; auto.
  - destruct IH as (I1 & I2 & I3 & I4 & I5 & I6).
    destruct He as [(v & a & ->) | ->]; simpl; repeat split; auto;
      try (intros o [H|H]; [discriminate | exact (I5 o H)]);
      try (intros [H|H]; [discriminate | exact (I6 H)]).
Qed.

(* ------------------------------------------------------------------ *)
(** ** Invariants of the loop *)

Lemma well_indexed_app env b a c :
  well_indexed env b (a ++ c) <-> well_indexed env b a /\ well_indexed env b c.
Proof. unfold well_indexed. apply Forall_app. Qed.

Lemma well_indexed_weaken env b b' tr : (b <= b')%nat ->
  well_indexed env b tr -> well_indexed env b' tr.
Proof.
  intros Hle H. unfold well_indexed in *. eapply Forall_impl; [|exact H].
  intros e He j Hj. destruct (He j Hj). split; [lia | assumption].
Qed.

Lemma well_indexed_same env idx tr : input_exists (env idx) = true ->
  Forall (fun e => event_idx e = Some idx \/ event_idx e = None) tr ->
  well_indexed env (S idx) tr.
Proof.
  intros Hex H. unfold well_indexed. eapply Forall_impl; [|exact H].
  intros e [He|He] j Hj; rewrite He in Hj; inversion Hj; subst. split; [lia | assumption].
Qed.

Section RunEvents.

Variables (display : bool) (idx : nat) (te : task_env) (out : path)
  (slice_start slice_end : Z) (last : Z) (ts : list tick) (evs : list event)
  (c : bool).

Hypothesis Hpoll :
  poll_loop display idx slice_start slice_end (duration te) last ts = (evs, c).

Lemma poll_kinds :
  count_close evs = 0%nat /\ count_finishing evs = 0%nat /\
  (forall live, live_progress live evs = live) /\
  Forall (fun e => event_idx e = Some idx) evs /\
  (forall o, ~ In (Spawn idx o) evs) /\ ~ In (MkTemp idx) evs.
Proof.
  exact (kind_count_close idx evs (poll_events_kind _ _ _ _ _ _ _ _ _ Hpoll)).
Qed.

Lemma run_events_forwarded :
  forwarded (run_events display idx te out slice_start evs)
  = slice_start :: forwarded evs.
Proof.
  unfold run_events. cbn [app forwarded]. rewrite forwarded_app. simpl.
  rewrite app_nil_r. reflexivity.
Qed.

Lemma run_events_close :
  count_close (run_events display idx te out slice_start evs) = 0%nat.
Proof.
  destruct poll_kinds as (K1 & _). unfold run_events. cbn [app count_close].
  rewrite count_close_app, K1. reflexivity.
Qed.

Lemma run_events_finishing :
  count_finishing (run_events display idx te out slice_start evs) = 0%nat.
Proof.
  destruct poll_kinds as (_ & K2 & _). unfold run_events. cbn [app count_finishing].
  rewrite count_finishing_app, K2. reflexivity.
Qed.

Lemma run_events_live :
  live_progress [] (run_events display idx te out slice_start evs) = [].
Proof.
  destruct poll_kinds as (_ & _ & K3 & _). unfold run_events. cbn [app live_progress].
  rewrite live_progress_app, K3. cbn [live_progress remove].
  destruct (Nat.eq_dec idx idx); [reflexivity | congruence].
Qed.

Lemma run_events_idx :
  Forall (fun e => event_idx e = Some idx \/ event_idx e = None)
    (run_events display idx te out slice_start evs).
Proof.
  destruct poll_kinds as (_ & _ & _ & K4 & _). unfold run_events.
  repeat (apply Forall_cons; [left; reflexivity|]).
  apply Forall_app. split.
  - eapply Forall_impl; [|exact K4]. auto.
  - repeat (apply Forall_cons; [left; reflexivity|]). constructor.
Qed.

End RunEvents.

Lemma run_events_filter display idx te out slice_start slice_end ts evs c prev :
  poll_loop display idx slice_start slice_end (duration te) slice_start ts = (evs, c) ->
  filter_respected prev (run_events display idx te out slice_start evs).
Proof.
  intros Hp. unfold run_events. cbn [app filter_respected].
  apply filter_respected_app. split.
  - eapply poll_filter; eassumption.
  - exact I.
Qed.

Lemma run_events_undisturbed display idx te out slice_start evs :
  Forall undisturbed evs ->
  Forall undisturbed (run_events display idx te out slice_start evs).
Proof.
  intros H. unfold run_events.
  repeat (apply Forall_cons; [exact I|]).
  apply Forall_app. split; [assumption|].
  repeat (apply Forall_cons; [exact I|]). constructor.
Qed.

Lemma step_between_passes display total fmt env idx filepath st st' fl :
  (idx < total)%nat -> between_passes env idx st ->
  pass display total fmt idx filepath (env idx) st st' fl ->
  match fl with
  | Next => between_passes env (S idx) st'
  | _ => loop_end env total st' fl
  end.
Proof.
  intros Hidx [Bi Bu Bd Bl Blive Bf Bc] Hp.
  destruct Hp as [Hex | e Hex _ | out Hex Ho Hl
                 | out s e evs Hex Ho Hl Hs He Hpoll
                 | out s e evs Hex Ho Hl Hs He Hpoll Hrc
                 | out s e evs Hex Ho Hl Hs He Hpoll Hrc].
  - (* missing input *)
    constructor; cbn [add_error errors done trace]; auto.
    + eapply well_indexed_weaken; [|eassumption]. lia.
  - (* raised *)
    exists idx. split; [assumption|]. constructor; assumption.
  - (* rejected *)
    constructor; auto.
    + eapply well_indexed_weaken; [|eassumption]. lia.
  - (* cancelled *)
    pose proof (poll_alive _ _ _ _ _ _ _ _ _ Hpoll) as Ha. cbn iota in Ha.
    destruct Ha as (pre & v & Eevs & Hpre).
    set (pre' := trace st ++ [PbarSet idx Preparing s
                               (pbar_set display (prepare_alive (env idx)));
                             MkTemp idx; Spawn idx out] ++ pre).
    assert (Etr : trace (emit st (run_events display idx (env idx) out s evs
                   ++ [UnlinkOutput idx out; PbarClose; NotifyCancelled (S idx) total]))
                  = pre' ++ [PbarSet idx Converting v false; Kill idx; Wait idx;
                             UnlinkProgress idx; UnlinkOutput idx out; PbarClose;
                             NotifyCancelled (S idx) total]).
    { unfold emit, run_events, pre'. cbn [trace]. rewrite Eevs.
      rewrite <- !app_assoc. reflexivity. }
    exists idx, pre', v, out. constructor; try assumption.
    + cbn [emit trace]. apply well_indexed_app. split.
      * eapply well_indexed_weaken; [|eassumption]. lia.
      * apply well_indexed_same; [assumption|]. apply Forall_app. split.
        -- eapply run_events_idx; eassumption.
        -- repeat (apply Forall_cons;
             [first [left; reflexivity | right; reflexivity]|]).
           apply Forall_nil.
    + unfold pre'. apply Forall_app. split; [assumption|].
      repeat (apply Forall_cons; [exact I|]). assumption.
    + cbn [emit done]. rewrite Bd. unfold pre'.
      rewrite count_finishing_app. cbn [app count_finishing].
      pose proof (run_events_finishing _ _ (env idx) out _ _ _ _ _ _ Hpoll) as Hf.
      unfold run_events in Hf. cbn [app count_finishing] in Hf.
      rewrite Eevs in Hf. rewrite !count_finishing_app in Hf.
      assert (count_finishing pre = 0%nat) by lia. lia.
    + cbn [emit trace]. rewrite live_progress_app, Blive, live_progress_app.
      rewrite (run_events_live _ _ _ out _ _ _ _ _ _ Hpoll). reflexivity.
    + cbn [emit trace]. apply filter_respected_app. split; [assumption|].
      apply filter_respected_app. split.
      * eapply run_events_filter; eassumption.
      * exact I.
    + cbn [emit trace]. rewrite !count_close_app, Bc.
      rewrite (run_events_close _ _ _ out _ _ _ _ _ _ Hpoll). reflexivity.
  - (* failed *)
    pose proof (poll_alive _ _ _ _ _ _ _ _ _ Hpoll) as Ha. cbn iota in Ha.
    constructor; cbn [errors done trace].
    + apply well_indexed_app. split.
      * eapply well_indexed_weaken; [|eassumption]. lia.
      * apply well_indexed_same; [assumption|]. apply Forall_app. split.
        -- eapply run_events_idx; eassumption.
        -- repeat (apply Forall_cons;
             [first [left; reflexivity | right; reflexivity]|]).
           apply Forall_nil.
    + apply Forall_app. split; [assumption|]. apply Forall_app. split.
      * apply run_events_undisturbed. assumption.
      * repeat constructor.
    + rewrite !count_finishing_app.
      rewrite (run_events_finishing _ _ _ out _ _ _ _ _ _ Hpoll). cbn. lia.
    + lia.
    + rewrite live_progress_app, Blive, live_progress_app.
      rewrite (run_events_live _ _ _ out _ _ _ _ _ _ Hpoll). reflexivity.
    + apply filter_respected_app. split; [assumption|].
      apply filter_respected_app. split.
      * eapply run_events_filter; eassumption.
      * exact I.
    + rewrite !count_close_app, Bc.
      rewrite (run_events_close _ _ _ out _ _ _ _ _ _ Hpoll). reflexivity.
  - (* done *)
    pose proof (poll_alive _ _ _ _ _ _ _ _ _ Hpoll) as Ha. cbn iota in Ha.
    constructor; cbn [errors done trace].
    + apply well_indexed_app. split.
      * eapply well_indexed_weaken; [|eassumption]. lia.
      * apply well_indexed_same; [assumption|]. apply Forall_app. split.
        -- eapply run_events_idx; eassumption.
        -- repeat (apply Forall_cons;
             [first [left; reflexivity | right; reflexivity]|]).
           apply Forall_nil.
    + apply Forall_app. split; [assumption|]. apply Forall_app. split.
      * apply run_events_undisturbed. assumption.
      * repeat constructor.
    + rewrite !count_finishing_app.
      rewrite (run_events_finishing _ _ _ out _ _ _ _ _ _ Hpoll). cbn. lia.
    + lia.
    + rewrite live_progress_app, Blive, live_progress_app.
      rewrite (run_events_live _ _ _ out _ _ _ _ _ _ Hpoll). reflexivity.
    + apply filter_respected_app. split; [assumption|].
      apply filter_respected_app. split.
      * eapply run_events_filter; eassumption.
      * exact I.
    + rewrite !count_close_app, Bc.
      rewrite (run_events_close _ _ _ out _ _ _ _ _ _ Hpoll). reflexivity.
Qed.

Lemma initial_between env : between_passes env 0 initial_state.
Proof.
  constructor; cbn; auto.
  - constructor; [|constructor]. intros j Hj. discriminate.
  - repeat constructor.
Qed.

(** The state in which the loop is left. *)
Lemma run_loop_end display env files fmt st fl :
  run_loop display (List.length files) fmt env 0 files initial_state = (st, fl) ->
  loop_end env (List.length files) st fl.
Proof.
  intros H.
  pose proof (run_loop_inv display (List.length files) fmt env
                (between_passes env)
                (fun st fl => loop_end env (List.length files) st fl)) as R.
  specialize (R (fun idx fp s s' f Hi Hb Hp =>
                   step_between_passes display _ fmt env idx fp s s' f Hi Hb Hp)).
  specialize (R files 0%nat initial_state st fl eq_refl (initial_between env) H).
  destruct fl; assumption.
Qed.

(* ------------------------------------------------------------------ *)
(** ** The sweep of the bar *)

Lemma pow40_lt_pow53 : 2 ^ 40 < 2 ^ 53.
Proof. apply Z.pow_lt_mono_r; lia. Qed.

Lemma slice_bound_ok k total : 0 <= k -> k <= total -> 0 < total -> total < 2 ^ 53 ->
  exists b, slice_bound k total = Ok b.
Proof.
  intros Hk Hkt H0 Ht. destruct (Z.eq_dec k 0) as [->|Hne].
  - exists 0. apply slice_bound_zero. lia.
  - destruct (slice_bound_spec k total ltac:(lia) Hkt Ht) as (z & p & E & _).
    exists z. exact E.
Qed.

Lemma slice_bound_range k total b :
  0 <= k -> k <= total -> 0 < total -> total <= 2 ^ 40 ->
  slice_bound k total = Ok b -> 0 <= b <= 100.
Proof.
  intros Hk Hkt H0 Ht E. pose proof pow40_lt_pow53.
  split.
  - apply (slice_bound_mono 0 k total 0 b); try lia; try assumption.
    apply slice_bound_zero. lia.
  - apply (slice_bound_mono k total total b 100); try lia; try assumption.
    apply slice_bound_full. lia.
Qed.

Lemma nondecreasing_cons x l :
  Forall (fun y => x <= y) l -> nondecreasing l -> nondecreasing (x :: l).
Proof.
  intros H Hl. cbn [nondecreasing]. split; [|assumption].
  destruct l; [exact I|]. inversion H; assumption.
Qed.

Lemma nondecreasing_app a b :
  nondecreasing a -> nondecreasing b ->
  (forall x y, In x a -> In y b -> x <= y) -> nondecreasing (a ++ b).
Proof.
  induction a as [|x a IH]; intros Ha Hb H; [assumption|].
  cbn [app nondecreasing] in *. destruct Ha as [Hx Ha]. split.
  - destruct a as [|y a'].
    + destruct b as [|y b']; [exact I|]. apply H; simpl; auto.
    + exact Hx.
  - apply IH; auto. intros; apply H; simpl; auto.
Qed.

Lemma last_forwarded_spec tr prev :
  last_forwarded prev tr =
    match rev (forwarded tr) with v :: _ => Some v | [] => prev end.
Proof.
  revert prev. induction tr as [|e tr IH]; intros prev; [reflexivity|].
  destruct e; cbn [last_forwarded forwarded]; rewrite ?IH; try reflexivity.
  cbn [rev]. destruct (rev (forwarded tr)); reflexivity.
Qed.

Lemma poll_range display idx s e d ts last evs c :
  0 <= e - s <= 100 ->
  poll_loop display idx s e d last ts = (evs, c) ->
  Forall (fun v => last < v /\ v <= e) (forwarded evs) /\
  nondecreasing (forwarded evs).
Proof.
  intros Hw.
  apply (poll_loop_cases display idx s e d (fun last _ evs _ =>
    Forall (fun v => last < v /\ v <= e) (forwarded evs) /\
    nondecreasing (forwarded evs))).
  - intros. split; [constructor | exact I].
  - auto.
  - intros l0 t ts' v evs' c' Hv Hlt _ _ [IH1 IH2].
    pose proof (tick_overall_range _ _ _ _ _ Hw Hv) as Hr.
    cbn [forwarded]. split.
    + constructor; [lia|]. eapply Forall_impl; [|exact IH1]. simpl. intros; lia.
    + apply nondecreasing_cons; [|assumption].
      eapply Forall_impl; [|exact IH1]. simpl. intros; lia.
  - intros l0 t ts' v Hv Hlt _.
    pose proof (tick_overall_range _ _ _ _ _ Hw Hv) as Hr.
    cbn [forwarded]. split.
    + constructor; [lia | constructor].
    + cbn. auto.
Qed.

Lemma well_indexed_no_event env idx tr e :
  well_indexed env idx tr -> event_idx e = Some idx -> ~ In e tr.
Proof.
  intros H He Hin. unfold well_indexed in H. rewrite Forall_forall in H.
  destruct (H e Hin idx He). lia.
Qed.

Lemma step_sweep display total fmt env idx filepath st st' fl :
  Z.of_nat total <= 2 ^ 40 ->
  (idx < total)%nat -> between_passes env idx st -> sweep total idx st ->
  pass display total fmt idx filepath (env idx) st st' fl ->
  match fl with
  | Next => sweep total (S idx) st'
  | _ => nondecreasing (forwarded (trace st'))
  end.
Proof.
  intros Ht Hidx Hb [Ss Sb Sl] Hp. pose proof pow40_lt_pow53 as H4053.
  assert (Unchanged : trace st' = trace st -> sweep total (S idx) st').
  { intros E. constructor; rewrite E.
    - assumption.
    - intros b' Eb'.
      destruct (slice_bound_ok (Z.of_nat idx) (Z.of_nat total)) as [b Eb]; try lia.
      eapply Forall_impl; [|exact (Sb b Eb)]. intros v Hv. cbn beta in Hv.
      assert (b <= b'); [|lia].
      apply (slice_bound_mono (Z.of_nat idx) (Z.of_nat (S idx)) (Z.of_nat total)); auto; lia.
    - intros v a b _ Hin _. exfalso. replace (S idx - 1)%nat with idx in Hin by lia.
      eapply well_indexed_no_event; [apply (bp_indexed _ _ _ Hb) | | exact Hin]. reflexivity. }
  assert (Ran : forall out s e evs c tail,
    slice_bound (Z.of_nat idx) (Z.of_nat total) = Ok s ->
    slice_bound (Z.of_nat idx + 1) (Z.of_nat total) = Ok e ->
    poll_loop display idx s e (duration (env idx)) s (ticks (env idx)) = (evs, c) ->
    forwarded tail = [] \/ forwarded tail = [e] ->
    s <= e /\
    nondecreasing (forwarded (trace st ++ run_events display idx (env idx) out s evs ++ tail))
    /\ Forall (fun v => v <= e)
         (forwarded (trace st ++ run_events display idx (env idx) out s evs ++ tail))).
  { intros out s e evs c tail Hs He Hpoll Htail.
    assert (Hse : s <= e).
    { apply (slice_bound_mono (Z.of_nat idx) (Z.of_nat idx + 1) (Z.of_nat total)); auto; lia. }
    pose proof (slice_bound_range (Z.of_nat idx) (Z.of_nat total) s
                  ltac:(lia) ltac:(lia) ltac:(lia) Ht Hs) as Rs.
    pose proof (slice_bound_range (Z.of_nat idx + 1) (Z.of_nat total) e
                  ltac:(lia) ltac:(lia) ltac:(lia) Ht He) as Re.
    destruct (poll_range display idx s e _ _ _ _ _ ltac:(lia) Hpoll) as [P1 P2].
    rewrite !forwarded_app, run_events_forwarded.
    assert (Hnew : Forall (fun v => s <= v /\ v <= e) ((s :: forwarded evs) ++ forwarded tail)).
    { apply Forall_app. split.
      - constructor; [lia|]. eapply Forall_impl; [|exact P1]. simpl; intros; lia.
      - destruct Htail as [-> | ->]; [constructor|]. constructor; [lia | constructor]. }
    assert (Hsorted : nondecreasing ((s :: forwarded evs) ++ forwarded tail)).
    { apply nondecreasing_app.
      - apply nondecreasing_cons; [|assumption].
        eapply Forall_impl; [|exact P1]. simpl; intros; lia.
      - destruct Htail as [-> | ->]; cbn; auto.
      - intros x y Hx Hy. destruct Htail as [E | E]; rewrite E in Hy; [contradiction|].
        destruct Hy as [<-|[]].
        destruct Hx as [<-|Hx]; [lia|]. rewrite Forall_forall in P1.
        apply P1 in Hx. lia. }
    split; [assumption|]. split.
    - apply nondecreasing_app; auto.
      intros x y Hx Hy. pose proof (Sb s Hs) as Hbelow.
      rewrite Forall_forall in Hbelow, Hnew. apply Hbelow in Hx. apply Hnew in Hy. lia.
    - apply Forall_app. split.
      + eapply Forall_impl; [|exact (Sb s Hs)]. simpl; intros; lia.
      + eapply Forall_impl; [|exact Hnew]. simpl; intros; lia. }
  destruct Hp as [Hex | e Hex _ | out Hex Ho Hl
                 | out s e evs Hex Ho Hl Hs He Hpoll
                 | out s e evs Hex Ho Hl Hs He Hpoll Hrc
                 | out s e evs Hex Ho Hl Hs He Hpoll Hrc].
  - apply Unchanged. reflexivity.
  - assumption.
  - apply Unchanged. reflexivity.
  - cbn [emit trace].
    destruct (Ran out s e evs true
                [UnlinkOutput idx out; PbarClose; NotifyCancelled (S idx) total]
                Hs He Hpoll) as (_ & R1 & _); [left; reflexivity | exact R1].
  - destruct (Ran out s e evs false [UnlinkOutput idx out] Hs He Hpoll) as (Hse & R1 & R2);
      [left; reflexivity|].
    constructor; cbn [trace].
    + assumption.
    + intros b Eb. replace (Z.of_nat (S idx)) with (Z.of_nat idx + 1) in Eb by lia.
      rewrite He in Eb. inversion Eb; subst b. assumption.
    + intros v a b _ Hin _. exfalso. replace (S idx - 1)%nat with idx in Hin by lia.
      apply in_app_or in Hin. destruct Hin as [Hin|Hin].
      * eapply well_indexed_no_event; [apply (bp_indexed _ _ _ Hb) | | exact Hin]. reflexivity.
      * apply in_app_or in Hin. destruct Hin as [Hin|[Hin|[]]]; [|discriminate].
        unfold run_events in Hin. cbn [app] in Hin.
        destruct Hin as [Hin|[Hin|[Hin|Hin]]]; try discriminate.
        apply in_app_or in Hin. destruct Hin as [Hin|[Hin|[Hin|[]]]]; try discriminate.
        pose proof (poll_events_kind _ _ _ _ _ _ _ _ _ Hpoll) as K.
        rewrite Forall_forall in K. destruct (K _ Hin) as [(v' & a' & E)|E]; discriminate.
  - destruct (Ran out s e evs false
                [PbarSet idx Finishing e (pbar_set display (done_alive (env idx)))]
                Hs He Hpoll) as (Hse & R1 & R2); [right; reflexivity|].
    constructor; cbn [trace].
    + assumption.
    + intros b Eb. replace (Z.of_nat (S idx)) with (Z.of_nat idx + 1) in Eb by lia.
      rewrite He in Eb. inversion Eb; subst b. assumption.
    + intros v a b _ _ Eb. replace (Z.of_nat (S idx)) with (Z.of_nat idx + 1) in Eb by lia.
      rewrite He in Eb. inversion Eb; subst b.
      rewrite !last_forwarded_app. reflexivity.
Qed.

Lemma initial_sweep total : sweep total 0 initial_state.
Proof.
  constructor; cbn.
  - exact I.
  - intros. constructor.
  - intros. lia.
Qed.

(* ------------------------------------------------------------------ *)
(** ** The whole call *)

Lemma run_loop_sweep display env files fmt st fl :
  Z.of_nat (List.length files) <= 2 ^ 40 ->
  run_loop display (List.length files) fmt env 0 files initial_state = (st, fl) ->
  match fl with
  | Next => between_passes env (List.length files) st
            /\ sweep (List.length files) (List.length files) st
  | _ => nondecreasing (forwarded (trace st))
  end.
Proof.
  intros Ht H.
  pose proof (run_loop_inv display (List.length files) fmt env
                (fun idx st => between_passes env idx st
                               /\ sweep (List.length files) idx st)
                (fun st fl => nondecreasing (forwarded (trace st)))) as R.
  apply (R) with (files := files) (idx := 0%nat) (st := initial_state).
  - intros idx fp s s' f Hi [Hb Hs] Hp.
    pose proof (step_between_passes display _ fmt env idx fp s s' f Hi Hb Hp) as S1.
    pose proof (step_sweep display _ fmt env idx fp s s' f Ht Hi Hb Hs Hp) as S2.
    destruct f; auto.
  - reflexivity.
  - split; [apply initial_between | apply initial_sweep].
  - assumption.
Qed.

Lemma final_report_trace total st :
  exists tail, trace (final_report total st) = trace st ++ PbarClose :: tail /\
    forwarded tail = [] /\ count_close tail = 0%nat /\
    (forall live, live_progress live tail = live) /\
    Forall undisturbed tail /\
    Forall (fun e => event_idx e = None) tail /\
    errors (final_report total st) = errors st /\
    done (final_report total st) = done st.
Proof.
  unfold final_report. cbn [emit errors done trace].
  destruct (errors st) as [|m ms] eqn:E.
  - destruct (Nat.ltb 0 (done st)); cbn [emit errors done trace].
    + exists [NotifyDone (done st)]. rewrite <- app_assoc.
      repeat split; try reflexivity; try (intros; reflexivity); try exact E;
        repeat constructor.
    + exists []. repeat split; try reflexivity; try (intros; reflexivity); try exact E;
        constructor.
  - cbn [emit errors done trace].
    eexists [_]. rewrite <- app_assoc.
    repeat split; try reflexivity; try (intros; reflexivity); try exact E;
        repeat constructor.
Qed.

Lemma undisturbed_no_false tr i v :
  Forall undisturbed tr -> ~ In (PbarSet i Converting v false) tr.
Proof.
  intros H Hin. rewrite Forall_forall in H. exact (H _ Hin).
Qed.

Lemma convert_files_cases display env files fmt st fl :
  convert_files display env files fmt = (st, fl) ->
  match fl with
  | Next => exists st0,
      run_loop display (List.length files) fmt env 0 files initial_state = (st0, Next)
      /\ st = final_report (List.length files) st0
  | _ => run_loop display (List.length files) fmt env 0 files initial_state = (st, fl)
  end.
Proof.
  unfold convert_files.
  destruct (run_loop display (List.length files) fmt env 0 files initial_state)
    as [st0 fl0].
  destruct fl0; intros H; inversion H; subst; eauto.
Qed.

(* ------------------------------------------------------------------ *)
(** ** The updates of a task and its slice *)

Lemma in_forwarded i ph v a tr :
  In (PbarSet i ph v a) tr -> In v (forwarded tr).
Proof.
  induction tr as [|e tr IH]; [intros []|].
  intros [-> | H]; [left; reflexivity|].
  destruct e; cbn [forwarded]; auto. right. auto.
Qed.

Lemma slice_pair idx total :
  (idx < total)%nat -> Z.of_nat total <= 2 ^ 40 ->
  forall s e,
    slice_bound (Z.of_nat idx) (Z.of_nat total) = Ok s ->
    slice_bound (Z.of_nat idx + 1) (Z.of_nat total) = Ok e ->
    0 <= s /\ s <= e /\ e <= 100.
Proof.
  intros Hidx Ht s e Es Ee.
  assert (Hs := slice_bound_range (Z.of_nat idx) (Z.of_nat total) s).
  assert (He := slice_bound_range (Z.of_nat idx + 1) (Z.of_nat total) e).
  assert (Hm := slice_bound_mono (Z.of_nat idx) (Z.of_nat idx + 1)
                  (Z.of_nat total) s e).
  specialize (Hs ltac:(lia) ltac:(lia) ltac:(lia) Ht Es).
  specialize (He ltac:(lia) ltac:(lia) ltac:(lia) Ht Ee).
  specialize (Hm ltac:(lia) ltac:(lia) ltac:(lia) Ht Es Ee).
  lia.
Qed.

Lemma run_events_own_slice display total idx te out s e evs c :
  (idx < total)%nat -> Z.of_nat total <= 2 ^ 40 ->
  slice_bound (Z.of_nat idx) (Z.of_nat total) = Ok s ->
  slice_bound (Z.of_nat idx + 1) (Z.of_nat total) = Ok e ->
  poll_loop display idx s e (duration te) s (ticks te) = (evs, c) ->
  Forall (in_own_slice total) (run_events display idx te out s evs).
Proof.
  intros Hidx Ht Es Ee Hpoll.
  destruct (slice_pair idx total Hidx Ht s e Es Ee) as (H0 & Hse & H100).
  unfold run_events.
  apply Forall_cons.
  { cbn. exists s, e. repeat split; auto; lia. }
  apply Forall_cons; [exact I|]. apply Forall_cons; [exact I|].
  apply Forall_app. split; [|repeat constructor].
  pose proof (poll_events_kind _ _ _ _ _ _ _ _ _ Hpoll) as Hk.
  assert (Hw : 0 <= e - s <= 100) by lia.
  destruct (poll_range _ _ _ _ _ _ _ _ _ Hw Hpoll) as [Hr _].
  rewrite Forall_forall in Hk, Hr. apply Forall_forall. intros ev Hin.
  destruct (Hk ev Hin) as [(v & a & ->) | ->]; [|exact I].
  cbn. exists s, e. split; [exact Es|]. split; [exact Ee|].
  specialize (Hr v (in_forwarded _ _ _ _ _ Hin)). cbn in Hr. lia.
Qed.

Lemma pass_own_slice display total fmt idx filepath te st st' fl :
  (idx < total)%nat -> Z.of_nat total <= 2 ^ 40 ->
  Forall (in_own_slice total) (trace st) ->
  pass display total fmt idx filepath te st st' fl ->
  Forall (in_own_slice total) (trace st').
Proof.
  intros Hidx Ht HP Hp.
  destruct Hp as [Hex | e Hex _ | out Hex Ho Hl
                 | out s e evs Hex Ho Hl Hs He Hpoll
                 | out s e evs Hex Ho Hl Hs He Hpoll Hrc
                 | out s e evs Hex Ho Hl Hs He Hpoll Hrc];
    cbn [add_error emit trace]; auto.
  - apply Forall_app. split; [assumption|]. apply Forall_app. split.
    + eapply run_events_own_slice; eassumption.
    + repeat constructor.
  - apply Forall_app. split; [assumption|]. apply Forall_app. split.
    + eapply run_events_own_slice; eassumption.
    + repeat constructor.
  - apply Forall_app. split; [assumption|]. apply Forall_app. split.
    + eapply run_events_own_slice; eassumption.
    + destruct (slice_pair idx total Hidx Ht s e Hs He) as (H0 & Hse & H100).
      apply Forall_cons; [|constructor].
      cbn. exists s, e. repeat split; auto; lia.
Qed.

Lemma run_loop_own_slice display env files fmt st fl :
  Z.of_nat (List.length files) <= 2 ^ 40 ->
  run_loop display (List.length files) fmt env 0 files initial_state = (st, fl) ->
  Forall (in_own_slice (List.length files)) (trace st).
Proof.
  intros Ht Hrun.
  pose proof (run_loop_inv display (List.length files) fmt env
                (fun _ st => Forall (in_own_slice (List.length files)) (trace st))
                (fun st _ => Forall (in_own_slice (List.length files)) (trace st)))
    as Inv.
  assert (G : match fl with
              | Next => Forall (in_own_slice (List.length files)) (trace st)
              | _ => Forall (in_own_slice (List.length files)) (trace st)
              end).
  { apply (fun H => Inv H files 0%nat initial_state st fl);
      [| reflexivity | repeat constructor | exact Hrun].
    intros idx filepath st0 st' fl' Hidx HP Hp.
    pose proof (pass_own_slice _ _ _ _ _ _ _ _ _ Hidx Ht HP Hp) as Hgoal.
    destruct fl'; exact Hgoal. }
  destruct fl; exact G.
Qed.

Lemma forwarded_in v tr :
  In v (forwarded tr) -> exists i ph a, In (PbarSet i ph v a) tr.
Proof.
  induction tr as [|e tr IH]; [intros []|].
  destruct e; cbn [forwarded]; intros H;
    try (destruct (IH H) as (i & ph & a & Hin); exists i, ph, a; right; exact Hin).
  destruct H as [<- | H].
  - exists idx, ph, alive. left. reflexivity.
  - destruct (IH H) as (i & ph' & a & Hin). exists i, ph', a. right. exact Hin.
Qed.

(** Only the last bound of a batch is 100. *)
Lemma slice_bound_inner k total b :
  0 <= k -> k < total -> total <= 2 ^ 40 ->
  slice_bound k total = Ok b -> b < 100.
Proof.
  intros Hk Hlt Ht E.
  pose proof (slice_bound_near_floor k total b Hk ltac:(lia) ltac:(lia) Ht E) as [_ H].
  unfold spec_slice_bound in H.
  assert (k * 100 / total < 100) by (apply Z.div_lt_upper_bound; lia).
  lia.
Qed.

Lemma nondecreasing_last l :
  forall x, nondecreasing l -> In x l ->
  exists v rest, rev l = v :: rest /\ x <= v.
Proof.
  induction l as [|y l IH]; [intros x _ []|].
  intros x [Hhd Hs] Hin. destruct l as [|z l'].
  - destruct Hin as [<- | []]. exists y, []. split; [reflexivity | lia].
  - assert (Hz : exists v rest, rev (z :: l') = v :: rest /\ z <= v)
      by (apply (IH z); [exact Hs | left; reflexivity]).
    destruct Hin as [<- | Hin].
    + destruct Hz as (v & rest & E & Hv).
      exists v, (rest ++ [y]). split; [|lia].
      change (rev (y :: z :: l')) with (rev (z :: l') ++ [y]). rewrite E. reflexivity.
    + destruct (IH x Hs Hin) as (v & rest & E & Hv).
      exists v, (rest ++ [y]). split; [|lia].
      change (rev (y :: z :: l')) with (rev (z :: l') ++ [y]). rewrite E. reflexivity.
Qed.

(** The "Preparing" update of a task carries the start of its slice. *)
Lemma pass_prepared display total fmt idx filepath te st st' fl :
  Forall (prepared_at_start total) (trace st) ->
  pass display total fmt idx filepath te st st' fl ->
  Forall (prepared_at_start total) (trace st').
Proof.
  intros HP Hp.
  assert (Run : forall out s e evs c,
            slice_bound (Z.of_nat idx) (Z.of_nat total) = Ok s ->
            poll_loop display idx s e (duration te) s (ticks te) = (evs, c) ->
            Forall (prepared_at_start total) (run_events display idx te out s evs)).
  { intros out s e evs c Es Hpoll. unfold run_events.
    apply Forall_cons; [exact Es|].
    apply Forall_cons; [exact I|]. apply Forall_cons; [exact I|].
    apply Forall_app. split; [|repeat constructor].
    pose proof (poll_events_kind _ _ _ _ _ _ _ _ _ Hpoll) as Hk.
    eapply Forall_impl; [|exact Hk].
    intros x [(v & a & ->) | ->]; exact I. }
  destruct Hp as [Hex | e Hex _ | out Hex Ho Hl
                 | out s e evs Hex Ho Hl Hs He Hpoll
                 | out s e evs Hex Ho Hl Hs He Hpoll Hrc
                 | out s e evs Hex Ho Hl Hs He Hpoll Hrc];
    cbn [add_error emit trace]; auto.
  - apply Forall_app. split; [assumption|]. apply Forall_app. split.
    + eapply Run; eassumption.
    + repeat constructor.
  - apply Forall_app. split; [assumption|]. apply Forall_app. split.
    + eapply Run; eassumption.
    + repeat constructor.
  - apply Forall_app. split; [assumption|]. apply Forall_app. split.
    + eapply Run; eassumption.
    + repeat constructor.
Qed.

Lemma run_loop_prepared display env files fmt st fl :
  run_loop display (List.length files) fmt env 0 files initial_state = (st, fl) ->
  Forall (prepared_at_start (List.length files)) (trace st).
Proof.
  intros Hrun.
  pose proof (run_loop_inv display (List.length files) fmt env
                (fun _ st => Forall (prepared_at_start (List.length files)) (trace st))
                (fun st _ => Forall (prepared_at_start (List.length files)) (trace st)))
    as Inv.
  assert (G : match fl with
              | Next => Forall (prepared_at_start (List.length files)) (trace st)
              | _ => Forall (prepared_at_start (List.length files)) (trace st)
              end).
  { apply (fun H => Inv H files 0%nat initial_state st fl);
      [| reflexivity | repeat constructor | exact Hrun].
    intros idx filepath st0 st' fl' Hidx HP Hp.
    pose proof (pass_prepared _ _ _ _ _ _ _ _ _ HP Hp) as Hgoal.
    destruct fl'; exact Hgoal. }
  destruct fl; exact G.
Qed.

(* ------------------------------------------------------------------ *)
(** ** The progress file of a task *)

Lemma spawns_paired_app tr evs :
  spawns_paired tr -> (forall i o, ~ In (Spawn i o) evs) ->
  spawns_paired (tr ++ evs).
Proof.
  intros H Hno i o Hin. apply in_app_or in Hin.
  destruct Hin as [Hin | Hin]; [|destruct (Hno i o Hin)].
  destruct (H i o Hin) as (pre & polled & post & E & Hk).
  exists pre, polled, (post ++ evs). split; [|exact Hk].
  rewrite E. rewrite <- !app_assoc. reflexivity.
Qed.

Lemma spawns_paired_run display idx te out s e evs c tr tail :
  poll_loop display idx s e (duration te) s (ticks te) = (evs, c) ->
  spawns_paired tr -> (forall i o, ~ In (Spawn i o) tail) ->
  spawns_paired (tr ++ run_events display idx te out s evs ++ tail).
Proof.
  intros Hpoll H Hno i o Hin.
  pose proof (poll_events_kind _ _ _ _ _ _ _ _ _ Hpoll) as Hk.
  apply in_app_or in Hin. destruct Hin as [Hin | Hin].
  - destruct (H i o Hin) as (pre & polled & post & E & Hk').
    exists pre, polled, (post ++ run_events display idx te out s evs ++ tail).
    split; [|exact Hk']. rewrite E. rewrite <- !app_assoc. reflexivity.
  - assert (E : i = idx /\ o = out).
    { apply in_app_or in Hin. destruct Hin as [Hin | Hin]; [|destruct (Hno i o Hin)].
      unfold run_events in Hin. cbn [app] in Hin.
      destruct Hin as [Hin | [Hin | [Hin | Hin]]]; try discriminate.
      - inversion Hin; auto.
      - apply in_app_or in Hin. destruct Hin as [Hin | Hin].
        + rewrite Forall_forall in Hk.
          destruct (Hk _ Hin) as [(v & a & Hx) | Hx]; discriminate.
        + destruct Hin as [Hin | [Hin | []]]; discriminate. }
    destruct E as [-> ->].
    exists (tr ++ [PbarSet idx Preparing s (pbar_set display (prepare_alive te))]),
           evs, tail.
    split; [|exact Hk].
    unfold run_events. rewrite <- !app_assoc. reflexivity.
Qed.

Lemma pass_spawns_paired display total fmt idx filepath te st st' fl :
  spawns_paired (trace st) ->
  pass display total fmt idx filepath te st st' fl ->
  spawns_paired (trace st').
Proof.
  intros HP Hp.
  destruct Hp as [Hex | e Hex _ | out Hex Ho Hl
                 | out s e evs Hex Ho Hl Hs He Hpoll
                 | out s e evs Hex Ho Hl Hs He Hpoll Hrc
                 | out s e evs Hex Ho Hl Hs He Hpoll Hrc];
    cbn [add_error emit trace]; auto.
  - eapply spawns_paired_run; [eassumption | assumption|].
    intros i o Hin. repeat (destruct Hin as [Hin | Hin]; try discriminate). contradiction.
  - eapply spawns_paired_run; [eassumption | assumption|].
    intros i o Hin. repeat (destruct Hin as [Hin | Hin]; try discriminate). contradiction.
  - eapply spawns_paired_run; [eassumption | assumption|].
    intros i o Hin. repeat (destruct Hin as [Hin | Hin]; try discriminate). contradiction.
Qed.

Lemma run_loop_spawns_paired display env files fmt st fl :
  run_loop display (List.length files) fmt env 0 files initial_state = (st, fl) ->
  spawns_paired (trace st).
Proof.
  intros Hrun.
  pose proof (run_loop_inv display (List.length files) fmt env
                (fun _ st => spawns_paired (trace st))
                (fun st _ => spawns_paired (trace st)))
    as Inv.
  assert (G : match fl with
              | Next => spawns_paired (trace st)
              | _ => spawns_paired (trace st)
              end).
  { apply (fun H => Inv H files 0%nat initial_state st fl);
      [| reflexivity | | exact Hrun].
    - intros idx filepath st0 st' fl' Hidx HP Hp.
      pose proof (pass_spawns_paired _ _ _ _ _ _ _ _ _ HP Hp) as Hgoal.
      destruct fl'; exact Hgoal.
    - intros i o Hin. destruct Hin as [Hin | []]. discriminate. }
  destruct fl; exact G.
Qed.

(* ------------------------------------------------------------------ *)
(** ** What the specification says of the loop *)

(** C1 (the code departs from it): the bound of a slice is computed with
    double-precision arithmetic, [int(k / total * 100)], and for the 30th
    of 50 files it is 57 where the floor of 29 * 100 / 50 is 58; in the
    same way 2.9 seconds of a 10 second file give 28 percent, not 29.  A
    bound is never further than one below the floor
    ([slice_bound_near_floor]). *)
Theorem slice_bound_off_by_one :
  slice_bound 29 50 <> Ok (spec_slice_bound 29 50) /\
  slice_bound 29 50 = Ok 57 /\ spec_slice_bound 29 50 = 58 /\
  slice_bound 28 50 = Ok 56 /\ slice_bound 30 50 = Ok 60 /\
  overall_percent 0 100 (fconst 10) 2900000 = Ok 28.
Proof. vm_compute. split; [discriminate | repeat split; reflexivity]. Qed.

(** C2, as stated, fails: a batch of one file whose encoder exits with
    code 1 runs to its end without cancellation, and the only value
    forwarded is 0. *)
Lemma final_value_not_100 :
  snd (convert_files true env_one_failure [lit "a.wav"] (lit "mp3")) = Next /\
  forwarded (trace (fst (convert_files true env_one_failure [lit "a.wav"] (lit "mp3"))))
    = [0] /\
  last_forwarded None
    (trace (fst (convert_files true env_one_failure [lit "a.wav"] (lit "mp3"))))
    <> Some 100.
Proof. vm_compute. repeat split; discriminate. Qed.

Lemma final_report_forwarded total st :
  forwarded (trace (final_report total st)) = forwarded (trace st).
Proof.
  destruct (final_report_trace total st) as (tail & Etr & Hfw & _).
  rewrite Etr, forwarded_app. cbn [forwarded]. rewrite Hfw. apply app_nil_r.
Qed.

(** In a batch of at most 2^40 files no update is lower than the one
    before, however the batch ends. *)
Lemma convert_files_sorted display env files fmt st fl :
  Z.of_nat (List.length files) <= 2 ^ 40 ->
  convert_files display env files fmt = (st, fl) ->
  nondecreasing (forwarded (trace st)).
Proof.
  intros Ht H. apply convert_files_cases in H. destruct fl.
  - destruct H as (st0 & Hrun & ->). rewrite final_report_forwarded.
    pose proof (run_loop_sweep _ _ _ _ _ _ Ht Hrun) as [_ [Ss _ _]]. exact Ss.
  - apply (run_loop_sweep _ _ _ _ _ _ Ht H).
  - apply (run_loop_sweep _ _ _ _ _ _ Ht H).
Qed.

(** The last value can be 100 without the last file being converted: the
    encoder may fail after an update of the polling loop has reached the
    end of the slice. *)
Lemma final_value_100_after_failure :
  convert_files true
    (fun _ => mkEnv true true (Some (fconst 10)) true
                [mkTick (Some (progress_record "10000000")) true] 1 [] true)
    [lit "a.wav"] (lit "mp3")
  = (mkState [lit "a.wav:" ++ [ch_newline]] 0
       [PbarOpen; PbarSet 0 Preparing 0 true; MkTemp 0;
        Spawn 0 (mkPath [] [lit "a.mp3"]); PbarSet 0 Converting 100 true;
        Wait 0; UnlinkProgress 0; UnlinkOutput 0 (mkPath [] [lit "a.mp3"]);
        PbarClose; ErrorDialog 0 1 1], Next).
Proof. vm_compute. reflexivity. Qed.

(** The updates of a batch that ran to its end are those of the loop. *)
Lemma final_report_updates total st0 i ph v a :
  In (PbarSet i ph v a) (trace (final_report total st0)) ->
  In (PbarSet i ph v a) (trace st0).
Proof.
  destruct (final_report_trace total st0) as (tail & Etr & _ & _ & _ & _ & Hnone & _).
  rewrite Etr. intros Hin. apply in_app_or in Hin.
  destruct Hin as [Hin | [Hin | Hin]]; [assumption | discriminate |].
  rewrite Forall_forall in Hnone. specialize (Hnone _ Hin). discriminate.
Qed.

(** An update of a batch that ran to its end belongs to a task of the
    batch and lies in its slice, between 0 and 100. *)
Lemma completed_update_in_slice display env files fmt st0 i ph v a :
  Z.of_nat (List.length files) <= 2 ^ 40 ->
  run_loop display (List.length files) fmt env 0 files initial_state = (st0, Next) ->
  In (PbarSet i ph v a) (trace st0) ->
  (i < List.length files)%nat /\
  exists s e,
    slice_bound (Z.of_nat i) (Z.of_nat (List.length files)) = Ok s /\
    slice_bound (Z.of_nat i + 1) (Z.of_nat (List.length files)) = Ok e /\
    s <= v <= e /\ 0 <= s /\ e <= 100.
Proof.
  intros Ht Hrun Hin.
  pose proof (run_loop_own_slice _ _ _ _ _ _ Ht Hrun) as Hown.
  rewrite Forall_forall in Hown. specialize (Hown _ Hin). cbn in Hown.
  destruct Hown as (s & e & Es & Ee & Hv).
  pose proof (run_loop_end _ _ _ _ _ _ Hrun) as Hend. cbn in Hend.
  pose proof (bp_indexed _ _ _ Hend) as Hw. unfold well_indexed in Hw.
  rewrite Forall_forall in Hw. destruct (Hw _ Hin i eq_refl) as [Hi _].
  split; [exact Hi|].
  destruct (slice_pair i _ Hi Ht s e Es Ee) as (H0 & Hse & H100).
  exists s, e. repeat split; auto; lia.
Qed.

(** C2, amended: over a batch (of at most 2^40 files) that runs to its
    end without cancellation the values passed to [pbar_set] never
    decrease and lie between 0 and 100; the last of them is 100 whenever
    the last file of the batch was converted (its "Done" update was
    sent), and it is 100 exactly when an update of the last file other
    than "Preparing" carried the value 100: its "Done" update, or an
    update of the polling loop that reached the end of the slice before
    the encoder failed. *)
Theorem forwarded_sorted_final_100 display env files fmt st :
  Z.of_nat (List.length files) <= 2 ^ 40 ->
  convert_files display env files fmt = (st, Next) ->
  nondecreasing (forwarded (trace st)) /\
  Forall (fun v => 0 <= v <= 100) (forwarded (trace st)) /\
  (forall v a, In (PbarSet (List.length files - 1) Finishing v a) (trace st) ->
     last_forwarded None (trace st) = Some 100) /\
  (last_forwarded None (trace st) = Some 100 <->
   exists ph a, ph <> Preparing /\
     In (PbarSet (List.length files - 1) ph 100 a) (trace st)).
Proof.
  intros Ht H.
  pose proof (convert_files_sorted _ _ _ _ _ _ Ht H) as Hsorted.
  apply convert_files_cases in H. destruct H as (st0 & Hrun & ->).
  assert (Hrange : Forall (fun v => 0 <= v <= 100)
                     (forwarded (trace (final_report (List.length files) st0)))).
  { apply Forall_forall. intros v Hv.
    destruct (forwarded_in _ _ Hv) as (i & ph & a & Hin).
    apply final_report_updates in Hin.
    destruct (completed_update_in_slice _ _ _ _ _ _ _ _ _ Ht Hrun Hin)
      as (_ & s & e & _ & _ & Hv' & H0 & H100). lia. }
  assert (Hlast : forall ph a,
            In (PbarSet (List.length files - 1) ph 100 a)
               (trace (final_report (List.length files) st0)) ->
            last_forwarded None (trace (final_report (List.length files) st0))
              = Some 100).
  { intros ph a Hin. apply in_forwarded in Hin.
    destruct (nondecreasing_last _ _ Hsorted Hin) as (v & rest & E & Hv).
    rewrite last_forwarded_spec, E. f_equal.
    assert (Hinv : In v (forwarded (trace (final_report (List.length files) st0)))).
    { apply in_rev. rewrite E. left. reflexivity. }
    rewrite Forall_forall in Hrange. specialize (Hrange _ Hinv). lia. }
  split; [exact Hsorted|]. split; [exact Hrange|]. split.
  - intros v a Hin.
    pose proof (run_loop_sweep _ _ _ _ _ _ Ht Hrun) as [Hb [Ss Sb Sl]].
    rewrite last_forwarded_spec, final_report_forwarded, <- last_forwarded_spec.
    apply final_report_updates in Hin.
    destruct (Nat.eq_dec (List.length files) 0) as [E0|Hn0].
    + exfalso. destruct files; [|discriminate]. cbn in Hrun. inversion Hrun; subst st0.
      cbn in Hin. destruct Hin as [Hin|[]]. discriminate.
    + apply (Sl v a 100); [lia | assumption|].
      apply slice_bound_full. pose proof pow40_lt_pow53. lia.
  - split.
    + intros Hl. rewrite last_forwarded_spec in Hl.
      destruct (rev (forwarded (trace (final_report (List.length files) st0))))
        as [|w rest] eqn:E; [discriminate|].
      inversion Hl; subst w.
      assert (Hin : In 100 (forwarded (trace (final_report (List.length files) st0)))).
      { apply in_rev. rewrite E. left. reflexivity. }
      destruct (forwarded_in _ _ Hin) as (i & ph & a & Hev).
      pose proof (final_report_updates _ _ _ _ _ _ Hev) as Hev0.
      destruct (completed_update_in_slice _ _ _ _ _ _ _ _ _ Ht Hrun Hev0)
        as (Hi & s & e & Es & Ee & Hv' & H0 & H100).
      assert (Ei : i = (List.length files - 1)%nat).
      { destruct (Nat.eq_dec (S i) (List.length files)) as [|Hne]; [lia|].
        exfalso.
        assert (K1 : 0 <= Z.of_nat i + 1) by lia.
        assert (K2 : Z.of_nat i + 1 < Z.of_nat (List.length files)) by lia.
        pose proof (slice_bound_inner _ _ _ K1 K2 Ht Ee). lia. }
      subst i. exists ph, a. split; [|exact Hev].
      intros ->.
      pose proof (run_loop_prepared _ _ _ _ _ _ Hrun) as Hp.
      rewrite Forall_forall in Hp. specialize (Hp _ Hev0). cbn in Hp.
      assert (K1 : 0 <= Z.of_nat (List.length files - 1)) by lia.
      assert (K2 : Z.of_nat (List.length files - 1) < Z.of_nat (List.length files))
        by lia.
      pose proof (slice_bound_inner _ _ _ K1 K2 Ht Hp). lia.
    + intros (ph & a & _ & Hin). exact (Hlast ph a Hin).
Qed.

Lemma forwarded_sorted_final_100_witness :
  Z.of_nat (List.length two_files) <= 2 ^ 40 /\
  convert_files true env_two_done two_files (lit "mp3")
    = (fst (convert_files true env_two_done two_files (lit "mp3")), Next) /\
  forwarded (trace (fst (convert_files true env_two_done two_files (lit "mp3"))))
    = [0; 25; 50; 50; 75; 100] /\
  nondecreasing
    (forwarded (trace (fst (convert_files true env_two_done two_files (lit "mp3"))))) /\
  last_forwarded None
    (trace (fst (convert_files true env_two_done two_files (lit "mp3")))) = Some 100.
Proof.
  assert (H1 : Z.of_nat (List.length two_files) <= 2 ^ 40) by (vm_compute; discriminate).
  assert (H2 : convert_files true env_two_done two_files (lit "mp3")
    = (fst (convert_files true env_two_done two_files (lit "mp3")), Next))
    by (vm_compute; reflexivity).
  split; [exact H1|]. split; [exact H2|]. split; [vm_compute; reflexivity|].
  pose proof (forwarded_sorted_final_100 true env_two_done two_files (lit "mp3") _ H1 H2)
    as (Hs & _ & Hl & _).
  split; [exact Hs|].
  apply (Hl 100 true). vm_compute. repeat (first [left; reflexivity | right]).
Defined.

(** C3, as stated, fails: with two files that are both converted and no
    progress record, the "Preparing" update of the second file repeats
    the 50 that the "Done" update of the first has just sent. *)
Lemma update_repeats_last_value :
  forwarded (trace (fst (convert_files true env_two_quiet two_files (lit "mp3"))))
  = [0; 50; 50; 100].
Proof. vm_compute. reflexivity. Qed.

(** C3, amended: an update sent from the polling loop is strictly greater
    than the value sent just before it; the "Preparing" and "Done"
    updates are sent unconditionally and may repeat that value; no update
    (in a batch of at most 2^40 files) is lower than the one before. *)
Theorem poll_updates_strictly_greater display env files fmt st fl :
  convert_files display env files fmt = (st, fl) ->
  filter_respected None (trace st) /\
  (Z.of_nat (List.length files) <= 2 ^ 40 ->
   nondecreasing (forwarded (trace st))).
Proof.
  intros H. pose proof (convert_files_cases _ _ _ _ _ _ H) as Hc. split.
  - destruct fl.
    + destruct Hc as (st0 & Hrun & ->). apply run_loop_end in Hrun. cbn in Hrun.
      destruct (final_report_trace (List.length files) st0)
        as (tail & Etr & Hfw & _ & _ & _ & Hnone & _).
      rewrite Etr. apply filter_respected_app. split; [apply (bp_filter _ _ _ Hrun)|].
      cbn [filter_respected]. clear Etr Hfw.
      induction Hnone as [|e tl He _ IH]; [exact I|].
      destruct e; try discriminate; exact IH.
    + apply run_loop_end in Hc. destruct Hc as (idx & pre & v & out & Hca).
      apply (ca_filter _ _ _ _ _ _ _ Hca).
    + apply run_loop_end in Hc. destruct Hc as (idx & _ & Hb). apply (bp_filter _ _ _ Hb).
  - intros Ht. eapply convert_files_sorted; eassumption.
Qed.

Lemma poll_updates_strictly_greater_witness :
  convert_files true env_two_done two_files (lit "mp3")
    = (fst (convert_files true env_two_done two_files (lit "mp3")), Next) /\
  filter_respected None
    (trace (fst (convert_files true env_two_done two_files (lit "mp3")))) /\
  (Z.of_nat (List.length two_files) <= 2 ^ 40 ->
   nondecreasing
     (forwarded (trace (fst (convert_files true env_two_done two_files (lit "mp3")))))).
Proof.
  split; [vm_compute; reflexivity|].
  apply (poll_updates_strictly_greater true env_two_done two_files (lit "mp3") _ Next).
  vm_compute. reflexivity.
Defined.

(** C4, as stated, fails: the first of two files fails (exit code 1) and
    the second is cancelled from the polling loop; the batch is cancelled
    in task 2 with no file done, not 2 - 1.  And an update that is not
    sent from the polling loop may be answered "not alive" without any
    effect: the file is converted and nothing is killed. *)
Lemma cancelled_done_not_k_minus_1 :
  (snd (convert_files true env_fail_then_cancel two_files (lit "mp3")) = Cancelled /\
   In (PbarSet 1 Converting 75 false)
      (trace (fst (convert_files true env_fail_then_cancel two_files (lit "mp3")))) /\
   done (fst (convert_files true env_fail_then_cancel two_files (lit "mp3"))) = 0%nat /\
   done (fst (convert_files true env_fail_then_cancel two_files (lit "mp3")))
     <> (2 - 1)%nat) /\
  (convert_files true (fun _ => silent_task) [lit "a.wav"] (lit "mp3")
   = (mkState [] 1
        [PbarOpen; PbarSet 0 Preparing 0 false; MkTemp 0;
         Spawn 0 (mkPath [] [lit "a.mp3"]); Wait 0; UnlinkProgress 0;
         PbarSet 0 Finishing 100 false; PbarClose; NotifyDone 1], Next)).
Proof.
  vm_compute. split; [|reflexivity].
  split; [reflexivity|]. split; [|split; [reflexivity | discriminate]].
  repeat (first [left; reflexivity | right]).
Qed.

(** C4, amended: when an update sent from the polling loop of task
    [idx + 1] is answered "not alive", the encoder is killed at once (the
    next event is the kill), its output file is unlinked, the display is
    closed, [convert_files] returns from the cancellation path, no event
    of a later task exists, and [done] counts the earlier tasks that were
    converted, which is at most [idx] and is [idx] only if all of them
    were. *)
Theorem cancellation_stops_batch display env files fmt st fl idx v :
  convert_files display env files fmt = (st, fl) ->
  In (PbarSet idx Converting v false) (trace st) ->
  fl = Cancelled /\
  exists pre out,
    trace st = pre ++ [PbarSet idx Converting v false; Kill idx; Wait idx;
                       UnlinkProgress idx; UnlinkOutput idx out; PbarClose;
                       NotifyCancelled (S idx) (List.length files)] /\
    well_indexed env (S idx) (trace st) /\
    done st = count_finishing pre /\ (done st <= idx)%nat.
Proof.
  intros H Hin. pose proof (convert_files_cases _ _ _ _ _ _ H) as Hc.
  destruct fl.
  - exfalso. destruct Hc as (st0 & Hrun & ->). apply run_loop_end in Hrun. cbn in Hrun.
    destruct (final_report_trace (List.length files) st0)
      as (tail & Etr & _ & _ & _ & Hu & _).
    rewrite Etr in Hin. apply in_app_or in Hin. destruct Hin as [Hin | [Hin | Hin]].
    + exact (undisturbed_no_false _ _ _ (bp_undisturbed _ _ _ Hrun) Hin).
    + discriminate.
    + exact (undisturbed_no_false _ _ _ Hu Hin).
  - split; [reflexivity|]. apply run_loop_end in Hc.
    destruct Hc as (idx' & pre & v' & out & Hca).
    pose proof (ca_trace _ _ _ _ _ _ _ Hca) as Etr.
    rewrite Etr in Hin. apply in_app_or in Hin. destruct Hin as [Hin | Hin].
    + exfalso. exact (undisturbed_no_false _ _ _ (ca_undisturbed _ _ _ _ _ _ _ Hca) Hin).
    + destruct Hin as [Hin | Hin]; [|repeat (destruct Hin as [Hin | Hin]; try discriminate);
                                      contradiction].
      inversion Hin; subst idx' v'.
      exists pre, out. split; [assumption|]. split; [apply (ca_indexed _ _ _ _ _ _ _ Hca)|].
      split; [apply (ca_done _ _ _ _ _ _ _ Hca) | apply (ca_done_le _ _ _ _ _ _ _ Hca)].
  - exfalso. apply run_loop_end in Hc. destruct Hc as (idx' & _ & Hb).
    exact (undisturbed_no_false _ _ _ (bp_undisturbed _ _ _ Hb) Hin).
Qed.

Lemma cancellation_stops_batch_witness :
  convert_files true env_fail_then_cancel two_files (lit "mp3")
    = (fst (convert_files true env_fail_then_cancel two_files (lit "mp3")), Cancelled) /\
  In (PbarSet 1 Converting 75 false)
     (trace (fst (convert_files true env_fail_then_cancel two_files (lit "mp3")))) /\
  (Cancelled = Cancelled /\
   exists pre out,
     trace (fst (convert_files true env_fail_then_cancel two_files (lit "mp3")))
       = pre ++ [PbarSet 1 Converting 75 false; Kill 1; Wait 1;
                 UnlinkProgress 1; UnlinkOutput 1 out; PbarClose;
                 NotifyCancelled 2 (List.length two_files)] /\
     well_indexed env_fail_then_cancel 2
       (trace (fst (convert_files true env_fail_then_cancel two_files (lit "mp3")))) /\
     done (fst (convert_files true env_fail_then_cancel two_files (lit "mp3")))
       = count_finishing pre /\
     (done (fst (convert_files true env_fail_then_cancel two_files (lit "mp3"))) <= 1)%nat).
Proof.
  split; [vm_compute; reflexivity|].
  split; [vm_compute; repeat (first [left; reflexivity | right])|].
  apply (cancellation_stops_batch true env_fail_then_cancel two_files (lit "mp3")).
  - vm_compute. reflexivity.
  - vm_compute. repeat (first [left; reflexivity | right]).
Defined.

(** C5, as stated, fails: the encoder writes 800 bytes of diagnostics,
    400 two-byte characters; the excerpt recorded is the decoding of all
    800 bytes, not of 400 bytes or fewer. *)
Lemma excerpt_exceeds_400_bytes :
  errors (fst (convert_files true env_fail_utf8 [lit "a.wav"] (lit "mp3")))
    = [lit "a.wav:" ++ [ch_newline] ++ repeat 233%N 400] /\
  decode_replace stderr_800 = repeat 233%N 400 /\
  List.length stderr_800 = 800%nat /\
  forallb (fun n => negb (str_eqb (decode_replace (firstn n stderr_800))
                                    (repeat 233%N 400)))
          (seq 0 401) = true.
Proof. vm_compute. repeat split; reflexivity. Qed.

(** C5, amended: when the encoder of a task exits by itself with a
    non-zero code, one entry is appended to the error list, the file name,
    a colon, a newline and the first 400 characters (code points, not
    bytes) of the decoded diagnostics; the output file is unlinked, [done]
    is unchanged and the loop goes on with the next file. *)
Theorem encode_failure_recorded display total fmt env idx filepath rest st
  out slice_start slice_end evs :
  input_exists (env idx) = true ->
  choose_output (Path filepath) fmt = Ok out ->
  lossy_accepted (env idx) = true ->
  slice_bound (Z.of_nat idx) (Z.of_nat total) = Ok slice_start ->
  slice_bound (Z.of_nat idx + 1) (Z.of_nat total) = Ok slice_end ->
  poll_loop display idx slice_start slice_end (duration (env idx)) slice_start
            (ticks (env idx)) = (evs, false) ->
  returncode (env idx) <> 0 ->
  let excerpt := firstn 400 (decode_replace (stderr (env idx))) in
  let st' :=
    mkState (errors st ++ [path_name (Path filepath) ++ lit ":" ++ [ch_newline]
                           ++ excerpt])
            (done st)
            (trace st ++ run_events display idx (env idx) out slice_start evs
             ++ [UnlinkOutput idx out]) in
  (List.length excerpt <= 400)%nat /\
  loop_body display total fmt idx filepath (env idx) st = (st', Next) /\
  run_loop display total fmt env idx (filepath :: rest) st
    = run_loop display total fmt env (S idx) rest st'.
Proof.
  intros Hex Ho Hl Hs He Hpoll Hrc excerpt st'.
  assert (Hbody : loop_body display total fmt idx filepath (env idx) st = (st', Next)).
  { unfold loop_body. rewrite Hex, Ho, Hl, Hs, He, Hpoll. cbn [negb].
    replace (returncode (env idx) =? 0) with false by (symmetry; apply Z.eqb_neq; assumption).
    cbn [negb]. unfold st', excerpt, emit, add_error, run_events. cbn [errors done trace].
    rewrite <- !app_assoc. reflexivity. }
  split; [apply firstn_le_length|]. split; [exact Hbody|].
  cbn [run_loop]. rewrite Hbody. reflexivity.
Qed.

Lemma encode_failure_recorded_witness :
  input_exists (env_fail_utf8 0) = true /\
  choose_output (Path (lit "a.wav")) (lit "mp3") = Ok (mkPath [] [lit "a.mp3"]) /\
  lossy_accepted (env_fail_utf8 0) = true /\
  slice_bound (Z.of_nat 0) (Z.of_nat 1) = Ok 0 /\
  slice_bound (Z.of_nat 0 + 1) (Z.of_nat 1) = Ok 100 /\
  poll_loop true 0 0 100 (duration (env_fail_utf8 0)) 0 (ticks (env_fail_utf8 0))
    = ([], false) /\
  returncode (env_fail_utf8 0) <> 0 /\
  (List.length (firstn 400 (decode_replace (stderr (env_fail_utf8 0)))) <= 400)%nat.
Proof.
  assert (H1 : input_exists (env_fail_utf8 0) = true) by reflexivity.
  assert (H2 : choose_output (Path (lit "a.wav")) (lit "mp3")
               = Ok (mkPath [] [lit "a.mp3"])) by (vm_compute; reflexivity).
  assert (H3 : lossy_accepted (env_fail_utf8 0) = true) by reflexivity.
  assert (H4 : slice_bound (Z.of_nat 0) (Z.of_nat 1) = Ok 0) by (vm_compute; reflexivity).
  assert (H5 : slice_bound (Z.of_nat 0 + 1) (Z.of_nat 1) = Ok 100)
    by (vm_compute; reflexivity).
  assert (H6 : poll_loop true 0 0 100 (duration (env_fail_utf8 0)) 0
                 (ticks (env_fail_utf8 0)) = ([], false)) by reflexivity.
  assert (H7 : returncode (env_fail_utf8 0) <> 0) by (vm_compute; discriminate).
  repeat (split; [assumption|]).
  exact (proj1 (encode_failure_recorded true 1 (lit "mp3") env_fail_utf8 0 (lit "a.wav") []
                  initial_state (mkPath [] [lit "a.mp3"]) 0 100 [] H1 H2 H3 H4 H5 H6 H7)).
Defined.




(** A pass that ends with [Next] keeps the events sent before it. *)
Lemma pass_trace_grows display total fmt idx filepath te st st' fl x :
  pass display total fmt idx filepath te st st' fl ->
  In x (trace st) -> In x (trace st').
Proof.
  intros Hp Hin.
  destruct Hp; cbn [add_error emit trace]; auto; apply in_or_app; left; exact Hin.
Qed.

Lemma run_loop_trace_grows display total fmt env files :
  forall idx st st' fl x,
    run_loop display total fmt env idx files st = (st', fl) ->
    In x (trace st) -> In x (trace st').
Proof.
  induction files as [|f rest IH]; intros idx st st' fl x; cbn [run_loop].
  - intros H; inversion H; subst. auto.
  - destruct (loop_body display total fmt idx f (env idx) st) as [st1 fl1] eqn:Eb.
    pose proof (loop_body_pass' _ _ _ _ _ _ _ _ _ Eb) as Hp.
    intros Hrun Hin.
    pose proof (pass_trace_grows _ _ _ _ _ _ _ _ _ x Hp Hin) as Hin1.
    destruct fl1; [eapply IH; eassumption | |]; inversion Hrun; subst; exact Hin1.
Qed.

(** The encoder is spawned for every input that exists, has an output
    path and is accepted, when the loop runs to the end of the list. *)
Lemma run_loop_spawns display total fmt env files :
  forall idx st st',
    run_loop display total fmt env idx files st = (st', Next) ->
    forall k filepath out,
      nth_error files k = Some filepath ->
      input_exists (env (idx + k)%nat) = true ->
      choose_output (Path filepath) fmt = Ok out ->
      lossy_accepted (env (idx + k)%nat) = true ->
      In (Spawn (idx + k) out) (trace st').
Proof.
  induction files as [|f rest IH]; intros idx st st'; cbn [run_loop].
  - intros _ k filepath out Hn. destruct k; discriminate.
  - destruct (loop_body display total fmt idx f (env idx) st) as [st1 fl1] eqn:Eb.
    pose proof (loop_body_pass' _ _ _ _ _ _ _ _ _ Eb) as Hp.
    destruct fl1; [|discriminate | discriminate].
    intros Hrun k filepath out Hn Hex Ho Hl. destruct k as [|k].
    + cbn in Hn. inversion Hn; subst f. rewrite Nat.add_0_r in *.
      eapply run_loop_trace_grows; [exact Hrun|].
      assert (Run : forall out' s evs tail,
                choose_output (Path filepath) fmt = Ok out' ->
                In (Spawn idx out)
                   (trace st ++ run_events display idx (env idx) out' s evs ++ tail)).
      { intros out' s evs tail Ho'. rewrite Ho in Ho'. inversion Ho'; subst out'.
        apply in_or_app. right. apply in_or_app. left.
        unfold run_events. right. right. left. reflexivity. }
      inversion Hp; subst; cbn [add_error emit trace]; try congruence;
        eapply Run; eassumption.
    + cbn in Hn. replace (idx + S k)%nat with (S idx + k)%nat in * by lia.
      eapply IH; eassumption.
Qed.

(** C7: a pass over an input that exists, has an output path and is
    accepted, and that ends (by going on to the next file or by the
    return of the cancellation path), has created the progress file,
    spawned the encoder, polled, waited and then removed the progress
    file, before the ways part: cancellation, failure of the encoder,
    success.  In the trace of the whole call every spawn stands between
    the creation and the removal of the progress file of its task, and
    when the call runs to the end of the list there is such a spawn for
    every input that exists, has an output path and is accepted. *)
Theorem progress_file_removed display env files fmt :
  (forall total idx filepath st out,
     input_exists (env idx) = true ->
     choose_output (Path filepath) fmt = Ok out ->
     lossy_accepted (env idx) = true ->
     snd (loop_body display total fmt idx filepath (env idx) st) = Next
     \/ snd (loop_body display total fmt idx filepath (env idx) st) = Cancelled ->
     exists s e polled tail,
       slice_bound (Z.of_nat idx) (Z.of_nat total) = Ok s /\
       slice_bound (Z.of_nat idx + 1) (Z.of_nat total) = Ok e /\
       trace (fst (loop_body display total fmt idx filepath (env idx) st))
       = trace st
         ++ [PbarSet idx Preparing s (pbar_set display (prepare_alive (env idx)));
             MkTemp idx; Spawn idx out]
         ++ polled ++ [Wait idx; UnlinkProgress idx] ++ tail /\
       Forall (poll_event idx) polled /\
       (snd (loop_body display total fmt idx filepath (env idx) st) = Cancelled
        /\ tail = [UnlinkOutput idx out; PbarClose; NotifyCancelled (S idx) total]
        \/ snd (loop_body display total fmt idx filepath (env idx) st) = Next
           /\ returncode (env idx) <> 0 /\ tail = [UnlinkOutput idx out]
        \/ snd (loop_body display total fmt idx filepath (env idx) st) = Next
           /\ returncode (env idx) = 0
           /\ tail = [PbarSet idx Finishing e
                        (pbar_set display (done_alive (env idx)))])) /\
  spawns_paired (trace (fst (convert_files display env files fmt))) /\
  (forall idx filepath out,
     snd (convert_files display env files fmt) = Next ->
     nth_error files idx = Some filepath ->
     input_exists (env idx) = true ->
     choose_output (Path filepath) fmt = Ok out ->
     lossy_accepted (env idx) = true ->
     In (Spawn idx out) (trace (fst (convert_files display env files fmt)))).
Proof.
  split; [|split].
  - intros total idx filepath st out Hex Ho Hl Hend.
    pose proof (loop_body_pass display total fmt idx filepath (env idx) st) as Hp.
    destruct (loop_body display total fmt idx filepath (env idx) st) as [st' fl].
    cbn [fst snd] in *.
    destruct Hp as [Hex' | e' Hex' _ | out' Hex' Ho' Hl'
                   | out' s e evs Hex' Ho' Hl' Hs He Hpoll
                   | out' s e evs Hex' Ho' Hl' Hs He Hpoll Hrc
                   | out' s e evs Hex' Ho' Hl' Hs He Hpoll Hrc];
      try congruence; try (destruct Hend; discriminate);
      rewrite Ho in Ho'; inversion Ho'; subst out';
      pose proof (poll_events_kind _ _ _ _ _ _ _ _ _ Hpoll) as Hk;
      exists s, e, evs; eexists;
      (split; [exact Hs|]); (split; [exact He|]);
      cbn [emit trace]; unfold run_events;
      (split; [rewrite <- !app_assoc; reflexivity|]); (split; [exact Hk|]).
    + left. split; reflexivity.
    + right. left. repeat split; auto.
    + right. right. repeat split; auto.
  - destruct (convert_files display env files fmt) as [st fl] eqn:H. cbn [fst].
    pose proof (convert_files_cases _ _ _ _ _ _ H) as Hc. destruct fl.
    + destruct Hc as (st0 & Hrun & ->).
      destruct (final_report_trace (List.length files) st0)
        as (tail & Etr & _ & _ & _ & _ & Hnone & _).
      rewrite Etr. apply spawns_paired_app.
      * eapply run_loop_spawns_paired; eassumption.
      * intros i o [Hin | Hin]; [discriminate|].
        rewrite Forall_forall in Hnone. specialize (Hnone _ Hin). discriminate.
    + eapply run_loop_spawns_paired; eassumption.
    + eapply run_loop_spawns_paired; eassumption.
  - intros idx filepath out Hfl Hn Hex Ho Hl.
    destruct (convert_files display env files fmt) as [st fl] eqn:H.
    cbn [fst snd] in *. subst fl.
    pose proof (convert_files_cases _ _ _ _ _ _ H) as (st0 & Hrun & ->).
    destruct (final_report_trace (List.length files) st0) as (tail & Etr & _).
    rewrite Etr. apply in_or_app. left.
    exact (run_loop_spawns _ _ _ _ _ _ _ _ Hrun idx filepath out Hn Hex Ho Hl).
Qed.

Lemma progress_file_removed_witness :
  input_exists (env_fail_then_cancel 1) = true /\
  choose_output (Path (lit "b.flac")) (lit "mp3") = Ok (mkPath [] [lit "b.mp3"]) /\
  lossy_accepted (env_fail_then_cancel 1) = true /\
  (snd (loop_body true 2 (lit "mp3") 1 (lit "b.flac") (env_fail_then_cancel 1)
          initial_state) = Next
   \/ snd (loop_body true 2 (lit "mp3") 1 (lit "b.flac") (env_fail_then_cancel 1)
             initial_state) = Cancelled) /\
  trace (fst (loop_body true 2 (lit "mp3") 1 (lit "b.flac") (env_fail_then_cancel 1)
                initial_state))
    = [PbarOpen; PbarSet 1 Preparing 50 true; MkTemp 1;
       Spawn 1 (mkPath [] [lit "b.mp3"]); PbarSet 1 Converting 75 false; Kill 1;
       Wait 1; UnlinkProgress 1; UnlinkOutput 1 (mkPath [] [lit "b.mp3"]);
       PbarClose; NotifyCancelled 2 2] /\
  exists s e polled tail,
    slice_bound (Z.of_nat 1) (Z.of_nat 2) = Ok s /\
    slice_bound (Z.of_nat 1 + 1) (Z.of_nat 2) = Ok e /\
    trace (fst (loop_body true 2 (lit "mp3") 1 (lit "b.flac") (env_fail_then_cancel 1)
                  initial_state))
    = trace initial_state
      ++ [PbarSet 1 Preparing s (pbar_set true (prepare_alive (env_fail_then_cancel 1)));
          MkTemp 1; Spawn 1 (mkPath [] [lit "b.mp3"])]
      ++ polled ++ [Wait 1; UnlinkProgress 1] ++ tail /\
    Forall (poll_event 1) polled /\
    (snd (loop_body true 2 (lit "mp3") 1 (lit "b.flac") (env_fail_then_cancel 1)
            initial_state) = Cancelled
     /\ tail = [UnlinkOutput 1 (mkPath [] [lit "b.mp3"]); PbarClose;
                NotifyCancelled 2 2]
     \/ snd (loop_body true 2 (lit "mp3") 1 (lit "b.flac") (env_fail_then_cancel 1)
               initial_state) = Next
        /\ returncode (env_fail_then_cancel 1) <> 0
        /\ tail = [UnlinkOutput 1 (mkPath [] [lit "b.mp3"])]
     \/ snd (loop_body true 2 (lit "mp3") 1 (lit "b.flac") (env_fail_then_cancel 1)
               initial_state) = Next
        /\ returncode (env_fail_then_cancel 1) = 0
        /\ tail = [PbarSet 1 Finishing e
                     (pbar_set true (done_alive (env_fail_then_cancel 1)))]).
Proof.
  assert (H1 : input_exists (env_fail_then_cancel 1) = true) by reflexivity.
  assert (H2 : choose_output (Path (lit "b.flac")) (lit "mp3")
               = Ok (mkPath [] [lit "b.mp3"])) by (vm_compute; reflexivity).
  assert (H3 : lossy_accepted (env_fail_then_cancel 1) = true) by reflexivity.
  assert (H4 : snd (loop_body true 2 (lit "mp3") 1 (lit "b.flac")
                      (env_fail_then_cancel 1) initial_state) = Next
               \/ snd (loop_body true 2 (lit "mp3") 1 (lit "b.flac")
                         (env_fail_then_cancel 1) initial_state) = Cancelled)
    by (right; vm_compute; reflexivity).
  split; [exact H1|]. split; [exact H2|]. split; [exact H3|]. split; [exact H4|].
  split; [vm_compute; reflexivity|].
  exact (proj1 (progress_file_removed true env_fail_then_cancel two_files (lit "mp3"))
           2%nat 1%nat (lit "b.flac") initial_state (mkPath [] [lit "b.mp3"])
           H1 H2 H3 H4).
Defined.

Lemma no_event_of_missing env bound tr i e :
  well_indexed env bound tr -> input_exists (env i) = false ->
  event_idx e = Some i -> ~ In e tr.
Proof.
  intros H Hex He Hin. unfold well_indexed in H. rewrite Forall_forall in H.
  destruct (H e Hin i He) as [_ H']. congruence.
Qed.

(** C8: a pass over an input that does not exist appends one entry to the
    error list, emits nothing, and the loop goes on with the next file;
    in the trace of the whole call there is neither a spawn nor a progress
    file for such an input. *)
Theorem missing_input_skipped display env files fmt :
  (forall total idx filepath rest st,
     input_exists (env idx) = false ->
     loop_body display total fmt idx filepath (env idx) st
       = (mkState (errors st ++ [lit "File not found: " ++ filepath])
                  (done st) (trace st), Next) /\
     run_loop display total fmt env idx (filepath :: rest) st
       = run_loop display total fmt env (S idx) rest
           (mkState (errors st ++ [lit "File not found: " ++ filepath])
                    (done st) (trace st))) /\
  (forall i, input_exists (env i) = false ->
     (forall o, ~ In (Spawn i o) (trace (fst (convert_files display env files fmt)))) /\
     ~ In (MkTemp i) (trace (fst (convert_files display env files fmt)))).
Proof.
  split.
  - intros total idx filepath rest st Hex.
    assert (Hbody : loop_body display total fmt idx filepath (env idx) st
       = (mkState (errors st ++ [lit "File not found: " ++ filepath])
                  (done st) (trace st), Next)).
    { unfold loop_body. rewrite Hex. reflexivity. }
    split; [exact Hbody|]. cbn [run_loop]. rewrite Hbody. reflexivity.
  - intros i Hex.
    assert (G : forall e, event_idx e = Some i ->
              ~ In e (trace (fst (convert_files display env files fmt)))).
    { intros e He.
      destruct (convert_files display env files fmt) as [st fl] eqn:H. cbn [fst].
      pose proof (convert_files_cases _ _ _ _ _ _ H) as Hc. destruct fl.
      - destruct Hc as (st0 & Hrun & ->). apply run_loop_end in Hrun. cbn in Hrun.
        destruct (final_report_trace (List.length files) st0)
          as (tail & Etr & _ & _ & _ & _ & Hnone & _).
        rewrite Etr. intros Hin. apply in_app_or in Hin.
        destruct Hin as [Hin | [Hin | Hin]].
        + exact (no_event_of_missing _ _ _ _ _ (bp_indexed _ _ _ Hrun) Hex He Hin).
        + subst e. discriminate.
        + rewrite Forall_forall in Hnone. specialize (Hnone _ Hin). congruence.
      - apply run_loop_end in Hc. destruct Hc as (idx & pre & v & out & Hca).
        exact (no_event_of_missing _ _ _ _ _ (ca_indexed _ _ _ _ _ _ _ Hca) Hex He).
      - apply run_loop_end in Hc. destruct Hc as (idx & _ & Hb).
        exact (no_event_of_missing _ _ _ _ _ (bp_indexed _ _ _ Hb) Hex He). }
    split; [intros o|]; apply G; reflexivity.
Qed.

Lemma missing_input_skipped_witness :
  input_exists (env_missing_then_done 0) = false /\
  loop_body true 2 (lit "mp3") 0 (lit "/music/a.wav") (env_missing_then_done 0)
            initial_state
    = (mkState [lit "File not found: /music/a.wav"] 0 [PbarOpen], Next) /\
  ~ In (MkTemp 0)
       (trace (fst (convert_files true env_missing_then_done two_files (lit "mp3")))).
Proof.
  split; [reflexivity|]. split.
  - exact (proj1 (proj1 (missing_input_skipped true env_missing_then_done two_files
                           (lit "mp3"))
                    2%nat 0%nat (lit "/music/a.wav") [] initial_state eq_refl)).
  - exact (proj2 (proj2 (missing_input_skipped true env_missing_then_done two_files
                           (lit "mp3")) 0%nat eq_refl)).
Defined.

(** The encoder of a pass is spawned on the output path chosen for its
    input. *)
Lemma pass_spawn_output display total fmt idx filepath te st :
  exists evs,
    trace (fst (loop_body display total fmt idx filepath te st)) = trace st ++ evs /\
    (forall o, In (Spawn idx o) evs -> choose_output (Path filepath) fmt = Ok o).
Proof.
  pose proof (loop_body_pass display total fmt idx filepath te st) as P.
  set (r := loop_body display total fmt idx filepath te st) in *.
  assert (Ran : forall out s e evs c tail,
    choose_output (Path filepath) fmt = Ok out ->
    poll_loop display idx s e (duration te) s (ticks te) = (evs, c) ->
    (forall o, ~ In (Spawn idx o) tail) ->
    forall o, In (Spawn idx o) (run_events display idx te out s evs ++ tail) ->
    choose_output (Path filepath) fmt = Ok o).
  { intros out s e evs c tail Ho Hpoll Htail o Hin.
    pose proof (kind_count_close idx evs (poll_events_kind _ _ _ _ _ _ _ _ _ Hpoll))
      as (_ & _ & _ & _ & K5 & _).
    apply in_app_or in Hin. destruct Hin as [Hin|Hin]; [|destruct (Htail o Hin)].
    unfold run_events in Hin. cbn [app] in Hin.
    destruct Hin as [Hin|[Hin|[Hin|Hin]]]; try discriminate.
    - inversion Hin; subst o. exact Ho.
    - apply in_app_or in Hin. destruct Hin as [Hin|Hin]; [destruct (K5 o Hin)|].
      destruct Hin as [Hin|[Hin|[]]]; discriminate. }
  destruct P as [Hex | e Hex _ | out Hex Ho Hl
                | out s e evs Hex Ho Hl Hs He Hpoll
                | out s e evs Hex Ho Hl Hs He Hpoll Hrc
                | out s e evs Hex Ho Hl Hs He Hpoll Hrc].
  - exists []. cbn [add_error trace]. rewrite app_nil_r. split; [reflexivity | intros o []].
  - exists []. rewrite app_nil_r. split; [reflexivity | intros o []].
  - exists []. rewrite app_nil_r. split; [reflexivity | intros o []].
  - eexists. cbn [emit trace]. split; [reflexivity|].
    eapply Ran; [eassumption | eassumption|].
    intros o Hin. repeat (destruct Hin as [Hin|Hin]; try discriminate). contradiction.
  - eexists. cbn [trace]. split; [reflexivity|].
    eapply Ran; [eassumption | eassumption|].
    intros o Hin. repeat (destruct Hin as [Hin|Hin]; try discriminate). contradiction.
  - eexists. cbn [trace]. split; [reflexivity|].
    eapply Ran; [eassumption | eassumption|].
    intros o Hin. repeat (destruct Hin as [Hin|Hin]; try discriminate). contradiction.
Qed.

(** C9: for an input path with a final component and a format that can
    be a suffix, an output path is chosen and it differs from the input
    path; when replacing the suffix gives the input path back, the output
    is the input with "_" and the format inserted before the suffix; and
    it is on this path that the pass spawns the encoder. *)
Theorem output_path_differs filepath fmt :
  path_name (Path filepath) <> [] -> fmt <> [] -> contains ch_slash fmt = false ->
  exists out,
    choose_output (Path filepath) fmt = Ok out /\
    out <> Path filepath /\
    (with_suffix (Path filepath) (target_suffix fmt) = Ok (Path filepath) ->
     out = replace_name (Path filepath)
             (path_stem (Path filepath) ++ lit "_" ++ fmt ++ target_suffix fmt)) /\
    (forall display total idx te st o,
       In (Spawn idx o)
          (skipn (List.length (trace st))
             (trace (fst (loop_body display total fmt idx filepath te st)))) ->
       o = out).
Proof.
  intros Hn Hf Hs. destruct (choose_output_total filepath fmt Hn Hf Hs) as [out E].
  exists out. split; [exact E|].
  destruct (choose_output_differs _ _ _ E) as [Hd Hc].
  split; [exact Hd|]. split; [exact Hc|].
  intros display total idx te st o Hin.
  destruct (pass_spawn_output display total fmt idx filepath te st) as (evs & Etr & Hsp).
  rewrite Etr, skipn_app, skipn_all, Nat.sub_diag in Hin. cbn [skipn app] in Hin.
  specialize (Hsp o Hin). congruence.
Qed.

Lemma output_path_differs_witness :
  path_name (Path (lit "/music/song.mp3")) <> [] /\ lit "mp3" <> [] /\
  contains ch_slash (lit "mp3") = false /\
  exists out,
    choose_output (Path (lit "/music/song.mp3")) (lit "mp3") = Ok out /\
    out <> Path (lit "/music/song.mp3") /\
    (with_suffix (Path (lit "/music/song.mp3")) (target_suffix (lit "mp3"))
       = Ok (Path (lit "/music/song.mp3")) ->
     out = replace_name (Path (lit "/music/song.mp3"))
             (path_stem (Path (lit "/music/song.mp3")) ++ lit "_" ++ lit "mp3"
              ++ target_suffix (lit "mp3"))) /\
    (forall display total idx te st o,
       In (Spawn idx o)
          (skipn (List.length (trace st))
             (trace (fst (loop_body display total (lit "mp3") idx
                            (lit "/music/song.mp3") te st)))) ->
       o = out).
Proof.
  split; [vm_compute; discriminate|]. split; [vm_compute; discriminate|].
  split; [reflexivity|].
  apply (output_path_differs (lit "/music/song.mp3") (lit "mp3")).
  - vm_compute. discriminate.
  - vm_compute. discriminate.
  - reflexivity.
Defined.

Lemma tick_overall_silent slice_start slice_end d t :
  duration_known d = None \/ no_record t ->
  tick_overall slice_start slice_end d t = None.
Proof.
  unfold tick_overall, no_record. intros [H | H].
  - rewrite H. destruct (content t) as [c|]; [|reflexivity].
    destruct (last_match c); reflexivity.
  - destruct (content t) as [c|]; [|reflexivity]. rewrite H. reflexivity.
Qed.

(** C10: a pass of the polling loop that computes no value, or a value
    not above the last one forwarded, sends nothing and leaves that value
    as it is; every update the loop sends exceeds the one before it, and
    the loop is left as cancelled only after an update answered "not
    alive"; when no pass computes a value above the one forwarded last, so
    when the duration is unknown or the progress file never shows a
    record, the loop sends nothing at all and the task is not cancelled:
    the pass of the [for] loop does not end by the cancellation path. *)
Theorem no_update_no_cancellation display idx slice_start slice_end d last ts :
  (forall t,
     tick_overall slice_start slice_end d t = None
     \/ (exists v, tick_overall slice_start slice_end d t = Some v /\ v <= last) ->
     poll_loop display idx slice_start slice_end d last (t :: ts)
       = poll_loop display idx slice_start slice_end d last ts) /\
  (forall evs c,
     poll_loop display idx slice_start slice_end d last ts = (evs, c) ->
     filter_respected (Some last) evs /\
     (c = true -> exists v, In (PbarSet idx Converting v false) evs)) /\
  (Forall (fun t =>
             tick_overall slice_start slice_end d t = None
             \/ (exists v, tick_overall slice_start slice_end d t = Some v
                           /\ v <= last)) ts ->
   poll_loop display idx slice_start slice_end d last ts = ([], false)) /\
  (duration_known d = None \/ Forall no_record ts ->
   poll_loop display idx slice_start slice_end d last ts = ([], false)) /\
  (forall total fmt filepath te st,
     duration_known (duration te) = None \/ Forall no_record (ticks te) ->
     snd (loop_body display total fmt idx filepath te st) <> Cancelled).
Proof.
  assert (Step : forall l t ts',
     tick_overall slice_start slice_end d t = None
     \/ (exists v, tick_overall slice_start slice_end d t = Some v /\ v <= l) ->
     poll_loop display idx slice_start slice_end d l (t :: ts')
       = poll_loop display idx slice_start slice_end d l ts').
  { intros l t ts' H. cbn [poll_loop]. destruct H as [-> | (v & -> & Hv)]; [reflexivity|].
    replace (v >? l) with false; [reflexivity|].
    symmetry. destruct (Z.gtb_spec v l); [lia | reflexivity]. }
  assert (Silent : forall d' ts' s e l,
            duration_known d' = None \/ Forall no_record ts' ->
            poll_loop display idx s e d' l ts' = ([], false)).
  { intros d' ts' s e l H. apply poll_silent.
    destruct H as [H | H].
    - apply Forall_forall. intros t _. apply tick_overall_silent. auto.
    - eapply Forall_impl; [|exact H]. intros t Ht. apply tick_overall_silent. auto. }
  split; [|split; [|split; [|split]]].
  - intros t. apply Step.
  - intros evs c H. split; [eapply poll_filter; eassumption|].
    intros ->. pose proof (poll_alive _ _ _ _ _ _ _ _ _ H) as Ha. cbn iota in Ha.
    destruct Ha as (pre & v & -> & _). exists v. apply in_or_app. right. left. reflexivity.
  - induction 1 as [|t ts' Ht _ IH]; [reflexivity|]. rewrite Step by exact Ht. exact IH.
  - apply Silent.
  - intros total fmt filepath te st H.
    pose proof (loop_body_pass display total fmt idx filepath te st) as P.
    destruct P as [Hex | e Hex _ | out Hex Ho Hl
                  | out s e evs Hex Ho Hl Hs He Hpoll
                  | out s e evs Hex Ho Hl Hs He Hpoll Hrc
                  | out s e evs Hex Ho Hl Hs He Hpoll Hrc]; try discriminate.
    rewrite (Silent _ _ s e s H) in Hpoll. discriminate.
Qed.

Lemma no_update_no_cancellation_witness :
  (duration_known (duration silent_task) = None
   \/ Forall no_record (ticks silent_task)) /\
  snd (loop_body true 1 (lit "mp3") 0 (lit "a.wav") silent_task initial_state)
    <> Cancelled.
Proof.
  assert (H : duration_known (duration silent_task) = None
              \/ Forall no_record (ticks silent_task)).
  { right. repeat constructor. }
  split; [exact H|].
  exact (proj2 (proj2 (proj2 (proj2
           (no_update_no_cancellation true 0 0 100 None 0 []))))
           1%nat (lit "mp3") (lit "a.wav") silent_task initial_state H).
Defined.

(* ================================================================== *)
(** * Further properties of the conversion loop *)

(* ------------------------------------------------------------------ *)
(** ** The slices *)

(** X1: for a batch of at most 2^40 files, every slice bound
    [int(k / total * 100)] is computed without an exception, lies between
    0 and 100, and is the floor of [100 * k / total] or one below it. *)
Theorem slice_bound_floor_or_one_below k total :
  0 <= k <= total -> 0 < total <= 2 ^ 40 ->
  exists z, slice_bound k total = Ok z /\
            k * 100 / total - 1 <= z <= k * 100 / total /\
            0 <= z <= 100.
Proof.
  intros [Hk0 Hk] [Ht0 Ht].
  assert (H53 : total < 2 ^ 53) by (pose proof pow40_lt_pow53; lia).
  destruct (slice_bound_ok k total Hk0 Hk Ht0 H53) as [z Ez].
  exists z. split; [exact Ez|]. split.
  - exact (slice_bound_near_floor k total z Hk0 Hk Ht0 Ht Ez).
  - exact (slice_bound_range k total z Hk0 Hk Ht0 Ht Ez).
Qed.

Lemma slice_bound_floor_or_one_below_witness :
  0 <= 29 <= 50 /\ 0 < 50 <= 2 ^ 40 /\
  exists z, slice_bound 29 50 = Ok z /\
            29 * 100 / 50 - 1 <= z <= 29 * 100 / 50 /\ 0 <= z <= 100.
Proof.
  assert (H1 : 0 <= 29 <= 50) by lia.
  assert (H2 : 0 < 50 <= 2 ^ 40) by (split; [lia | vm_compute; discriminate]).
  split; [exact H1|]. split; [exact H2|].
  exact (slice_bound_floor_or_one_below 29 50 H1 H2).
Defined.

(** X2: the slices of a batch of at most 2^40 files tile the bar: the
    first starts at 0, the last ends at 100, and the bounds never
    decrease from one file to the next, so no slice has a negative
    width. *)
Theorem slices_tile_the_bar total :
  0 < total <= 2 ^ 40 ->
  slice_bound 0 total = Ok 0 /\
  slice_bound total total = Ok 100 /\
  (forall i j, 0 <= i <= j -> j <= total ->
     exists a b, slice_bound i total = Ok a /\ slice_bound j total = Ok b
                 /\ a <= b).
Proof.
  intros [Ht0 Ht].
  assert (H53 : total < 2 ^ 53) by (pose proof pow40_lt_pow53; lia).
  split; [apply slice_bound_zero; lia|].
  split; [apply slice_bound_full; lia|].
  intros i j [Hi Hij] Hj.
  destruct (slice_bound_ok i total) as [a Ea]; try lia.
  destruct (slice_bound_ok j total) as [b Eb]; try lia.
  exists a, b. split; [exact Ea|]. split; [exact Eb|].
  exact (slice_bound_mono i j total a b Hi Hij Hj Ht Ea Eb).
Qed.

Lemma slices_tile_the_bar_witness :
  0 < 3 <= 2 ^ 40 /\
  slice_bound 0 3 = Ok 0 /\
  slice_bound 3 3 = Ok 100 /\
  (forall i j, 0 <= i <= j -> j <= 3 ->
     exists a b, slice_bound i 3 = Ok a /\ slice_bound j 3 = Ok b /\ a <= b).
Proof.
  assert (H : 0 < 3 <= 2 ^ 40) by (split; [lia | vm_compute; discriminate]).
  split; [exact H|]. exact (slices_tile_the_bar 3 H).
Defined.

(* ------------------------------------------------------------------ *)
(** ** Every update stays in the slice of its task *)

(** X3: in a batch of at most 2^40 files, every value passed to
    [pbar_set] for a task lies in the slice of that task, between its
    [slice_start] and its [slice_end]; so every value lies between 0 and
    100. *)
Theorem updates_stay_in_own_slice display env files fmt idx ph v a :
  Z.of_nat (List.length files) <= 2 ^ 40 ->
  In (PbarSet idx ph v a) (trace (fst (convert_files display env files fmt))) ->
  (idx < List.length files)%nat /\
  exists s_start s_end,
    slice_bound (Z.of_nat idx) (Z.of_nat (List.length files)) = Ok s_start /\
    slice_bound (Z.of_nat idx + 1) (Z.of_nat (List.length files)) = Ok s_end /\
    s_start <= v <= s_end /\ 0 <= s_start /\ s_end <= 100.
Proof.
  intros Ht Hin.
  destruct (convert_files display env files fmt) as [st fl] eqn:H. cbn [fst] in Hin.
  pose proof (convert_files_cases _ _ _ _ _ _ H) as Hc.
  assert (G : exists st0 fl0,
            run_loop display (List.length files) fmt env 0 files initial_state
              = (st0, fl0) /\ In (PbarSet idx ph v a) (trace st0)).
  { destruct fl.
    - destruct Hc as (st0 & Hrun & ->). exists st0, Next. split; [assumption|].
      destruct (final_report_trace (List.length files) st0)
        as (tail & Etr & _ & _ & _ & _ & Hnone & _).
      rewrite Etr in Hin. apply in_app_or in Hin.
      destruct Hin as [Hin | [Hin | Hin]]; [assumption | discriminate |].
      rewrite Forall_forall in Hnone. specialize (Hnone _ Hin). discriminate.
    - exists st, Cancelled. split; assumption.
    - exists st, (Raised e). split; assumption. }
  destruct G as (st0 & fl0 & Hrun & Hin0).
  pose proof (run_loop_own_slice _ _ _ _ _ _ Ht Hrun) as Hown.
  rewrite Forall_forall in Hown. specialize (Hown _ Hin0). cbn in Hown.
  destruct Hown as (s & e & Es & Ee & Hv).
  assert (Hidx : (idx < List.length files)%nat).
  { pose proof (run_loop_end _ _ _ _ _ _ Hrun) as Hend.
    assert (Hw : exists b, (b <= List.length files)%nat
                           /\ well_indexed env b (trace st0)).
    { destruct fl0; cbn in Hend.
      - exists (List.length files). split; [lia | apply (bp_indexed _ _ _ Hend)].
      - destruct Hend as (i & pre & v' & out & Hca). exists (S i). split.
        + pose proof (ca_idx _ _ _ _ _ _ _ Hca). lia.
        + apply (ca_indexed _ _ _ _ _ _ _ Hca).
      - destruct Hend as (i & Hi & Hb). exists i. split; [lia|].
        apply (bp_indexed _ _ _ Hb). }
    destruct Hw as (b & Hb & Hw). unfold well_indexed in Hw.
    rewrite Forall_forall in Hw. destruct (Hw _ Hin0 idx eq_refl). lia. }
  split; [exact Hidx|].
  destruct (slice_pair idx _ Hidx Ht s e Es Ee) as (H0 & Hse & H100).
  exists s, e. repeat split; auto; lia.
Qed.

Lemma updates_stay_in_own_slice_witness :
  Z.of_nat (List.length two_files) <= 2 ^ 40 /\
  In (PbarSet 1 Converting 75 true)
     (trace (fst (convert_files true env_two_done two_files (lit "mp3")))) /\
  ((1 < List.length two_files)%nat /\
   exists s_start s_end,
     slice_bound (Z.of_nat 1) (Z.of_nat (List.length two_files)) = Ok s_start /\
     slice_bound (Z.of_nat 1 + 1) (Z.of_nat (List.length two_files)) = Ok s_end /\
     s_start <= 75 <= s_end /\ 0 <= s_start /\ s_end <= 100).
Proof.
  assert (H1 : Z.of_nat (List.length two_files) <= 2 ^ 40)
    by (vm_compute; discriminate).
  assert (H2 : In (PbarSet 1 Converting 75 true)
     (trace (fst (convert_files true env_two_done two_files (lit "mp3")))))
    by (vm_compute; repeat (first [left; reflexivity | right])).
  split; [exact H1|]. split; [exact H2|].
  exact (updates_stay_in_own_slice true env_two_done two_files (lit "mp3")
           1%nat Converting 75 true H1 H2).
Defined.

(* ------------------------------------------------------------------ *)
(** ** Without a display *)

Lemma poll_loop_no_display idx s e d ts last evs c :
  poll_loop false idx s e d last ts = (evs, c) ->
  c = false /\ Forall answered_alive evs.
Proof.
  revert last evs c. induction ts as [|t ts IH]; intros last evs c; cbn [poll_loop].
  - intros H; inversion H. split; [reflexivity | constructor].
  - destruct (tick_overall s e d t) as [v|]; [|apply IH].
    destruct (v >? last); [|apply IH].
    cbn [pbar_set].
    destruct (poll_loop false idx s e d v ts) as [evs' c'] eqn:E.
    intros H; inversion H; subst. destruct (IH _ _ _ E) as [-> Hall].
    split; [reflexivity|]. constructor; [reflexivity | assumption].
Qed.

Lemma run_events_no_display idx te out s evs :
  Forall answered_alive evs ->
  Forall answered_alive (run_events false idx te out s evs).
Proof.
  intros Hall. unfold run_events. cbn [app pbar_set].
  apply Forall_cons; [reflexivity|].
  apply Forall_cons; [exact I|]. apply Forall_cons; [exact I|].
  apply Forall_app. split; [assumption | repeat constructor].
Qed.

Lemma pass_no_display total fmt idx filepath te st st' fl :
  Forall answered_alive (trace st) ->
  pass false total fmt idx filepath te st st' fl ->
  fl <> Cancelled /\ Forall answered_alive (trace st').
Proof.
  intros HP Hp.
  destruct Hp as [Hex | e Hex _ | out Hex Ho Hl
                 | out s e evs Hex Ho Hl Hs He Hpoll
                 | out s e evs Hex Ho Hl Hs He Hpoll Hrc
                 | out s e evs Hex Ho Hl Hs He Hpoll Hrc];
    cbn [add_error emit trace];
    try (split; [discriminate | assumption]).
  - apply poll_loop_no_display in Hpoll. destruct Hpoll; discriminate.
  - apply poll_loop_no_display in Hpoll. destruct Hpoll as [_ Hall].
    split; [discriminate|]. apply Forall_app. split; [assumption|].
    apply Forall_app. split; [apply run_events_no_display; assumption|].
    repeat constructor.
  - apply poll_loop_no_display in Hpoll. destruct Hpoll as [_ Hall].
    split; [discriminate|]. apply Forall_app. split; [assumption|].
    apply Forall_app. split; [apply run_events_no_display; assumption|].
    repeat constructor.
Qed.

(** X4: when kdialog printed no handle, or no qdbus binary was found,
    [convert_files] cannot be cancelled: it never returns by the
    cancellation path, no encoder is killed, and every update is taken as
    answered "alive". *)
Theorem no_display_no_cancellation stdout which env files fmt :
  pbar_open stdout = None \/ QDBUS which = None ->
  snd (convert_files (display_of (pbar_open stdout) (QDBUS which)) env files fmt)
    <> Cancelled /\
  Forall answered_alive
    (trace (fst (convert_files (display_of (pbar_open stdout) (QDBUS which))
                   env files fmt))).
Proof.
  intros Hno.
  assert (Ed : display_of (pbar_open stdout) (QDBUS which) = false).
  { unfold display_of. destruct Hno as [-> | ->]; [reflexivity|].
    destruct (pbar_open stdout); reflexivity. }
  rewrite Ed. clear Ed Hno.
  destruct (convert_files false env files fmt) as [st fl] eqn:H. cbn [fst snd].
  pose proof (convert_files_cases _ _ _ _ _ _ H) as Hc.
  assert (G : forall st0 fl0,
            run_loop false (List.length files) fmt env 0 files initial_state
              = (st0, fl0) ->
            fl0 <> Cancelled /\ Forall answered_alive (trace st0)).
  { intros st0 fl0 Hrun.
    pose proof (run_loop_inv false (List.length files) fmt env
                  (fun _ st => Forall answered_alive (trace st))
                  (fun st fl => fl <> Cancelled /\ Forall answered_alive (trace st)))
      as Inv.
    assert (K : match fl0 with
                | Next => Forall answered_alive (trace st0)
                | _ => fl0 <> Cancelled /\ Forall answered_alive (trace st0)
                end).
    { apply (fun H => Inv H files 0%nat initial_state st0 fl0);
        [| reflexivity | repeat constructor | exact Hrun].
      intros idx filepath st1 st' fl' Hidx HP Hp.
      destruct (pass_no_display _ _ _ _ _ _ _ _ HP Hp) as [Hn Hall].
      destruct fl'; auto. }
    destruct fl0; auto. split; [discriminate | assumption]. }
  destruct fl.
  - destruct Hc as (st0 & Hrun & ->). split; [discriminate|].
    destruct (G _ _ Hrun) as [_ Hall].
    unfold final_report, emit. cbn [errors done trace].
    destruct (errors st0); [destruct (Nat.ltb 0 (done st0))|]; cbn [trace];
      repeat (apply Forall_app; split); auto; repeat constructor.
  - exfalso. destruct (G _ _ Hc) as [Hn _]. apply Hn. reflexivity.
  - split; [discriminate|]. apply (G _ _ Hc).
Qed.

Lemma no_display_no_cancellation_witness :
  (pbar_open (lit " ") = None \/ QDBUS (fun _ => true) = None) /\
  snd (convert_files (display_of (pbar_open (lit " ")) (QDBUS (fun _ => true)))
         env_fail_then_cancel two_files (lit "mp3")) <> Cancelled /\
  Forall answered_alive
    (trace (fst (convert_files
                   (display_of (pbar_open (lit " ")) (QDBUS (fun _ => true)))
                   env_fail_then_cancel two_files (lit "mp3")))).
Proof.
  assert (H : pbar_open (lit " ") = None \/ QDBUS (fun _ => true) = None)
    by (left; reflexivity).
  split; [exact H|].
  exact (no_display_no_cancellation (lit " ") (fun _ => true)
           env_fail_then_cancel two_files (lit "mp3") H).
Defined.

(* ------------------------------------------------------------------ *)
(** ** Every input is accounted for *)

Lemma declined_S env n :
  declined env (S n)
  = (declined env n
     + if input_exists (env n) && negb (lossy_accepted (env n)) then 1 else 0)%nat.
Proof.
  unfold declined. rewrite seq_S, filter_app, length_app. cbn [filter plus].
  destruct (input_exists (env n) && negb (lossy_accepted (env n))); reflexivity.
Qed.

Lemma pass_accounted display total fmt env idx filepath st st' fl :
  (done st + List.length (errors st) + declined env idx = idx)%nat ->
  pass display total fmt idx filepath (env idx) st st' fl ->
  match fl with
  | Next => (done st' + List.length (errors st') + declined env (S idx) = S idx)%nat
  | _ => (done st' + List.length (errors st') + declined env idx = idx)%nat
  end.
Proof.
  intros HP Hp. rewrite declined_S.
  destruct Hp as [Hex | e Hex _ | out Hex Ho Hl
                 | out s e evs Hex Ho Hl Hs He Hpoll
                 | out s e evs Hex Ho Hl Hs He Hpoll Hrc
                 | out s e evs Hex Ho Hl Hs He Hpoll Hrc];
    cbn [add_error emit errors done]; try rewrite length_app;
    try rewrite Hex; try rewrite Hl; cbn [andb negb List.length]; try lia.
Qed.

Lemma run_loop_accounted display env files fmt st fl :
  run_loop display (List.length files) fmt env 0 files initial_state = (st, fl) ->
  match fl with
  | Next => (done st + List.length (errors st) + declined env (List.length files)
             = List.length files)%nat
  | _ => (done st + List.length (errors st) < List.length files)%nat
  end.
Proof.
  intros Hrun.
  apply (fun H => run_loop_inv display (List.length files) fmt env
           (fun idx st => (done st + List.length (errors st) + declined env idx
                           = idx)%nat)
           (fun st _ => (done st + List.length (errors st)
                         < List.length files)%nat)
           H files 0%nat initial_state st fl);
    [| reflexivity | reflexivity | exact Hrun].
  intros idx filepath st0 st' fl' Hidx HP Hp.
  pose proof (pass_accounted _ _ _ _ _ _ _ _ _ HP Hp) as K.
  destruct fl'; [exact K | lia | lia].
Qed.

(** X5: when [convert_files] runs to its end, every input is counted
    once: the files converted, the entries of the error list and the
    files declined at the lossy warning add up to the number of inputs;
    however the call ends, [done] and the errors together never exceed
    it. *)
Theorem every_input_accounted display env files fmt :
  (done (fst (convert_files display env files fmt))
   + List.length (errors (fst (convert_files display env files fmt)))
   <= List.length files)%nat /\
  (snd (convert_files display env files fmt) = Next ->
   (done (fst (convert_files display env files fmt))
    + List.length (errors (fst (convert_files display env files fmt)))
    + declined env (List.length files) = List.length files)%nat).
Proof.
  destruct (convert_files display env files fmt) as [st fl] eqn:H. cbn [fst snd].
  pose proof (convert_files_cases _ _ _ _ _ _ H) as Hc.
  destruct fl.
  - destruct Hc as (st0 & Hrun & ->).
    destruct (final_report_trace (List.length files) st0)
      as (tail & _ & _ & _ & _ & _ & _ & -> & ->).
    pose proof (run_loop_accounted _ _ _ _ _ _ Hrun) as K. cbn in K.
    split; [lia | intros _; exact K].
  - pose proof (run_loop_accounted _ _ _ _ _ _ Hc) as K. cbn in K.
    split; [lia | discriminate].
  - pose proof (run_loop_accounted _ _ _ _ _ _ Hc) as K. cbn in K.
    split; [lia | discriminate].
Qed.

Lemma every_input_accounted_witness :
  snd (convert_files true env_missing_then_done two_files (lit "mp3")) = Next /\
  (done (fst (convert_files true env_missing_then_done two_files (lit "mp3")))
   + List.length
       (errors (fst (convert_files true env_missing_then_done two_files (lit "mp3"))))
   + declined env_missing_then_done (List.length two_files)
   = List.length two_files)%nat.
Proof.
  assert (H : snd (convert_files true env_missing_then_done two_files (lit "mp3"))
              = Next) by (vm_compute; reflexivity).
  split; [exact H|].
  exact (proj2 (every_input_accounted true env_missing_then_done two_files
                  (lit "mp3")) H).
Defined.

(* ------------------------------------------------------------------ *)
(** ** A batch that is declined *)

Lemma run_loop_all_declined display total fmt env files :
  Forall (fun f => path_name (Path f) <> []) files ->
  fmt <> [] -> contains ch_slash fmt = false ->
  forall idx st,
    (forall i, (idx <= i < idx + List.length files)%nat ->
       input_exists (env i) = true /\ lossy_accepted (env i) = false) ->
    run_loop display total fmt env idx files st = (st, Next).
Proof.
  intros Hn Hf Hs. induction Hn as [|f rest Hname _ IH]; intros idx st Hall.
  - reflexivity.
  - cbn [run_loop]. cbn [List.length] in Hall.
    destruct (Hall idx ltac:(lia)) as [Hex Hl].
    destruct (choose_output_total f fmt Hname Hf Hs) as [out Eo].
    unfold loop_body. rewrite Hex, Eo, Hl. cbn [negb].
    apply IH. intros i Hi. apply Hall. lia.
Qed.

(** X6: when every input exists and is declined at the lossy warning,
    [convert_files] opens and closes the display and does nothing else:
    no update, no encoder, no error dialog and no notification; the same
    holds for an empty list of inputs. *)
Theorem all_declined_ends_silently display env files fmt :
  Forall (fun f => path_name (Path f) <> []) files ->
  fmt <> [] -> contains ch_slash fmt = false ->
  (forall i, (i < List.length files)%nat ->
     input_exists (env i) = true /\ lossy_accepted (env i) = false) ->
  convert_files display env files fmt
  = (mkState [] 0 [PbarOpen; PbarClose], Next).
Proof.
  intros Hn Hf Hs Hall. unfold convert_files.
  rewrite (run_loop_all_declined display (List.length files) fmt env files
             Hn Hf Hs 0%nat initial_state).
  - reflexivity.
  - intros i Hi. apply Hall. lia.
Qed.

Lemma all_declined_ends_silently_witness :
  Forall (fun f => path_name (Path f) <> []) two_files /\
  lit "mp3" <> [] /\ contains ch_slash (lit "mp3") = false /\
  (forall i, (i < List.length two_files)%nat ->
     input_exists (mkEnv true false None true [] 0 [] true) = true /\
     lossy_accepted (mkEnv true false None true [] 0 [] true) = false) /\
  convert_files true (fun _ => mkEnv true false None true [] 0 [] true)
    two_files (lit "mp3")
  = (mkState [] 0 [PbarOpen; PbarClose], Next).
Proof.
  assert (H1 : Forall (fun f => path_name (Path f) <> []) two_files)
    by (repeat constructor; vm_compute; discriminate).
  assert (H2 : lit "mp3" <> []) by (vm_compute; discriminate).
  assert (H3 : contains ch_slash (lit "mp3") = false) by reflexivity.
  assert (H4 : forall i, (i < List.length two_files)%nat ->
     input_exists (mkEnv true false None true [] 0 [] true) = true /\
     lossy_accepted (mkEnv true false None true [] 0 [] true) = false)
    by (intros i _; split; reflexivity).
  split; [exact H1|]. split; [exact H2|]. split; [exact H3|]. split; [exact H4|].
  exact (all_declined_ends_silently true
           (fun _ => mkEnv true false None true [] 0 [] true)
           two_files (lit "mp3") H1 H2 H3 H4).
Defined.

(* ------------------------------------------------------------------ *)
(** ** How many updates the polling loops send *)

Lemma count_converting_app a b :
  count_converting (a ++ b) = (count_converting a + count_converting b)%nat.
Proof.
  induction a as [|e a IH]; [reflexivity|].
  destruct e as [| i ph v al | | | | | | | | | | ]; cbn [app count_converting]; auto.
  destruct ph; cbn; auto.
Qed.

Lemma poll_loop_count display idx s e d ts :
  0 <= e - s <= 100 ->
  forall last evs c, s <= last <= e ->
    poll_loop display idx s e d last ts = (evs, c) ->
    Z.of_nat (count_converting evs) <= e - last.
Proof.
  intros Hw. induction ts as [|t ts IH]; intros last evs c Hl; cbn [poll_loop].
  - intros H; inversion H; subst. cbn. lia.
  - destruct (tick_overall s e d t) as [v|] eqn:Ev; [|apply IH; assumption].
    pose proof (tick_overall_range s e d t v Hw Ev) as Hv.
    destruct (v >? last) eqn:G; [|apply IH; assumption].
    apply Z.gtb_lt in G.
    destruct (pbar_set display (tick_alive t)).
    + destruct (poll_loop display idx s e d v ts) as [evs' c'] eqn:E.
      assert (K : Z.of_nat (count_converting evs') <= e - v)
        by (apply (IH v evs' c'); [lia | exact E]).
      intros H; inversion H; subst. cbn [count_converting]. lia.
    + intros H; inversion H; subst. cbn. lia.
Qed.

Lemma run_events_count display idx te out s evs :
  count_converting (run_events display idx te out s evs) = count_converting evs.
Proof.
  unfold run_events. cbn [app count_converting].
  rewrite count_converting_app. cbn. lia.
Qed.

Lemma pass_count display total fmt idx filepath te st st' fl :
  (idx < total)%nat -> Z.of_nat total <= 2 ^ 40 ->
  (forall b, slice_bound (Z.of_nat idx) (Z.of_nat total) = Ok b ->
     Z.of_nat (count_converting (trace st)) <= b) ->
  pass display total fmt idx filepath te st st' fl ->
  match fl with
  | Next => forall b, slice_bound (Z.of_nat (S idx)) (Z.of_nat total) = Ok b ->
              Z.of_nat (count_converting (trace st')) <= b
  | _ => Z.of_nat (count_converting (trace st')) <= 100
  end.
Proof.
  intros Hidx Ht HP Hp.
  assert (H53 : Z.of_nat total < 2 ^ 53) by (pose proof pow40_lt_pow53; lia).
  destruct (slice_bound_ok (Z.of_nat idx) (Z.of_nat total)) as [s0 Es0]; try lia.
  destruct (slice_bound_ok (Z.of_nat idx + 1) (Z.of_nat total)) as [e0 Ee0]; try lia.
  destruct (slice_pair idx total Hidx Ht s0 e0 Es0 Ee0) as (H0 & Hse & H100).
  specialize (HP s0 Es0).
  replace (Z.of_nat (S idx)) with (Z.of_nat idx + 1) by lia.
  destruct Hp as [Hex | e Hex _ | out Hex Ho Hl
                 | out s e evs Hex Ho Hl Hs He Hpoll
                 | out s e evs Hex Ho Hl Hs He Hpoll Hrc
                 | out s e evs Hex Ho Hl Hs He Hpoll Hrc];
    cbn [add_error emit trace].
  - intros b Eb. rewrite Ee0 in Eb. inversion Eb; subst. lia.
  - lia.
  - intros b Eb. rewrite Ee0 in Eb. inversion Eb; subst. lia.
  - rewrite Es0 in Hs. rewrite Ee0 in He. inversion Hs; inversion He; subst s e.
    assert (Hw : 0 <= e0 - s0 <= 100) by lia.
    assert (Hl0 : s0 <= s0 <= e0) by lia.
    pose proof (poll_loop_count _ _ _ _ _ _ Hw _ _ _ Hl0 Hpoll) as K.
    rewrite !count_converting_app, run_events_count. cbn [count_converting]. lia.
  - rewrite Es0 in Hs. rewrite Ee0 in He. inversion Hs; inversion He; subst s e.
    assert (Hw : 0 <= e0 - s0 <= 100) by lia.
    assert (Hl0 : s0 <= s0 <= e0) by lia.
    pose proof (poll_loop_count _ _ _ _ _ _ Hw _ _ _ Hl0 Hpoll) as K.
    intros b Eb. rewrite Ee0 in Eb. inversion Eb; subst b.
    rewrite !count_converting_app, run_events_count. cbn [count_converting]. lia.
  - rewrite Es0 in Hs. rewrite Ee0 in He. inversion Hs; inversion He; subst s e.
    assert (Hw : 0 <= e0 - s0 <= 100) by lia.
    assert (Hl0 : s0 <= s0 <= e0) by lia.
    pose proof (poll_loop_count _ _ _ _ _ _ Hw _ _ _ Hl0 Hpoll) as K.
    intros b Eb. rewrite Ee0 in Eb. inversion Eb; subst b.
    rewrite !count_converting_app, run_events_count. cbn [count_converting]. lia.
Qed.

(** X7: however often the progress file is polled, the polling loops
    of a whole batch (of at most 2^40 files) send at most 100 updates:
    each one raises the value by at least one, inside a slice, and the
    slices share the range from 0 to 100. *)
Theorem at_most_100_polled_updates display env files fmt :
  Z.of_nat (List.length files) <= 2 ^ 40 ->
  (count_converting (trace (fst (convert_files display env files fmt))) <= 100)%nat.
Proof.
  intros Ht.
  destruct (convert_files display env files fmt) as [st fl] eqn:H. cbn [fst].
  pose proof (convert_files_cases _ _ _ _ _ _ H) as Hc.
  assert (G : forall st0 fl0,
            run_loop display (List.length files) fmt env 0 files initial_state
              = (st0, fl0) ->
            Z.of_nat (count_converting (trace st0)) <= 100).
  { intros st0 fl0 Hrun.
    pose proof (run_loop_inv display (List.length files) fmt env
                  (fun idx st =>
                     forall b, slice_bound (Z.of_nat idx)
                                 (Z.of_nat (List.length files)) = Ok b ->
                       Z.of_nat (count_converting (trace st)) <= b)
                  (fun st _ => Z.of_nat (count_converting (trace st)) <= 100))
      as Inv.
    assert (K : match fl0 with
                | Next => forall b, slice_bound (Z.of_nat (List.length files))
                                      (Z.of_nat (List.length files)) = Ok b ->
                            Z.of_nat (count_converting (trace st0)) <= b
                | _ => Z.of_nat (count_converting (trace st0)) <= 100
                end).
    { apply (fun H => Inv H files 0%nat initial_state st0 fl0);
        [| reflexivity | | exact Hrun].
      - intros idx filepath st1 st' fl' Hidx HP Hp.
        exact (pass_count _ _ _ _ _ _ _ _ _ Hidx Ht HP Hp).
      - intros b Eb. cbn [initial_state trace count_converting].
        destruct files as [|f fs].
        + cbn in Eb. discriminate.
        + rewrite slice_bound_zero in Eb
            by (pose proof pow40_lt_pow53; cbn [List.length] in *; lia).
          inversion Eb. lia. }
    destruct fl0; try exact K.
    destruct files as [|f fs].
    - cbn in Hrun. inversion Hrun; subst. cbn. lia.
    - apply K. apply slice_bound_full.
      pose proof pow40_lt_pow53. cbn [List.length] in *. lia. }
  assert (Hz : Z.of_nat (count_converting (trace st)) <= 100).
  { destruct fl.
    - destruct Hc as (st0 & Hrun & ->). specialize (G _ _ Hrun).
      unfold final_report, emit. cbn [errors done trace].
      destruct (errors st0); [destruct (Nat.ltb 0 (done st0))|]; cbn [trace];
        rewrite ?count_converting_app; cbn [count_converting]; lia.
    - exact (G _ _ Hc).
    - exact (G _ _ Hc). }
  lia.
Qed.

Lemma at_most_100_polled_updates_witness :
  Z.of_nat (List.length two_files) <= 2 ^ 40 /\
  (count_converting
     (trace (fst (convert_files true env_two_done two_files (lit "mp3")))) <= 100)%nat.
Proof.
  assert (H : Z.of_nat (List.length two_files) <= 2 ^ 40)
    by (vm_compute; discriminate).
  split; [exact H|].
  exact (at_most_100_polled_updates true env_two_done two_files (lit "mp3") H).
Defined.

(* ------------------------------------------------------------------ *)
(** ** The output files *)

Lemma poll_events_no_output display idx s e d last ts evs c x :
  poll_loop display idx s e d last ts = (evs, c) -> In x evs ->
  event_output x = None /\ event_idx x = Some idx /\
  (forall v a, x <> PbarSet idx Finishing v a).
Proof.
  intros Hp Hin. pose proof (poll_events_kind _ _ _ _ _ _ _ _ _ Hp) as Hk.
  rewrite Forall_forall in Hk. destruct (Hk x Hin) as [(v & a & ->) | ->].
  - repeat split; try reflexivity. intros v' a'. discriminate.
  - repeat split; try reflexivity. intros v' a'. discriminate.
Qed.

(** The events of one pass. *)
Lemma pass_outputs display total fmt idx filepath te st st' fl :
  pass display total fmt idx filepath te st st' fl ->
  exists evs, trace st' = trace st ++ evs /\
    (forall x i o, In x evs -> event_output x = Some (i, o) ->
       i = idx /\ input_exists te = true
       /\ choose_output (Path filepath) fmt = Ok o) /\
    (forall x j, In x evs -> event_idx x = Some j -> j = idx) /\
    ((forall o, ~ In (UnlinkOutput idx o) evs)
     \/ (forall v a, ~ In (PbarSet idx Finishing v a) evs)).
Proof.
  intros Hp.
  assert (Run : forall out s e evs c x,
            input_exists te = true ->
            choose_output (Path filepath) fmt = Ok out ->
            poll_loop display idx s e (duration te) s (ticks te) = (evs, c) ->
            In x (run_events display idx te out s evs) ->
            (forall i o, event_output x = Some (i, o) ->
               i = idx /\ input_exists te = true
               /\ choose_output (Path filepath) fmt = Ok o) /\
            (forall j, event_idx x = Some j -> j = idx) /\
            (forall o, x <> UnlinkOutput idx o) /\
            (forall v a, x <> PbarSet idx Finishing v a)).
  { intros out s e evs c x Hex Ho Hpoll Hin. unfold run_events in Hin.
    cbn [app] in Hin.
    destruct Hin as [<- | [<- | [<- | Hin]]].
    - repeat split; try discriminate. intros j E; inversion E; reflexivity.
    - repeat split; try discriminate. intros j E; inversion E; reflexivity.
    - repeat split; try discriminate.
      + inversion H; reflexivity.
      + assumption.
      + inversion H; subst; assumption.
      + intros j E; inversion E; reflexivity.
    - apply in_app_or in Hin. destruct Hin as [Hin | [<- | [<- | []]]].
      + destruct (poll_events_no_output _ _ _ _ _ _ _ _ _ x Hpoll Hin)
          as (E1 & E2 & E3).
        repeat split; try (intros; congruence).
        intros o ->. discriminate.
      + repeat split; try discriminate. intros j E; inversion E; reflexivity.
      + repeat split; try discriminate. intros j E; inversion E; reflexivity. }
  destruct Hp as [Hex | e Hex _ | out Hex Ho Hl
                 | out s e evs Hex Ho Hl Hs He Hpoll
                 | out s e evs Hex Ho Hl Hs He Hpoll Hrc
                 | out s e evs Hex Ho Hl Hs He Hpoll Hrc];
    cbn [add_error emit trace].
  - exists []. rewrite app_nil_r. split; [reflexivity|].
    split; [intros ? ? ? []|]. split; [intros ? ? []|]. left. intros o [].
  - exists []. rewrite app_nil_r. split; [reflexivity|].
    split; [intros ? ? ? []|]. split; [intros ? ? []|]. left. intros o [].
  - exists []. rewrite app_nil_r. split; [reflexivity|].
    split; [intros ? ? ? []|]. split; [intros ? ? []|]. left. intros o [].
  - eexists. split; [reflexivity|].
    split; [|split].
    + intros x i o Hin. apply in_app_or in Hin. destruct Hin as [Hin | Hin].
      * apply (Run out s e evs true x Hex Ho Hpoll Hin).
      * destruct Hin as [<- | [<- | [<- | []]]]; try discriminate.
        intros E; inversion E; subst. auto.
    + intros x j Hin. apply in_app_or in Hin. destruct Hin as [Hin | Hin].
      * apply (Run out s e evs true x Hex Ho Hpoll Hin).
      * destruct Hin as [<- | [<- | [<- | []]]]; try discriminate.
        intros E; inversion E; reflexivity.
    + right. intros v a Hin. apply in_app_or in Hin. destruct Hin as [Hin | Hin].
      * destruct (Run out s e evs true _ Hex Ho Hpoll Hin) as (_ & _ & _ & K).
        exact (K v a eq_refl).
      * destruct Hin as [E | [E | [E | []]]]; discriminate.
  - eexists. split; [reflexivity|].
    split; [|split].
    + intros x i o Hin. apply in_app_or in Hin. destruct Hin as [Hin | Hin].
      * apply (Run out s e evs false x Hex Ho Hpoll Hin).
      * destruct Hin as [<- | []]. intros E; inversion E; subst. auto.
    + intros x j Hin. apply in_app_or in Hin. destruct Hin as [Hin | Hin].
      * apply (Run out s e evs false x Hex Ho Hpoll Hin).
      * destruct Hin as [<- | []]. intros E; inversion E; reflexivity.
    + right. intros v a Hin. apply in_app_or in Hin. destruct Hin as [Hin | Hin].
      * destruct (Run out s e evs false _ Hex Ho Hpoll Hin) as (_ & _ & _ & K).
        exact (K v a eq_refl).
      * destruct Hin as [E | []]; discriminate.
  - eexists. split; [reflexivity|].
    split; [|split].
    + intros x i o Hin. apply in_app_or in Hin. destruct Hin as [Hin | Hin].
      * apply (Run out s e evs false x Hex Ho Hpoll Hin).
      * destruct Hin as [<- | []]. discriminate.
    + intros x j Hin. apply in_app_or in Hin. destruct Hin as [Hin | Hin].
      * apply (Run out s e evs false x Hex Ho Hpoll Hin).
      * destruct Hin as [<- | []]. intros E; inversion E; reflexivity.
    + left. intros o Hin. apply in_app_or in Hin. destruct Hin as [Hin | Hin].
      * destruct (Run out s e evs false _ Hex Ho Hpoll Hin) as (_ & _ & K & _).
        exact (K o eq_refl).
      * destruct Hin as [E | []]; discriminate.
Qed.

Lemma run_loop_outputs display total fmt env files :
  forall idx st st' fl,
    run_loop display total fmt env idx files st = (st', fl) ->
    exists evs, trace st' = trace st ++ evs /\
      Forall (outputs_of env fmt idx files) evs /\
      Forall (fun x => forall j, event_idx x = Some j -> (idx <= j)%nat) evs /\
      kept_if_done evs.
Proof.
  induction files as [|f rest IH]; intros idx st st' fl; cbn [run_loop].
  - intros H; inversion H; subst. exists []. rewrite app_nil_r.
    split; [reflexivity|]. split; [constructor|]. split; [constructor|].
    intros i o v a [].
  - destruct (loop_body display total fmt idx f (env idx) st) as [st1 fl1] eqn:Eb.
    pose proof (loop_body_pass' _ _ _ _ _ _ _ _ _ Eb) as Hp.
    destruct (pass_outputs _ _ _ _ _ _ _ _ _ Hp) as (evs1 & Etr1 & O1 & I1 & K1).
    assert (First : Forall (outputs_of env fmt idx (f :: rest)) evs1).
    { apply Forall_forall. intros x Hin i o Eo.
      destruct (O1 x i o Hin Eo) as (-> & Hex & Hc).
      split; [lia|]. exists f. rewrite Nat.sub_diag. auto. }
    assert (FirstIdx : Forall (fun x => forall j, event_idx x = Some j ->
                                 (idx <= j)%nat) evs1).
    { apply Forall_forall. intros x Hin j Ej. rewrite (I1 x j Hin Ej). lia. }
    assert (FirstKept : kept_if_done evs1).
    { intros i o v a Hu Hf.
      pose proof (I1 _ i Hu eq_refl) as ->.
      destruct K1 as [K | K]; [exact (K o Hu) | exact (K v a Hf)]. }
    assert (Stop : fl1 <> Next -> (st1, fl1) = (st', fl) ->
              exists evs, trace st' = trace st ++ evs /\
                Forall (outputs_of env fmt idx (f :: rest)) evs /\
                Forall (fun x => forall j, event_idx x = Some j ->
                          (idx <= j)%nat) evs /\
                kept_if_done evs).
    { intros _ H. inversion H; subst. exists evs1. auto. }
    destruct fl1; [|apply Stop; discriminate | apply Stop; discriminate].
    clear Stop. intros Hrun.
    destruct (IH _ _ _ _ Hrun) as (evs2 & Etr2 & O2 & I2 & K2).
    exists (evs1 ++ evs2). split; [rewrite Etr2, Etr1, app_assoc; reflexivity|].
    split; [|split].
    + apply Forall_app. split; [exact First|].
      eapply Forall_impl; [|exact O2]. intros x Hx i o Eo.
      destruct (Hx i o Eo) as (Hi & f' & Hn & Hex & Hc).
      split; [lia|]. exists f'. split; [|auto].
      replace (i - idx)%nat with (S (i - S idx)) by lia. exact Hn.
    + apply Forall_app. split; [exact FirstIdx|].
      eapply Forall_impl; [|exact I2]. intros x Hx j Ej. specialize (Hx j Ej). lia.
    + intros i o v a Hu Hf.
      apply in_app_or in Hu. apply in_app_or in Hf.
      rewrite Forall_forall in I2.
      destruct Hu as [Hu | Hu], Hf as [Hf | Hf].
      * exact (FirstKept i o v a Hu Hf).
      * pose proof (I1 _ i Hu eq_refl). pose proof (I2 _ Hf i eq_refl). lia.
      * pose proof (I1 _ i Hf eq_refl). pose proof (I2 _ Hu i eq_refl). lia.
      * exact (K2 i o v a Hu Hf).
Qed.

(** The trace of the whole call: the opening, the events of the passes,
    and a tail without indexed events. *)
Lemma convert_files_outputs display env files fmt :
  exists evs tail,
    trace (fst (convert_files display env files fmt)) = PbarOpen :: evs ++ tail /\
    Forall (outputs_of env fmt 0 files) evs /\
    kept_if_done evs /\
    Forall (fun x => event_idx x = None) tail.
Proof.
  destruct (convert_files display env files fmt) as [st fl] eqn:H. cbn [fst].
  pose proof (convert_files_cases _ _ _ _ _ _ H) as Hc.
  destruct fl.
  - destruct Hc as (st0 & Hrun & ->).
    destruct (run_loop_outputs _ _ _ _ _ _ _ _ _ Hrun) as (evs & Etr & O & _ & K).
    destruct (final_report_trace (List.length files) st0)
      as (tail & Etr' & _ & _ & _ & _ & Hnone & _).
    exists evs, (PbarClose :: tail). rewrite Etr', Etr. cbn [initial_state trace app].
    split; [reflexivity|]. split; [exact O|].
    split; [exact K|]. constructor; [reflexivity | exact Hnone].
  - destruct (run_loop_outputs _ _ _ _ _ _ _ _ _ Hc) as (evs & Etr & O & _ & K).
    exists evs, []. rewrite Etr, app_nil_r. cbn [initial_state trace app].
    split; [reflexivity|]. split; [exact O|]. split; [exact K | constructor].
  - destruct (run_loop_outputs _ _ _ _ _ _ _ _ _ Hc) as (evs & Etr & O & _ & K).
    exists evs, []. rewrite Etr, app_nil_r. cbn [initial_state trace app].
    split; [reflexivity|]. split; [exact O|]. split; [exact K | constructor].
Qed.

Lemma in_passes display env files fmt x j :
  In x (trace (fst (convert_files display env files fmt))) ->
  event_idx x = Some j ->
  forall evs tail,
    trace (fst (convert_files display env files fmt)) = PbarOpen :: evs ++ tail ->
    Forall (fun x => event_idx x = None) tail -> In x evs.
Proof.
  intros Hin Ej evs tail Etr Hnone. rewrite Etr in Hin.
  destruct Hin as [<- | Hin]; [discriminate|].
  apply in_app_or in Hin. destruct Hin as [Hin | Hin]; [exact Hin|].
  rewrite Forall_forall in Hnone. rewrite (Hnone x Hin) in Ej. discriminate.
Qed.

(** X8: in the whole call, the path on which an encoder is spawned,
    and the path of an output file that is unlinked, is always the output
    path chosen for the input of that very task, an input that exists;
    and it differs from the path of that input. *)
Theorem encoder_writes_chosen_output display env files fmt i out :
  In (Spawn i out) (trace (fst (convert_files display env files fmt)))
  \/ In (UnlinkOutput i out) (trace (fst (convert_files display env files fmt))) ->
  exists filepath,
    nth_error files i = Some filepath /\
    input_exists (env i) = true /\
    choose_output (Path filepath) fmt = Ok out /\
    out <> Path filepath.
Proof.
  intros Hin.
  destruct (convert_files_outputs display env files fmt)
    as (evs & tail & Etr & O & _ & Hnone).
  assert (G : exists x, In x evs /\ event_output x = Some (i, out)).
  { destruct Hin as [Hin | Hin].
    - exists (Spawn i out). split; [|reflexivity].
      exact (in_passes _ _ _ _ _ i Hin eq_refl evs tail Etr Hnone).
    - exists (UnlinkOutput i out). split; [|reflexivity].
      exact (in_passes _ _ _ _ _ i Hin eq_refl evs tail Etr Hnone). }
  destruct G as (x & Hx & Eo). rewrite Forall_forall in O.
  destruct (O x Hx i out Eo) as (_ & f & Hn & Hex & Hc).
  rewrite Nat.sub_0_r in Hn. exists f. split; [exact Hn|]. split; [exact Hex|].
  split; [exact Hc|]. apply (choose_output_differs _ _ _ Hc).
Qed.

Lemma encoder_writes_chosen_output_witness :
  (In (Spawn 1 (mkPath [] [lit "b.mp3"]))
      (trace (fst (convert_files true env_fail_then_cancel two_files (lit "mp3"))))
   \/ In (UnlinkOutput 1 (mkPath [] [lit "b.mp3"]))
      (trace (fst (convert_files true env_fail_then_cancel two_files (lit "mp3"))))) /\
  exists filepath,
    nth_error two_files 1 = Some filepath /\
    input_exists (env_fail_then_cancel 1) = true /\
    choose_output (Path filepath) (lit "mp3") = Ok (mkPath [] [lit "b.mp3"]) /\
    mkPath [] [lit "b.mp3"] <> Path filepath.
Proof.
  assert (H : In (Spawn 1 (mkPath [] [lit "b.mp3"]))
      (trace (fst (convert_files true env_fail_then_cancel two_files (lit "mp3"))))
   \/ In (UnlinkOutput 1 (mkPath [] [lit "b.mp3"]))
      (trace (fst (convert_files true env_fail_then_cancel two_files (lit "mp3")))))
    by (right; vm_compute; repeat (first [left; reflexivity | right])).
  split; [exact H|].
  exact (encoder_writes_chosen_output true env_fail_then_cancel two_files
           (lit "mp3") 1%nat (mkPath [] [lit "b.mp3"]) H).
Defined.

(** Two inputs can share an output path: "a.wav" and "a.flac" both give
    "a.mp3".  When the first is converted and the encoder of the second
    fails, the unlink of the second names the file the first has
    written. *)
Lemma shared_output_is_removed :
  convert_files true
    (fun i => match i with O => quiet_task 0 [] | _ => quiet_task 1 [] end)
    [lit "a.wav"; lit "a.flac"] (lit "mp3")
  = (mkState [lit "a.flac:" ++ [ch_newline]] 1
       [PbarOpen;
        PbarSet 0 Preparing 0 true; MkTemp 0; Spawn 0 (mkPath [] [lit "a.mp3"]);
        Wait 0; UnlinkProgress 0; PbarSet 0 Finishing 50 true;
        PbarSet 1 Preparing 50 true; MkTemp 1; Spawn 1 (mkPath [] [lit "a.mp3"]);
        Wait 1; UnlinkProgress 1; UnlinkOutput 1 (mkPath [] [lit "a.mp3"]);
        PbarClose; ErrorDialog 1 2 1], Next).
Proof. vm_compute. reflexivity. Qed.

(** X9: a task whose "Done" update was sent never unlinks its output.
    An unlink that names the output path of such a task comes from
    another task of the batch, one whose input has the same output path
    and which was not converted; when no other input of the batch has
    that output path, no unlink names it. *)
Theorem converted_output_is_kept display env files fmt i v a filepath out :
  In (PbarSet i Finishing v a)
     (trace (fst (convert_files display env files fmt))) ->
  nth_error files i = Some filepath ->
  choose_output (Path filepath) fmt = Ok out ->
  (forall o, ~ In (UnlinkOutput i o)
                  (trace (fst (convert_files display env files fmt)))) /\
  (forall j, In (UnlinkOutput j out)
                (trace (fst (convert_files display env files fmt))) ->
     j <> i /\
     (exists other, nth_error files j = Some other /\
        input_exists (env j) = true /\
        choose_output (Path other) fmt = Ok out) /\
     (forall v' a', ~ In (PbarSet j Finishing v' a')
                         (trace (fst (convert_files display env files fmt))))) /\
  ((forall j other, j <> i -> nth_error files j = Some other ->
      choose_output (Path other) fmt <> Ok out) ->
   forall j, ~ In (UnlinkOutput j out)
                  (trace (fst (convert_files display env files fmt)))).
Proof.
  intros Hf Hn Ho.
  destruct (convert_files_outputs display env files fmt)
    as (evs & tail & Etr & O & K & Hnone).
  assert (Own : forall o, ~ In (UnlinkOutput i o)
                  (trace (fst (convert_files display env files fmt)))).
  { intros o Hu. apply (K i o v a).
    - exact (in_passes _ _ _ _ _ i Hu eq_refl evs tail Etr Hnone).
    - exact (in_passes _ _ _ _ _ i Hf eq_refl evs tail Etr Hnone). }
  assert (Other : forall j, In (UnlinkOutput j out)
                (trace (fst (convert_files display env files fmt))) ->
     j <> i /\
     (exists other, nth_error files j = Some other /\
        input_exists (env j) = true /\
        choose_output (Path other) fmt = Ok out) /\
     (forall v' a', ~ In (PbarSet j Finishing v' a')
                         (trace (fst (convert_files display env files fmt))))).
  { intros j Hu. split; [|split].
    - intros ->. exact (Own out Hu).
    - pose proof (in_passes _ _ _ _ _ j Hu eq_refl evs tail Etr Hnone) as Hx.
      rewrite Forall_forall in O.
      destruct (O _ Hx j out eq_refl) as (_ & f & Hnj & Hex & Hc).
      rewrite Nat.sub_0_r in Hnj. exists f. auto.
    - intros v' a' Hf'. apply (K j out v' a').
      + exact (in_passes _ _ _ _ _ j Hu eq_refl evs tail Etr Hnone).
      + exact (in_passes _ _ _ _ _ j Hf' eq_refl evs tail Etr Hnone). }
  split; [exact Own|]. split; [exact Other|].
  intros Hdistinct j Hu.
  destruct (Other j Hu) as (Hji & (other & Hnj & _ & Hc) & _).
  exact (Hdistinct j other Hji Hnj Hc).
Qed.

Lemma converted_output_is_kept_witness :
  In (PbarSet 1 Finishing 100 true)
     (trace (fst (convert_files true env_two_done two_files (lit "mp3")))) /\
  nth_error two_files 1 = Some (lit "b.flac") /\
  choose_output (Path (lit "b.flac")) (lit "mp3") = Ok (mkPath [] [lit "b.mp3"]) /\
  (forall j other, j <> 1%nat -> nth_error two_files j = Some other ->
     choose_output (Path other) (lit "mp3") <> Ok (mkPath [] [lit "b.mp3"])) /\
  forall j,
    ~ In (UnlinkOutput j (mkPath [] [lit "b.mp3"]))
         (trace (fst (convert_files true env_two_done two_files (lit "mp3")))).
Proof.
  assert (H1 : In (PbarSet 1 Finishing 100 true)
     (trace (fst (convert_files true env_two_done two_files (lit "mp3")))))
    by (vm_compute; repeat (first [left; reflexivity | right])).
  assert (H2 : nth_error two_files 1 = Some (lit "b.flac")) by reflexivity.
  assert (H3 : choose_output (Path (lit "b.flac")) (lit "mp3")
               = Ok (mkPath [] [lit "b.mp3"])) by (vm_compute; reflexivity).
  assert (H4 : forall j other, j <> 1%nat -> nth_error two_files j = Some other ->
     choose_output (Path other) (lit "mp3") <> Ok (mkPath [] [lit "b.mp3"])).
  { intros j other Hj Hn. destruct j as [|[|j]]; [| contradiction |].
    - cbn in Hn. inversion Hn; subst other. vm_compute. discriminate.
    - cbn in Hn. destruct j; discriminate. }
  split; [exact H1|]. split; [exact H2|]. split; [exact H3|]. split; [exact H4|].
  exact (proj2 (proj2 (converted_output_is_kept true env_two_done two_files (lit "mp3")
                         1%nat 100 true (lit "b.flac") (mkPath [] [lit "b.mp3"])
                         H1 H2 H3)) H4).
Defined.

(* ------------------------------------------------------------------ *)
(** ** The decoder of the diagnostics *)

Lemma is_continuation_range b : is_continuation b = true -> (128 <= b <= 191)%N.
Proof.
  unfold is_continuation. intros H. apply andb_prop in H. destruct H as [H1 H2].
  apply N.leb_le in H1, H2. lia.
Qed.

Lemma scalar_replacement : scalar_value REPLACEMENT.
Proof. unfold scalar_value, REPLACEMENT. lia. Qed.

(** One step of the decoder: a character, and the decoding of what is
    left after the bytes it consumed. *)
Lemma utf8_decode_step c r :
  exists ch k, (k <= List.length r)%nat /\
    utf8_decode (c :: r) = ch :: utf8_decode (skipn k r) /\
    scalar_value ch.
Proof.
  pose proof scalar_replacement as HR.
  assert (Rep : forall k rhs, (k <= List.length r)%nat ->
            rhs = REPLACEMENT :: utf8_decode (skipn k r) ->
            exists ch k, (k <= List.length r)%nat /\
              rhs = ch :: utf8_decode (skipn k r) /\
              scalar_value ch).
  { intros k rhs Hk ->. exists REPLACEMENT, k. auto. }
  cbn [utf8_decode].
  destruct (c <? 128)%N eqn:E1.
  { apply N.ltb_lt in E1. exists c, 0%nat. cbn [skipn].
    split; [lia|]. split; [reflexivity|]. unfold scalar_value. lia. }
  apply N.ltb_ge in E1.
  destruct (c <? 194)%N eqn:E2; [apply (Rep 0%nat); [lia | reflexivity]|].
  apply N.ltb_ge in E2.
  destruct (c <? 224)%N eqn:E3.
  { apply N.ltb_lt in E3.
    destruct r as [|c2 r2]; [apply (Rep 0%nat); [cbn; lia | reflexivity]|].
    destruct (is_continuation c2) eqn:C2;
      [|apply (Rep 0%nat); [cbn; lia | reflexivity]].
    apply is_continuation_range in C2.
    eexists _, 1%nat. cbn [skipn List.length].
    split; [lia|]. split; [reflexivity|].
    unfold scalar_value. lia. }
  apply N.ltb_ge in E3.
  destruct (c <? 240)%N eqn:E4.
  { apply N.ltb_lt in E4.
    destruct r as [|c2 r2]; [apply (Rep 0%nat); [cbn; lia | reflexivity]|].
    destruct (is_continuation c2) eqn:C2; cbn [negb orb];
      [|apply (Rep 0%nat); [cbn; lia | reflexivity]].
    apply is_continuation_range in C2.
    destruct (if (c2 <? 160)%N then (c =? 224)%N else (c =? 237)%N) eqn:G;
      [apply (Rep 0%nat); [cbn; lia | reflexivity]|].
    destruct r2 as [|c3 r3]; [apply (Rep 1%nat); [cbn; lia | reflexivity]|].
    destruct (is_continuation c3) eqn:C3;
      [|apply (Rep 1%nat); [cbn; lia | reflexivity]].
    apply is_continuation_range in C3.
    eexists _, 2%nat. cbn [skipn List.length].
    split; [lia|]. split; [reflexivity|].
    unfold scalar_value.
    destruct (c2 <? 160)%N eqn:L.
    - apply N.ltb_lt in L. apply N.eqb_neq in G. lia.
    - apply N.ltb_ge in L. apply N.eqb_neq in G. lia. }
  apply N.ltb_ge in E4.
  destruct (c <? 245)%N eqn:E5; [|apply (Rep 0%nat); [lia | reflexivity]].
  apply N.ltb_lt in E5.
  destruct r as [|c2 r2]; [apply (Rep 0%nat); [cbn; lia | reflexivity]|].
  destruct (is_continuation c2) eqn:C2; cbn [negb orb];
    [|apply (Rep 0%nat); [cbn; lia | reflexivity]].
  apply is_continuation_range in C2.
  destruct (if (c2 <? 144)%N then (c =? 240)%N else (c =? 244)%N) eqn:G;
    [apply (Rep 0%nat); [cbn; lia | reflexivity]|].
  destruct r2 as [|c3 r3]; [apply (Rep 1%nat); [cbn; lia | reflexivity]|].
  destruct (is_continuation c3) eqn:C3; cbn [negb];
    [|apply (Rep 1%nat); [cbn; lia | reflexivity]].
  apply is_continuation_range in C3.
  destruct r3 as [|c4 r4]; [apply (Rep 2%nat); [cbn; lia | reflexivity]|].
  destruct (is_continuation c4) eqn:C4;
    [|apply (Rep 2%nat); [cbn; lia | reflexivity]].
  apply is_continuation_range in C4.
  eexists _, 3%nat. cbn [skipn List.length].
  split; [lia|]. split; [reflexivity|].
  unfold scalar_value.
  destruct (c2 <? 144)%N eqn:L.
  - apply N.ltb_lt in L. apply N.eqb_neq in G. lia.
  - apply N.ltb_ge in L. apply N.eqb_neq in G. lia.
Qed.

Lemma utf8_decode_length_aux n : forall bs, (List.length bs <= n)%nat ->
  (List.length (utf8_decode bs) <= List.length bs)%nat.
Proof.
  induction n as [|n IH]; intros bs Hn.
  - destruct bs; [cbn; lia | cbn in Hn; lia].
  - destruct bs as [|c r]; [cbn; lia|]. cbn [List.length] in Hn.
    destruct (utf8_decode_step c r) as (ch & k & Hk & E & _). rewrite E.
    cbn [List.length].
    assert (Hs : (List.length (skipn k r) <= List.length r)%nat)
      by (rewrite length_skipn; lia).
    specialize (IH (skipn k r) ltac:(lia)). lia.
Qed.

Lemma utf8_decode_length bs :
  (List.length (utf8_decode bs) <= List.length bs)%nat.
Proof. apply (utf8_decode_length_aux (List.length bs)). lia. Qed.

(** X10: decoding with [errors='replace'] never yields more characters
    than there are bytes; the excerpt kept for a failed file has at most
    400 characters and at most as many as the encoder wrote bytes. *)
Theorem excerpt_not_longer_than_stderr (b : bytes) :
  (List.length (decode_replace b) <= List.length b)%nat /\
  (List.length (firstn 400 (decode_replace b)) <= Nat.min 400 (List.length b))%nat.
Proof.
  assert (H : (List.length (decode_replace b) <= List.length b)%nat).
  { unfold decode_replace.
    pose proof (utf8_decode_length (map Byte.to_N b)) as H.
    rewrite length_map in H. exact H. }
  split; [exact H|]. rewrite length_firstn. lia.
Qed.

Lemma utf8_decode_ascii bs :
  Forall (fun c => (c < 128)%N) bs -> utf8_decode bs = bs.
Proof.
  induction 1 as [|c r Hc _ IH]; [reflexivity|].
  cbn [utf8_decode]. apply N.ltb_lt in Hc. rewrite Hc, IH. reflexivity.
Qed.

(** X11: diagnostics that are pure ASCII are decoded byte for byte, so
    the excerpt kept for a failed file is then its first 400 bytes. *)
Theorem ascii_stderr_kept_verbatim (b : bytes) :
  Forall (fun x => (Byte.to_N x < 128)%N) b ->
  decode_replace b = map Byte.to_N b /\
  firstn 400 (decode_replace b) = map Byte.to_N (firstn 400 b).
Proof.
  intros H.
  assert (E : decode_replace b = map Byte.to_N b).
  { unfold decode_replace. apply utf8_decode_ascii.
    apply Forall_map. exact H. }
  split; [exact E|]. rewrite E. apply firstn_map.
Qed.

Lemma ascii_stderr_kept_verbatim_witness :
  Forall (fun x => (Byte.to_N x < 128)%N) [Byte.x6f; Byte.x6b; Byte.x0a] /\
  decode_replace [Byte.x6f; Byte.x6b; Byte.x0a]
    = map Byte.to_N [Byte.x6f; Byte.x6b; Byte.x0a] /\
  firstn 400 (decode_replace [Byte.x6f; Byte.x6b; Byte.x0a])
    = map Byte.to_N (firstn 400 [Byte.x6f; Byte.x6b; Byte.x0a]).
Proof.
  assert (H : Forall (fun x => (Byte.to_N x < 128)%N)
                [Byte.x6f; Byte.x6b; Byte.x0a])
    by (repeat constructor).
  split; [exact H|].
  exact (ascii_stderr_kept_verbatim [Byte.x6f; Byte.x6b; Byte.x0a] H).
Defined.

Lemma utf8_decode_scalar_aux n : forall bs, (List.length bs <= n)%nat ->
  Forall scalar_value (utf8_decode bs).
Proof.
  induction n as [|n IH]; intros bs Hn.
  - destruct bs; [constructor | cbn in Hn; lia].
  - destruct bs as [|c r]; [constructor|]. cbn [List.length] in Hn.
    destruct (utf8_decode_step c r) as (ch & k & Hk & E & Hs). rewrite E.
    constructor; [assumption|].
    apply IH. rewrite length_skipn. lia.
Qed.

(** X12: whatever bytes the encoder wrote, the decoded diagnostics hold
    only Unicode scalar values: no surrogate and nothing beyond U+10FFFF;
    so does the excerpt. *)
Theorem decoded_stderr_is_scalar (b : bytes) :
  Forall scalar_value (decode_replace b) /\
  Forall scalar_value (firstn 400 (decode_replace b)).
Proof.
  assert (H : Forall scalar_value (decode_replace b)).
  { unfold decode_replace.
    apply (utf8_decode_scalar_aux (List.length (map Byte.to_N b))). lia. }
  split; [exact H|].
  rewrite <- (firstn_skipn 400 (decode_replace b)) in H.
  apply Forall_app in H. apply H.
Qed.

(* ------------------------------------------------------------------ *)
(** ** Where the output goes *)

Lemma path_stem_nonempty p : path_name p <> [] -> path_stem p <> [].
Proof.
  intros Hn. unfold path_stem.
  destruct (rfind ch_dot (path_name p)) as [i|] eqn:E; [|assumption].
  destruct (Nat.ltb 0 i && Nat.ltb i (List.length (path_name p) - 1))%bool eqn:B;
    [|assumption].
  apply andb_prop in B. destruct B as [B1 B2].
  apply Nat.ltb_lt in B1, B2.
  intros H. apply (f_equal (@List.length N)) in H.
  rewrite length_firstn in H. cbn in H. lia.
Qed.

Lemma name_stem_suffix p a b :
  a <> [] -> b <> [] -> ~ In ch_dot b ->
  path_stem (replace_name p (a ++ ch_dot :: b)) = a /\
  path_suffix (replace_name p (a ++ ch_dot :: b)) = ch_dot :: b.
Proof.
  intros Ha Hb Hd. unfold path_stem, path_suffix. rewrite path_name_replace.
  rewrite rfind_app by assumption.
  assert (La : (0 < List.length a)%nat) by (destruct a; [congruence | cbn; lia]).
  assert (Lb : (0 < List.length b)%nat) by (destruct b; [congruence | cbn; lia]).
  replace (Nat.ltb 0 (List.length a)) with true by (symmetry; apply Nat.ltb_lt; lia).
  replace (Nat.ltb (List.length a) (List.length (a ++ ch_dot :: b) - 1)) with true
    by (symmetry; apply Nat.ltb_lt; rewrite length_app; cbn; lia).
  cbn [andb]. split.
  - rewrite firstn_app, firstn_all, Nat.sub_diag. cbn. apply app_nil_r.
  - rewrite skipn_app, skipn_all, Nat.sub_diag. reflexivity.
Qed.

(** The output is the input with another name: the stem, or the stem
    followed by "_" and the format, and then the target suffix. *)
Lemma choose_output_name p fmt out :
  choose_output p fmt = Ok out ->
  exists a, out = replace_name p (a ++ target_suffix fmt) /\ a <> [] /\
    (a = path_stem p \/ a = path_stem p ++ lit "_" ++ fmt) /\
    (path_suffix p <> target_suffix fmt -> a = path_stem p).
Proof.
  intros H. pose proof (choose_output_differs p fmt out H) as [Hd Hc].
  unfold choose_output in H.
  destruct (with_suffix p (target_suffix fmt)) as [q|] eqn:E1; [|discriminate].
  cbn [bind] in H.
  destruct (with_suffix_ok _ _ _ E1) as [Eq Hname].
  destruct (path_eqb q p) eqn:Ep.
  - apply path_eqb_eq in Ep. subst q.
    exists (path_stem p ++ lit "_" ++ fmt). split.
    + rewrite (Hc eq_refl). rewrite <- !app_assoc. reflexivity.
    + split; [|split; [right; reflexivity|]].
      * intros E. apply app_eq_nil in E. destruct E as [_ E]. discriminate.
      * intros Hs. exfalso. apply Hs.
        symmetry in Eq. apply replace_name_fix in Eq.
        rewrite <- (stem_suffix p) in Eq. apply app_inv_head in Eq.
        symmetry. exact Eq.
  - inversion H; subst out. exists (path_stem p).
    split; [exact Eq|]. split; [apply path_stem_nonempty; assumption|].
    split; [left; reflexivity | reflexivity].
Qed.

Lemma replace_name_same p : path_name p <> [] -> replace_name p (path_name p) = p.
Proof.
  destruct p as [an ps]. unfold replace_name, path_name. cbn [anchor parts].
  intros Hn. f_equal. symmetry. apply app_removelast_last.
  intros E. subst ps. apply Hn. reflexivity.
Qed.

(** X13: the output of a file is written beside its input: the chosen
    output path has the anchor and the directory components of the input
    path, and only its last component differs. *)
Theorem output_beside_input p fmt out :
  choose_output p fmt = Ok out ->
  anchor out = anchor p /\
  removelast (parts out) = removelast (parts p) /\
  path_name out <> path_name p.
Proof.
  intros H. pose proof (choose_output_differs p fmt out H) as [Hd _].
  assert (Hname : path_name p <> []).
  { unfold choose_output in H.
    destruct (with_suffix p (target_suffix fmt)) as [q|] eqn:E1; [|discriminate].
    apply (with_suffix_ok _ _ _ E1). }
  destruct (choose_output_name p fmt out H) as (a & -> & _).
  split; [reflexivity|]. split; [apply removelast_last|].
  rewrite path_name_replace. intros E. apply Hd.
  rewrite E. apply replace_name_same. exact Hname.
Qed.

Lemma output_beside_input_witness :
  choose_output (Path (lit "/music/a.mp3")) (lit "mp3")
    = Ok (mkPath (lit "/") [lit "music"; lit "a_mp3.mp3"]) /\
  anchor (mkPath (lit "/") [lit "music"; lit "a_mp3.mp3"])
    = anchor (Path (lit "/music/a.mp3")) /\
  removelast (parts (mkPath (lit "/") [lit "music"; lit "a_mp3.mp3"]))
    = removelast (parts (Path (lit "/music/a.mp3"))) /\
  path_name (mkPath (lit "/") [lit "music"; lit "a_mp3.mp3"])
    <> path_name (Path (lit "/music/a.mp3")).
Proof.
  assert (H : choose_output (Path (lit "/music/a.mp3")) (lit "mp3")
              = Ok (mkPath (lit "/") [lit "music"; lit "a_mp3.mp3"]))
    by (vm_compute; reflexivity).
  split; [exact H|].
  exact (output_beside_input (Path (lit "/music/a.mp3")) (lit "mp3") _ H).
Defined.

(** X14: for a format without a dot (every registered format), the
    output file has the extension of the target, ".m4a" for m4a and alac
    and "." followed by the format otherwise; its stem is the stem of the
    input, or that stem followed by "_" and the format, and it is the
    stem of the input whenever the input has another extension. *)
Theorem output_has_target_suffix p fmt out :
  fmt <> [] -> contains ch_dot fmt = false ->
  choose_output p fmt = Ok out ->
  path_suffix out = target_suffix fmt /\
  (path_stem out = path_stem p \/ path_stem out = path_stem p ++ lit "_" ++ fmt) /\
  (path_suffix p <> target_suffix fmt -> path_stem out = path_stem p).
Proof.
  intros Hf Hdot H.
  destruct (choose_output_name p fmt out H) as (a & -> & Ha & Hor & Himp).
  assert (Hb : exists b, target_suffix fmt = ch_dot :: b /\ b <> [] /\ ~ In ch_dot b).
  { unfold target_suffix.
    destruct (str_eqb fmt (lit "m4a") || str_eqb fmt (lit "alac")).
    - exists (lit "m4a"). split; [reflexivity|]. split; [discriminate|].
      apply contains_false. reflexivity.
    - exists fmt. split; [reflexivity|]. split; [assumption|].
      apply contains_false. assumption. }
  destruct Hb as (b & Eb & Hbne & Hbd). rewrite Eb.
  destruct (name_stem_suffix p a b Ha Hbne Hbd) as [Es Ex].
  rewrite Es, Ex. split; [reflexivity|]. split; [exact Hor|].
  rewrite <- Eb. exact Himp.
Qed.

Lemma output_has_target_suffix_witness :
  lit "alac" <> [] /\ contains ch_dot (lit "alac") = false /\
  choose_output (Path (lit "b.tar.flac")) (lit "alac")
    = Ok (mkPath [] [lit "b.tar.m4a"]) /\
  path_suffix (mkPath [] [lit "b.tar.m4a"]) = target_suffix (lit "alac") /\
  (path_stem (mkPath [] [lit "b.tar.m4a"]) = path_stem (Path (lit "b.tar.flac"))
   \/ path_stem (mkPath [] [lit "b.tar.m4a"])
      = path_stem (Path (lit "b.tar.flac")) ++ lit "_" ++ lit "alac") /\
  (path_suffix (Path (lit "b.tar.flac")) <> target_suffix (lit "alac") ->
   path_stem (mkPath [] [lit "b.tar.m4a"]) = path_stem (Path (lit "b.tar.flac"))).
Proof.
  assert (H1 : lit "alac" <> []) by (vm_compute; discriminate).
  assert (H2 : contains ch_dot (lit "alac") = false) by reflexivity.
  assert (H3 : choose_output (Path (lit "b.tar.flac")) (lit "alac")
               = Ok (mkPath [] [lit "b.tar.m4a"])) by (vm_compute; reflexivity).
  split; [exact H1|]. split; [exact H2|]. split; [exact H3|].
  exact (output_has_target_suffix (Path (lit "b.tar.flac")) (lit "alac") _ H1 H2 H3).
Defined.

(* ------------------------------------------------------------------ *)
(** ** An input without a name *)

Lemma choose_output_no_name p fmt :
  fmt <> [] -> contains ch_slash fmt = false -> path_name p = [] ->
  choose_output p fmt = Raise ValueError.
Proof.
  intros Hf Hs Hn. unfold choose_output.
  destruct (target_suffix_valid fmt Hf Hs) as (V1 & V2 & V3).
  unfold with_suffix. rewrite V1, V2.
  apply str_eqb_neq in V3. rewrite V3, andb_false_r. cbn [orb].
  rewrite Hn. reflexivity.
Qed.

(** X15: for a format that can be a suffix, choosing the output path
    raises exactly for an input path without a final component (the
    empty string, ".", "/" and the like), and what it raises is
    [ValueError]; a pass over such an input, when [exists()] answers
    [True], ends the loop with that exception, before any entry of the
    error list, any dialog, update or encoder. *)
Theorem input_without_name_raises display total fmt idx filepath te st :
  fmt <> [] -> contains ch_slash fmt = false ->
  (forall e, choose_output (Path filepath) fmt = Raise e <->
             e = ValueError /\ path_name (Path filepath) = []) /\
  (input_exists te = true -> path_name (Path filepath) = [] ->
   loop_body display total fmt idx filepath te st = (st, Raised ValueError) /\
   forall env rest, env idx = te ->
     run_loop display total fmt env idx (filepath :: rest) st
     = (st, Raised ValueError)).
Proof.
  intros Hf Hs. split.
  - intros e. split.
    + intros He.
      destruct (list_eq_dec N.eq_dec (path_name (Path filepath)) []) as [Hn | Hn].
      * rewrite (choose_output_no_name _ _ Hf Hs Hn) in He.
        inversion He. auto.
      * destruct (choose_output_total filepath fmt Hn Hf Hs) as [out Eo]. congruence.
    + intros [-> Hn]. exact (choose_output_no_name _ _ Hf Hs Hn).
  - intros Hex Hn.
    assert (Hb : loop_body display total fmt idx filepath te st
                 = (st, Raised ValueError)).
    { unfold loop_body. rewrite Hex. cbn [negb].
      rewrite (choose_output_no_name _ _ Hf Hs Hn). reflexivity. }
    split; [exact Hb|].
    intros env rest <-. cbn [run_loop]. rewrite Hb. reflexivity.
Qed.

Lemma input_without_name_raises_witness :
  lit "mp3" <> [] /\ contains ch_slash (lit "mp3") = false /\
  input_exists (quiet_task 0 []) = true /\
  path_name (Path (lit "./")) = [] /\
  loop_body true 1 (lit "mp3") 0 (lit "./") (quiet_task 0 []) initial_state
    = (initial_state, Raised ValueError).
Proof.
  assert (H1 : lit "mp3" <> []) by (vm_compute; discriminate).
  assert (H2 : contains ch_slash (lit "mp3") = false) by reflexivity.
  assert (H3 : input_exists (quiet_task 0 []) = true) by reflexivity.
  assert (H4 : path_name (Path (lit "./")) = []) by (vm_compute; reflexivity).
  split; [exact H1|]. split; [exact H2|]. split; [exact H3|]. split; [exact H4|].
  exact (proj1 (proj2 (input_without_name_raises true 1%nat (lit "mp3") 0%nat (lit "./")
                         (quiet_task 0 []) initial_state H1 H2) H3 H4)).
Defined.

(* ------------------------------------------------------------------ *)
(** ** The newest record of the progress file *)

Lemma split_on_app sep a b :
  split_on sep (a ++ sep :: b) = split_on sep a ++ split_on sep b.
Proof.
  induction a as [|x a IH]; cbn [app split_on].
  - rewrite N.eqb_refl. reflexivity.
  - destruct (N.eqb x sep); [rewrite IH; reflexivity|].
    rewrite IH. destruct (split_on sep a) as [|w ws] eqn:E; [|reflexivity].
    exfalso. destruct a; cbn in E; [discriminate|].
    destruct (N.eqb n sep); [discriminate|].
    destruct (split_on sep a); discriminate.
Qed.

Lemma findall_out_time_app a b :
  findall_out_time (a ++ ch_newline :: b)
  = findall_out_time a ++ findall_out_time b.
Proof. unfold findall_out_time. rewrite split_on_app. apply flat_map_app. Qed.

Lemma take_digits_decimal s : forallb is_decimal (take_digits s) = true.
Proof.
  induction s as [|c s IH]; [reflexivity|]. cbn [take_digits].
  destruct (is_decimal c) eqn:E; [|reflexivity].
  cbn [forallb]. rewrite E, IH. reflexivity.
Qed.

(** What [int] is given is a run of digits that is not empty. *)
Lemma last_match_digits c m :
  last_match c = Some m -> m <> [] /\ forallb is_decimal m = true.
Proof.
  unfold last_match. destruct (rev (findall_out_time c)) as [|m' ms] eqn:E;
    [discriminate|].
  intros H; inversion H; subst m'. clear H.
  assert (Hin : In m (findall_out_time c)).
  { apply in_rev. rewrite E. left. reflexivity. }
  unfold findall_out_time in Hin. apply in_flat_map in Hin.
  destruct Hin as (line & _ & Hm). unfold match_line in Hm.
  destruct (starts_with (lit "out_time_ms=") line); [|destruct Hm].
  pose proof (take_digits_decimal (skipn (List.length (lit "out_time_ms=")) line)) as Hd.
  destruct (take_digits (skipn (List.length (lit "out_time_ms=")) line)) as [|d ds];
    [destruct Hm|].
  destruct Hm as [<- | []]. split; [discriminate | exact Hd].
Qed.

(** A record may be written with any decimal digits, and a record of
    more than 4300 digits cannot be read: the pass sends nothing. *)
Lemma records_in_other_digits :
  last_match (lit "out_time_ms=7" ++ [ch_newline] ++ lit "out_time_ms=" ++ [1637%N])
    = Some [1637%N] /\
  int_of_digits [1637%N; 48%N; 65296%N] = Ok 500 /\
  tick_overall 0 100 (Some (fconst 10))
    (mkTick (Some (lit "out_time_ms=" ++ [1637%N] ++ lit "000000")) true) = Some 50 /\
  int_of_digits (repeat 48%N 4300) = Ok 0 /\
  int_of_digits (repeat 48%N 4301) = Raise ValueError /\
  tick_overall 0 100 (Some (fconst 10))
    (mkTick (Some (lit "out_time_ms=" ++ repeat 48%N 4301)) true) = None.
Proof. vm_compute. repeat split; reflexivity. Qed.

(** X16: the polling loop reads the newest record: of a progress file
    made of two parts separated by a newline, the record read is the last
    one of the second part, and that of the first part only when the
    second holds no record; so the value a pass computes is the one it
    would compute from that part alone, and text without a record that
    the encoder appends changes nothing. *)
Theorem latest_record_wins c1 c2 :
  last_match (c1 ++ ch_newline :: c2)
  = match last_match c2 with
    | Some m => Some m
    | None => last_match c1
    end /\
  forall slice_start slice_end d alive,
    tick_overall slice_start slice_end d (mkTick (Some (c1 ++ ch_newline :: c2)) alive)
    = match last_match c2 with
      | Some _ => tick_overall slice_start slice_end d (mkTick (Some c2) alive)
      | None => tick_overall slice_start slice_end d (mkTick (Some c1) alive)
      end.
Proof.
  assert (E : last_match (c1 ++ ch_newline :: c2)
              = match last_match c2 with
                | Some m => Some m
                | None => last_match c1
                end).
  { unfold last_match. rewrite findall_out_time_app, rev_app_distr.
    destruct (rev (findall_out_time c2)) as [|m ms]; reflexivity. }
  split; [exact E|].
  intros slice_start slice_end d alive. unfold tick_overall. cbn [content].
  rewrite E. destruct (last_match c2); reflexivity.
Qed.

(* ================================================================== *)
(** * Properties of the rest of the program *)

(* ------------------------------------------------------------------ *)
(** ** Strings and dictionaries *)

Lemma str_eqb_sym a b : str_eqb a b = str_eqb b a.
Proof.
  destruct (str_eqb b a) eqn:E.
  - apply str_eqb_eq in E. apply str_eqb_eq. congruence.
  - apply str_eqb_neq in E. apply str_eqb_neq. congruence.
Qed.

Lemma str_eqb_refl a : str_eqb a a = true.
Proof. apply str_eqb_eq. reflexivity. Qed.

Lemma mem_In x l : mem x l = true <-> In x l.
Proof.
  unfold mem. rewrite existsb_exists. split.
  - intros (y & Hy & E). apply str_eqb_eq in E. subst y. assumption.
  - intros H. exists x. split; [assumption | apply str_eqb_refl].
Qed.

Lemma dict_get_keys {V} (v : V) (ks : list str) (d : dict V) k :
  dict_get (map (fun x => (x, v)) ks ++ d) k
  = if mem k ks then Some v else dict_get d k.
Proof.
  induction ks as [|x ks IH]; [reflexivity|].
  cbn [map app dict_get mem existsb]. rewrite (str_eqb_sym k x).
  destruct (str_eqb x k); [reflexivity|]. cbn [orb]. exact IH.
Qed.

(* ------------------------------------------------------------------ *)
(** ** The handle of the progress dialog *)

Lemma lstrip_space_nil s : lstrip_space s = [] <-> forallb is_space s = true.
Proof.
  induction s as [|c s IH]; cbn [lstrip_space forallb]; [tauto|].
  destruct (is_space c); cbn [andb]; [exact IH|]. split; discriminate.
Qed.

Lemma lstrip_space_head s c t : lstrip_space s = c :: t -> is_space c = false.
Proof.
  induction s as [|x s IH]; cbn [lstrip_space]; [discriminate|].
  destruct (is_space x) eqn:E; [exact IH|]. intros H; inversion H; subst; assumption.
Qed.

Lemma lstrip_space_all s :
  forallb is_space (lstrip_space s) = true -> lstrip_space s = [].
Proof.
  destruct (lstrip_space s) as [|c t] eqn:E; [reflexivity|].
  apply lstrip_space_head in E. cbn [forallb]. rewrite E. discriminate.
Qed.

Lemma forallb_rev {A} (f : A -> bool) l : forallb f (rev l) = forallb f l.
Proof.
  induction l as [|x l IH]; [reflexivity|].
  cbn [rev forallb]. rewrite forallb_app, IH. cbn [forallb].
  rewrite andb_true_r. apply andb_comm.
Qed.

Lemma strip_all_space s :
  forallb is_space (strip s) = true <-> forallb is_space s = true.
Proof.
  unfold strip. rewrite forallb_rev. split.
  - intros H. apply lstrip_space_all in H.
    apply lstrip_space_nil in H. rewrite forallb_rev in H.
    apply lstrip_space_all in H. apply lstrip_space_nil. exact H.
  - intros H. apply lstrip_space_nil in H. rewrite H. reflexivity.
Qed.

Lemma split_space_nil s : split_space s = [] <-> forallb is_space s = true.
Proof.
  induction s as [|c s IH]; cbn [split_space forallb]; [tauto|].
  destruct (is_space c); cbn [andb]; [exact IH|].
  split; [|discriminate].
  destruct s as [|d s']; [discriminate|].
  destruct (is_space d); [discriminate|].
  destruct (split_space (d :: s')); discriminate.
Qed.

(** Every word of [s.split()] is non-empty and free of whitespace. *)
Lemma split_space_words s :
  Forall (fun w => w <> [] /\ existsb is_space w = false) (split_space s).
Proof.
  induction s as [|c s IH]; [constructor|].
  cbn [split_space]. destruct (is_space c) eqn:Ec; [exact IH|].
  assert (One : [c] <> [] /\ existsb is_space [c] = false).
  { split; [discriminate|]. cbn. rewrite Ec. reflexivity. }
  destruct s as [|d s']; [constructor; [exact One | constructor]|].
  destruct (is_space d) eqn:Ed; [constructor; [exact One | exact IH]|].
  destruct (split_space (d :: s')) as [|w ws]; [constructor; [exact One | constructor]|].
  pose proof (Forall_inv IH) as [Hw1 Hw2]. pose proof (Forall_inv_tail IH) as Hws.
  constructor; [|exact Hws]. split; [discriminate|].
  cbn [existsb]. rewrite Ec, Hw2. reflexivity.
Qed.

(** X17: [pbar_open] returns no handle exactly when kdialog printed
    nothing but whitespace; otherwise both the service and the object
    path of the handle are non-empty and free of whitespace, so that
    qdbus receives them as two proper arguments. *)
Theorem pbar_open_handle stdout :
  (pbar_open stdout = None <-> forallb is_space stdout = true) /\
  (forall service object_path,
     pbar_open stdout = Some (service, object_path) ->
     service <> [] /\ existsb is_space service = false /\
     object_path <> [] /\ existsb is_space object_path = false).
Proof.
  unfold pbar_open.
  pose proof (split_space_words (strip stdout)) as Hw.
  pose proof (split_space_nil (strip stdout)) as Hn.
  rewrite strip_all_space in Hn.
  destruct (split_space (strip stdout)) as [|p0 [|p1 rest]].
  - split; [split; [intros _; apply Hn; reflexivity | reflexivity]|].
    discriminate.
  - pose proof (Forall_inv Hw) as [H1 H2].
    split.
    + split; [discriminate|]. intros H. apply Hn in H. discriminate.
    + intros s o E. inversion E; subst. repeat split; auto. discriminate.
  - pose proof (Forall_inv Hw) as [H1 H2].
    pose proof (Forall_inv (Forall_inv_tail Hw)) as [H3 H4].
    split.
    + split; [discriminate|]. intros H. apply Hn in H. discriminate.
    + intros s o E. inversion E; subst. auto.
Qed.

Lemma pbar_open_handle_witness :
  pbar_open (lit "org.kde.kdialog-1234 /ProgressDialog")
    = Some (lit "org.kde.kdialog-1234", lit "/ProgressDialog") /\
  (lit "org.kde.kdialog-1234" <> [] /\
   existsb is_space (lit "org.kde.kdialog-1234") = false /\
   lit "/ProgressDialog" <> [] /\
   existsb is_space (lit "/ProgressDialog") = false).
Proof.
  assert (H : pbar_open (lit "org.kde.kdialog-1234 /ProgressDialog")
              = Some (lit "org.kde.kdialog-1234", lit "/ProgressDialog"))
    by (vm_compute; reflexivity).
  split; [exact H|].
  exact (proj2 (pbar_open_handle (lit "org.kde.kdialog-1234 /ProgressDialog"))
           _ _ H).
Defined.

(* ------------------------------------------------------------------ *)
(** ** The arguments of the encoder *)

Lemma FORMAT_DEFS_keys : map fst FORMAT_DEFS = FORMAT_KEYS.
Proof. reflexivity. Qed.

Lemma dict_mem_FORMAT_DEFS fmt :
  dict_mem FORMAT_DEFS fmt = mem fmt FORMAT_KEYS.
Proof.
  unfold dict_mem, FORMAT_DEFS, FORMAT_KEYS, mem.
  cbn [dict_get existsb].
  rewrite !(str_eqb_sym fmt).
  repeat (match goal with
          | |- context [str_eqb ?a fmt] => destruct (str_eqb a fmt); cbn [orb]
          end; [reflexivity|]).
  reflexivity.
Qed.

Lemma build_ffmpeg_args_cases U fmt quality :
  (build_ffmpeg_args U fmt quality = [] /\ dict_mem FORMAT_DEFS fmt = false)
  \/ (dict_mem FORMAT_DEFS fmt = true /\
      exists codec rest,
        build_ffmpeg_args U fmt quality = lit "-codec:a" :: codec :: rest).
Proof.
  rewrite dict_mem_FORMAT_DEFS. unfold build_ffmpeg_args, FORMAT_KEYS, mem.
  cbn [existsb].
  destruct (str_eqb fmt (lit "mp3")).
  { cbn [orb]. right. split; [reflexivity|].
    destruct (match_V_digit U quality); eexists _, _; reflexivity. }
  destruct (str_eqb fmt (lit "ogg")).
  { cbn [orb]. right. split; [reflexivity|]. eexists _, _; reflexivity. }
  destruct (str_eqb fmt (lit "flac")).
  { cbn [orb]. right. split; [reflexivity|].
    destruct (str_eqb fmt (lit "m4a")); [|destruct (str_eqb fmt (lit "opus"))];
      eexists _, _; reflexivity. }
  destruct (str_eqb fmt (lit "wav")).
  { cbn [orb]. right. split; [reflexivity|].
    destruct (str_eqb fmt (lit "m4a")); [|destruct (str_eqb fmt (lit "opus"))];
      eexists _, _; reflexivity. }
  destruct (str_eqb fmt (lit "m4a")).
  { cbn [orb]. right. split; [reflexivity|]. eexists _, _; reflexivity. }
  destruct (str_eqb fmt (lit "opus")).
  { cbn [orb]. right. split; [reflexivity|]. eexists _, _; reflexivity. }
  destruct (str_eqb fmt (lit "alac")).
  { cbn [orb]. right. split; [reflexivity|]. eexists _, _; reflexivity. }
  left. split; reflexivity.
Qed.

(** X18: [build_ffmpeg_args] knows exactly the registered formats: the
    list of arguments is empty, so that the encoder is left to choose the
    codec by itself, exactly for a format that is not a key of
    [FORMAT_DEFS]; every other list starts with "-codec:a" and a
    codec. *)
Theorem ffmpeg_args_empty_iff_unregistered U fmt quality :
  (build_ffmpeg_args U fmt quality = [] <-> dict_mem FORMAT_DEFS fmt = false) /\
  (dict_mem FORMAT_DEFS fmt = true <->
   exists codec rest,
     build_ffmpeg_args U fmt quality = lit "-codec:a" :: codec :: rest).
Proof.
  destruct (build_ffmpeg_args_cases U fmt quality)
    as [[E M] | [M (codec & rest & E)]]; rewrite E, M.
  - split; [split; reflexivity|]. split; [discriminate|].
    intros (c & r & H). discriminate.
  - split; [split; discriminate|]. split; [|reflexivity].
    intros _. exists codec, rest. reflexivity.
Qed.

(** X19: every quality that [FORMAT_DEFS] offers for a format gives
    well-formed arguments: a codec alone, or a codec with "-q:a" and a
    number, with "-b:a" and a bit rate, or with "-compression_level" and
    a number; the word "lossless" is never passed on.  (The class [\d]
    holds the ASCII digits.) *)
Theorem registered_options_well_formed U fmt data quality description :
  (forall c, is_digit c = true -> isdecimal U c = true) ->
  In (fmt, data) FORMAT_DEFS ->
  In (quality, description) (options data) ->
  ffmpeg_args_ok (build_ffmpeg_args U fmt quality) = true /\
  ~ In (lit "lossless") (build_ffmpeg_args U fmt quality).
Proof.
  intros Hd Hf Hq.
  assert (D : forall c, is_digit c = true -> isdecimal U c = true) by exact Hd.
  unfold FORMAT_DEFS in Hf. cbn [In] in Hf.
  repeat (destruct Hf as [Hf | Hf];
          [inversion Hf; subst fmt data; clear Hf; cbn [options In] in Hq;
           repeat (destruct Hq as [Hq | Hq];
                   [inversion Hq; subst quality description; clear Hq;
                    unfold build_ffmpeg_args, match_V_digit; cbn;
                    rewrite ?D by reflexivity; cbn;
                    split; [reflexivity | intros K;
                      repeat (destruct K as [K | K]; [discriminate K|]);
                      exact K]
                   |]);
           contradiction
          |]).
  contradiction.
Qed.

Lemma registered_options_well_formed_witness :
  (forall c, is_digit c = true ->
     isdecimal ascii_tables c = true) /\
  In (lit "mp3", mkFormat (lit "MP3")
       [opt "V0" "VBR ~245 kbps (best)"; opt "V2" "VBR ~190 kbps";
        opt "V4" "VBR ~165 kbps"; opt "128k" "CBR 128 kbps";
        opt "192k" "CBR 192 kbps"; opt "256k" "CBR 256 kbps";
        opt "320k" "CBR 320 kbps (max)"]) FORMAT_DEFS /\
  In (opt "V2" "VBR ~190 kbps")
     (options (mkFormat (lit "MP3")
       [opt "V0" "VBR ~245 kbps (best)"; opt "V2" "VBR ~190 kbps";
        opt "V4" "VBR ~165 kbps"; opt "128k" "CBR 128 kbps";
        opt "192k" "CBR 192 kbps"; opt "256k" "CBR 256 kbps";
        opt "320k" "CBR 320 kbps (max)"])) /\
  ffmpeg_args_ok
    (build_ffmpeg_args ascii_tables
       (lit "mp3") (lit "V2")) = true /\
  ~ In (lit "lossless")
       (build_ffmpeg_args ascii_tables
          (lit "mp3") (lit "V2")).
Proof.
  assert (H1 : forall c, is_digit c = true ->
     isdecimal ascii_tables c = true)
    by (intros c H; exact H).
  assert (H2 : In (lit "mp3", mkFormat (lit "MP3")
       [opt "V0" "VBR ~245 kbps (best)"; opt "V2" "VBR ~190 kbps";
        opt "V4" "VBR ~165 kbps"; opt "128k" "CBR 128 kbps";
        opt "192k" "CBR 192 kbps"; opt "256k" "CBR 256 kbps";
        opt "320k" "CBR 320 kbps (max)"]) FORMAT_DEFS)
    by (left; reflexivity).
  assert (H3 : In (opt "V2" "VBR ~190 kbps")
     (options (mkFormat (lit "MP3")
       [opt "V0" "VBR ~245 kbps (best)"; opt "V2" "VBR ~190 kbps";
        opt "V4" "VBR ~165 kbps"; opt "128k" "CBR 128 kbps";
        opt "192k" "CBR 192 kbps"; opt "256k" "CBR 256 kbps";
        opt "320k" "CBR 320 kbps (max)"])))
    by (right; left; reflexivity).
  split; [exact H1|]. split; [exact H2|]. split; [exact H3|].
  exact (registered_options_well_formed
           ascii_tables _ _ _ _ H1 H2 H3).
Defined.

(* ------------------------------------------------------------------ *)
(** ** The lossy warning *)

Lemma codec_category_lossy c :
  dict_get CODEC_CATEGORY c
  = if mem c lossy_codecs then Some (lit "lossy")
    else dict_get (skipn 12 CODEC_CATEGORY) c.
Proof.
  change CODEC_CATEGORY
    with (map (fun x => (x, lit "lossy")) lossy_codecs ++ skipn 12 CODEC_CATEGORY).
  apply dict_get_keys.
Qed.

Lemma codec_category_rest c :
  dict_get (skipn 12 CODEC_CATEGORY) c = None
  \/ dict_get (skipn 12 CODEC_CATEGORY) c = Some (lit "lossless").
Proof.
  change (skipn 12 CODEC_CATEGORY)
    with (map (fun x => (x, lit "lossless"))
            (map fst (skipn 12 CODEC_CATEGORY)) ++ []).
  rewrite dict_get_keys.
  destruct (mem c (map fst (skipn 12 CODEC_CATEGORY))); [right | left]; reflexivity.
Qed.

Lemma lossless_target fmt :
  match dict_get FORMAT_DEFS fmt with
  | Some dst_data => only_lossless (options dst_data)
  | None => false
  end = mem fmt lossless_formats.
Proof.
  unfold FORMAT_DEFS, lossless_formats, mem. cbn [dict_get existsb].
  rewrite !(str_eqb_sym fmt).
  destruct (str_eqb (lit "mp3") fmt) eqn:E1.
  { apply str_eqb_eq in E1. subst fmt. reflexivity. }
  destruct (str_eqb (lit "ogg") fmt) eqn:E2.
  { apply str_eqb_eq in E2. subst fmt. reflexivity. }
  destruct (str_eqb (lit "flac") fmt); [reflexivity|].
  destruct (str_eqb (lit "wav") fmt); [reflexivity|].
  destruct (str_eqb (lit "m4a") fmt) eqn:E3.
  { apply str_eqb_eq in E3. subst fmt. reflexivity. }
  destruct (str_eqb (lit "opus") fmt) eqn:E4.
  { apply str_eqb_eq in E4. subst fmt. reflexivity. }
  destruct (str_eqb (lit "alac") fmt); reflexivity.
Qed.

(** X20: [warn_if_lossy] shows a dialog exactly when the codec of the
    source is one of the twelve that [CODEC_CATEGORY] calls lossy; the
    dialog is the "lossy to lossless" one exactly for the targets flac,
    wav and alac, and the answer is whether kdialog exited with 0.  A
    source whose codec is lossless, unknown or could not be probed is
    accepted without any dialog. *)
Theorem lossy_warning_table input_codec output_fmt rc :
  warn_if_lossy input_codec output_fmt rc
  = if match input_codec with
       | Some c => mem c lossy_codecs
       | None => false
       end
    then ([if mem output_fmt lossless_formats
           then LossyToLossless else LossyToLossy], rc =? 0)
    else ([], true).
Proof.
  unfold warn_if_lossy. rewrite lossless_target.
  destruct input_codec as [c|].
  - rewrite codec_category_lossy.
    destruct (mem c lossy_codecs).
    + change (str_eqb (lit "lossy") (lit "lossy")) with true. cbn [andb].
      destruct (mem output_fmt lossless_formats); reflexivity.
    + destruct (codec_category_rest c) as [-> | ->]; reflexivity.
  - reflexivity.
Qed.

(* ------------------------------------------------------------------ *)
(** ** The configuration file *)

Lemma dict_get_app {V} (d1 d2 : dict V) k :
  dict_get (d1 ++ d2) k
  = match dict_get d1 k with Some v => Some v | None => dict_get d2 k end.
Proof.
  induction d1 as [|[k' v'] d1 IH]; [reflexivity|].
  cbn [app dict_get]. destruct (str_eqb k' k); [reflexivity | exact IH].
Qed.

Lemma dict_get_setdefault {V} (d : dict V) k v k' :
  dict_get (dict_setdefault d k v) k'
  = match dict_get d k' with
    | Some x => Some x
    | None => if str_eqb k k' then Some v else None
    end.
Proof.
  unfold dict_setdefault. destruct (dict_get d k) as [x|] eqn:E.
  - destruct (dict_get d k') as [y|] eqn:E'; [reflexivity|].
    destruct (str_eqb k k') eqn:Ek; [|reflexivity].
    apply str_eqb_eq in Ek. subst k'. congruence.
  - rewrite dict_get_app. cbn [dict_get]. reflexivity.
Qed.

Lemma dict_get_set {V} (d : dict V) k v k' :
  dict_get (dict_set d k v) k'
  = if str_eqb k k' then Some v else dict_get d k'.
Proof.
  induction d as [|[k0 v0] d IH]; cbn [dict_set dict_get]; [reflexivity|].
  destruct (str_eqb k0 k) eqn:E0.
  - apply str_eqb_eq in E0. subst k0. cbn [dict_get].
    destruct (str_eqb k k'); reflexivity.
  - cbn [dict_get]. destruct (str_eqb k0 k') eqn:E1; [|exact IH].
    apply str_eqb_eq in E1. subst k0.
    rewrite str_eqb_sym, E0. reflexivity.
Qed.

Lemma fold_setdefault_get {V} (defs d : dict V) k :
  dict_get (fold_left (fun d '(k, v) => dict_setdefault d k v) defs d) k
  = match dict_get d k with Some x => Some x | None => dict_get defs k end.
Proof.
  revert d. induction defs as [|[k0 v0] defs IH]; intros d; cbn [fold_left dict_get].
  - destruct (dict_get d k); reflexivity.
  - rewrite IH, dict_get_setdefault.
    destruct (dict_get d k); [reflexivity|].
    destruct (str_eqb k0 k); reflexivity.
Qed.

Lemma fold_setdefault_fix {V} (defs d : dict V) :
  Forall (fun kv => dict_mem d (fst kv) = true) defs ->
  fold_left (fun d '(k, v) => dict_setdefault d k v) defs d = d.
Proof.
  induction 1 as [|[k0 v0] defs H0 _ IH]; [reflexivity|].
  cbn [fold_left]. unfold dict_setdefault at 2. unfold dict_mem in H0. cbn [fst] in H0.
  destruct (dict_get d k0); [exact IH | discriminate].
Qed.

Lemma defaults_get k :
  dict_get defaults k
  = option_map (fun data => JStr (first_option data)) (dict_get FORMAT_DEFS k).
Proof.
  unfold defaults. induction FORMAT_DEFS as [|[k0 d0] defs IH]; [reflexivity|].
  cbn [map dict_get]. destruct (str_eqb k0 k); [reflexivity | exact IH].
Qed.

Lemma load_config_get file k :
  dict_get (load_config file) k
  = match file with
    | Parsed (JDict data) =>
        match dict_get data k with
        | Some v => Some v
        | None => dict_get defaults k
        end
    | _ => dict_get defaults k
    end.
Proof.
  destruct file as [| |v]; try reflexivity.
  destruct v; try reflexivity.
  cbn [load_config]. apply fold_setdefault_get.
Qed.

Lemma load_config_mem file fmt :
  dict_mem FORMAT_DEFS fmt = true ->
  exists quality, dict_get (load_config file) fmt = Some quality.
Proof.
  intros H. rewrite load_config_get.
  assert (D : exists q, dict_get defaults fmt = Some q).
  { rewrite defaults_get. unfold dict_mem in H.
    destruct (dict_get FORMAT_DEFS fmt); [eexists; reflexivity | discriminate]. }
  destruct D as [q Eq].
  destruct file as [| |v]; try (exists q; exact Eq).
  destruct v; try (exists q; exact Eq).
  destruct (dict_get d fmt) as [x|]; [exists x; reflexivity | exists q; exact Eq].
Qed.

(** X21: [load_config] never replaces what the file says: every key of
    a configuration file that holds an object keeps its value, whatever
    it is; a registered format that the file does not mention gets the
    first option of the format; and without a file, or with a file that
    cannot be parsed or does not hold an object, every format gets its
    first option. *)
Theorem load_config_keeps_file_values file k :
  dict_get (load_config file) k
  = match file with
    | Parsed (JDict data) =>
        match dict_get data k with
        | Some v => Some v
        | None =>
            option_map (fun d => JStr (first_option d)) (dict_get FORMAT_DEFS k)
        end
    | _ => option_map (fun d => JStr (first_option d)) (dict_get FORMAT_DEFS k)
    end.
Proof. rewrite load_config_get, defaults_get. reflexivity. Qed.

Lemma load_config_complete file :
  Forall (fun kv => dict_mem (load_config file) (fst kv) = true) defaults.
Proof.
  apply Forall_forall. intros [k v] Hin. cbn [fst].
  assert (Hk : dict_mem FORMAT_DEFS k = true).
  { unfold defaults in Hin. apply in_map_iff in Hin.
    destruct Hin as ([k' d'] & E & Hin). inversion E; subst. clear E.
    revert Hin. unfold FORMAT_DEFS. cbn [In].
    intros Hin.
    repeat (destruct Hin as [Hin | Hin]; [inversion Hin; reflexivity|]).
    contradiction. }
  destruct (load_config_mem file k Hk) as [q Eq].
  unfold dict_mem. rewrite Eq. reflexivity.
Qed.

(** A configuration in which every registered format has a value is
    read back as it is. *)
Lemma load_config_fix cfg :
  Forall (fun kv => dict_mem cfg (fst kv) = true) defaults ->
  load_config (Parsed (JDict cfg)) = cfg.
Proof. intros H. cbn [load_config]. apply fold_setdefault_fix. exact H. Qed.

Lemma dict_mem_set {V} (d : dict V) k v k' :
  dict_mem d k' = true -> dict_mem (dict_set d k v) k' = true.
Proof.
  unfold dict_mem. rewrite dict_get_set.
  destruct (str_eqb k k'); [reflexivity | auto].
Qed.

(* ------------------------------------------------------------------ *)
(** ** The configuration dialog *)

Lemma configurable_formats :
  configurable = [lit "mp3"; lit "ogg"; lit "m4a"; lit "opus"].
Proof. reflexivity. Qed.

Lemma run_configure_saves file r r2 cfg' :
  In (SaveConfig cfg') (run_configure file r r2) ->
  exists data,
    dialog_rc r = 0 /\ dialog_rc r2 = 0 /\
    mem (strip (dialog_stdout r)) configurable = true /\
    dict_get FORMAT_DEFS (strip (dialog_stdout r)) = Some data /\
    mem (strip (dialog_stdout r2)) (map fst (options data)) = true /\
    cfg' = dict_set (load_config file) (strip (dialog_stdout r))
             (JStr (strip (dialog_stdout r2))) /\
    run_configure file r r2
    = [Menu configurable; Menu (map fst (options data)); SaveConfig cfg';
       UpdateDesktop cfg';
       NotifySaved (label data) (strip (dialog_stdout r2))].
Proof.
  unfold run_configure.
  destruct (dialog_rc r =? 0) eqn:R1; cbn [negb];
    [|intros [H | []]; discriminate].
  destruct (mem (strip (dialog_stdout r)) configurable) eqn:M1; cbn [negb];
    [|intros [H | []]; discriminate].
  destruct (dict_get FORMAT_DEFS (strip (dialog_stdout r))) as [data|] eqn:D;
    [|intros [H | []]; discriminate].
  destruct (dialog_rc r2 =? 0) eqn:R2; cbn [negb];
    [|intros [H | [H | []]]; discriminate].
  destruct (mem (strip (dialog_stdout r2)) (map fst (options data))) eqn:M2;
    cbn [negb]; [|intros [H | [H | []]]; discriminate].
  intros [H | [H | [H | [H | [H | []]]]]]; try discriminate.
  inversion H; subst cfg'. exists data.
  apply Z.eqb_eq in R1, R2. repeat split; auto.
Qed.

(** X22: [run_configure] saves a configuration only after both menus
    were confirmed with a configurable format (mp3, ogg, m4a or opus) and
    one of the qualities registered for it; what it saves is the loaded
    configuration with this one entry set to the chosen quality, every
    other entry unchanged, and the same configuration is handed to
    [update_desktop_names]. *)
Theorem run_configure_saves_valid_choice file r r2 cfg' :
  In (SaveConfig cfg') (run_configure file r r2) ->
  exists data,
    dialog_rc r = 0 /\ dialog_rc r2 = 0 /\
    In (strip (dialog_stdout r)) [lit "mp3"; lit "ogg"; lit "m4a"; lit "opus"] /\
    dict_get FORMAT_DEFS (strip (dialog_stdout r)) = Some data /\
    In (strip (dialog_stdout r2)) (map fst (options data)) /\
    dict_get cfg' (strip (dialog_stdout r))
      = Some (JStr (strip (dialog_stdout r2))) /\
    (forall k, k <> strip (dialog_stdout r) ->
       dict_get cfg' k = dict_get (load_config file) k) /\
    In (UpdateDesktop cfg') (run_configure file r r2).
Proof.
  intros H. destruct (run_configure_saves file r r2 cfg' H)
    as (data & R1 & R2 & M1 & D & M2 & E & Run).
  exists data. split; [exact R1|]. split; [exact R2|].
  split; [apply mem_In; exact M1|]. split; [exact D|].
  split; [apply mem_In; exact M2|]. split.
  - rewrite E, dict_get_set, str_eqb_refl. reflexivity.
  - split.
    + intros k Hk. rewrite E, dict_get_set.
      destruct (str_eqb (strip (dialog_stdout r)) k) eqn:Ek; [|reflexivity].
      apply str_eqb_eq in Ek. congruence.
    + rewrite Run. right. right. right. left. reflexivity.
Qed.

Lemma run_configure_saves_valid_choice_witness :
  In (SaveConfig (dict_set (load_config NoFile) (lit "ogg") (JStr (lit "Q8"))))
     (run_configure NoFile (mkDialog 0 (lit "ogg ")) (mkDialog 0 (lit "Q8 "))) /\
  exists data,
    dialog_rc (mkDialog 0 (lit "ogg ")) = 0 /\
    dialog_rc (mkDialog 0 (lit "Q8 ")) = 0 /\
    In (strip (dialog_stdout (mkDialog 0 (lit "ogg "))))
       [lit "mp3"; lit "ogg"; lit "m4a"; lit "opus"] /\
    dict_get FORMAT_DEFS (strip (dialog_stdout (mkDialog 0 (lit "ogg "))))
      = Some data /\
    In (strip (dialog_stdout (mkDialog 0 (lit "Q8 ")))) (map fst (options data)) /\
    dict_get (dict_set (load_config NoFile) (lit "ogg") (JStr (lit "Q8")))
             (strip (dialog_stdout (mkDialog 0 (lit "ogg "))))
      = Some (JStr (strip (dialog_stdout (mkDialog 0 (lit "Q8 "))))) /\
    (forall k, k <> strip (dialog_stdout (mkDialog 0 (lit "ogg "))) ->
       dict_get (dict_set (load_config NoFile) (lit "ogg") (JStr (lit "Q8"))) k
       = dict_get (load_config NoFile) k) /\
    In (UpdateDesktop (dict_set (load_config NoFile) (lit "ogg") (JStr (lit "Q8"))))
       (run_configure NoFile (mkDialog 0 (lit "ogg ")) (mkDialog 0 (lit "Q8 "))).
Proof.
  assert (H : In (SaveConfig (dict_set (load_config NoFile) (lit "ogg")
                                (JStr (lit "Q8"))))
     (run_configure NoFile (mkDialog 0 (lit "ogg ")) (mkDialog 0 (lit "Q8 "))))
    by (vm_compute; right; right; left; reflexivity).
  split; [exact H|].
  exact (run_configure_saves_valid_choice NoFile (mkDialog 0 (lit "ogg "))
           (mkDialog 0 (lit "Q8 ")) _ H).
Defined.

(* ------------------------------------------------------------------ *)
(** ** The entry point *)

(** X23: [main] reaches [convert_files] only with a registered format
    (so that [build_ffmpeg_args] names a codec), with at least one input
    file and with ffmpeg installed; the quality it passes is the one that
    [load_config] gives for the format: the default of line 618 is never
    needed. *)
Theorem main_converts_only_when_ready U a ffmpeg_found file files fmt quality :
  main U a ffmpeg_found file = Convert files fmt quality ->
  arg_configure a = false /\
  (exists f, arg_format a = Some f /\ f <> [] /\ fmt = lower U f) /\
  dict_mem FORMAT_DEFS fmt = true /\
  files = arg_files a /\ files <> [] /\ ffmpeg_found = true /\
  dict_get (load_config file) fmt = Some quality /\
  (forall q, build_ffmpeg_args U fmt q <> []).
Proof.
  unfold main.
  destruct (arg_configure a); [discriminate|].
  destruct (arg_format a) as [f|]; [|discriminate].
  destruct f as [|c f']; [discriminate|].
  set (f := c :: f') in *.
  destruct (dict_mem FORMAT_DEFS (lower U f)) eqn:M; cbn [negb]; [|discriminate].
  destruct (arg_files a) as [|x xs] eqn:F; [discriminate|].
  destruct ffmpeg_found; cbn [negb]; [|discriminate].
  destruct (dict_get FORMAT_DEFS (lower U f)) as [data|] eqn:D; [|discriminate].
  destruct (load_config_mem file (lower U f) M) as [q Eq].
  rewrite Eq. intros H; inversion H; subst files fmt quality. clear H.
  split; [reflexivity|]. split; [exists f; repeat split; discriminate|].
  split; [exact M|]. split; [reflexivity|]. split; [discriminate|].
  split; [reflexivity|]. split; [exact Eq|].
  intros q' E.
  destruct (build_ffmpeg_args_cases U (lower U f) q')
    as [[_ M'] | [_ (codec & rest & E')]]; congruence.
Qed.

Lemma main_converts_only_when_ready_witness :
  main ascii_tables (mkArgs (Some (lit "MP3")) false [lit "a.wav"]) true NoFile
    = Convert [lit "a.wav"] (lit "mp3") (JStr (lit "V0")) /\
  arg_configure (mkArgs (Some (lit "MP3")) false [lit "a.wav"]) = false /\
  (exists f, arg_format (mkArgs (Some (lit "MP3")) false [lit "a.wav"]) = Some f
             /\ f <> [] /\ lit "mp3" = lower ascii_tables f) /\
  dict_mem FORMAT_DEFS (lit "mp3") = true /\
  [lit "a.wav"] = arg_files (mkArgs (Some (lit "MP3")) false [lit "a.wav"]) /\
  [lit "a.wav"] <> [] /\ true = true /\
  dict_get (load_config NoFile) (lit "mp3") = Some (JStr (lit "V0")) /\
  (forall q, build_ffmpeg_args ascii_tables (lit "mp3") q <> []).
Proof.
  assert (H : main ascii_tables (mkArgs (Some (lit "MP3")) false [lit "a.wav"])
                true NoFile
              = Convert [lit "a.wav"] (lit "mp3") (JStr (lit "V0")))
    by (vm_compute; reflexivity).
  split; [exact H|].
  exact (main_converts_only_when_ready ascii_tables
           (mkArgs (Some (lit "MP3")) false [lit "a.wav"]) true NoFile
           [lit "a.wav"] (lit "mp3") (JStr (lit "V0")) H).
Defined.

(* ------------------------------------------------------------------ *)
(** ** The service menu *)

Lemma splitlines_from_one_line skip_lf s :
  Forall one_line (splitlines_from skip_lf s).
Proof.
  revert skip_lf. induction s as [|c s IH]; intros skip_lf; [constructor|].
  cbn [splitlines_from].
  destruct (skip_lf && N.eqb c 10); [apply IH|].
  destruct (is_linebreak c) eqn:Ec.
  - constructor; [reflexivity | apply IH].
  - specialize (IH false).
    destruct (splitlines_from false s) as [|l ls].
    + constructor; [|constructor]. unfold one_line. cbn. rewrite Ec. reflexivity.
    + pose proof (Forall_inv IH) as Hl. pose proof (Forall_inv_tail IH) as Hls.
      constructor; [|exact Hls]. unfold one_line in *. cbn [existsb].
      rewrite Ec, Hl. reflexivity.
Qed.

Lemma splitlines_line l rest :
  one_line l ->
  splitlines_from false (l ++ ch_newline :: rest) = l :: splitlines_from false rest.
Proof.
  unfold one_line. induction l as [|c l IH]; intros Hl.
  - reflexivity.
  - cbn [existsb] in Hl. apply orb_false_elim in Hl. destruct Hl as [Hc Hl].
    cbn [app splitlines_from andb]. rewrite Hc, (IH Hl). reflexivity.
Qed.

Lemma splitlines_join lines :
  Forall one_line lines ->
  splitlines (join_lines lines ++ [ch_newline])
  = match lines with [] => [[]] | _ => lines end.
Proof.
  unfold splitlines. induction 1 as [|l ls Hl Hls IH]; [reflexivity|].
  destruct ls as [|l2 ls'].
  - cbn [join_lines]. rewrite (splitlines_line l [] Hl). reflexivity.
  - change (join_lines (l :: l2 :: ls'))
      with (l ++ ch_newline :: join_lines (l2 :: ls')).
    rewrite <- app_assoc. cbn [app].
    rewrite (splitlines_line l _ Hl), IH. reflexivity.
Qed.

Lemma starts_with_app p s : starts_with p (p ++ s) = true.
Proof.
  induction p as [|c p IH]; [destruct s; reflexivity|].
  cbn [app starts_with]. rewrite N.eqb_refl, IH. reflexivity.
Qed.

Lemma match_action_not_name U line a :
  match_action U line = Some a -> starts_with (lit "Name=") line = false.
Proof.
  unfold match_action.
  destruct line as [|c line']; [discriminate|].
  destruct (N.eqb c 91) eqn:E.
  - apply N.eqb_eq in E. subst c. reflexivity.
  - change (lit "[Desktop Action ") with (91%N :: lit "Desktop Action ").
    cbn [starts_with]. rewrite N.eqb_sym, E. discriminate.
Qed.

Lemma match_action_name U v : match_action U (lit "Name=" ++ v) = None.
Proof. reflexivity. Qed.

Lemma patch_lines_idempotent U name_map current lines :
  patch_lines U name_map current (patch_lines U name_map current lines)
  = patch_lines U name_map current lines.
Proof.
  revert current. induction lines as [|line rest IH]; intros current; [reflexivity|].
  cbn [patch_lines].
  set (cur := match match_action U line with
              | Some a => Some a
              | None => current
              end).
  set (line' := match cur with
                | Some a =>
                    if negb (str_eqb a []) && starts_with (lit "Name=") line
                    then match dict_get name_map a with
                         | Some v => lit "Name=" ++ v
                         | None => line
                         end
                    else line
                | None => line
                end).
  assert (Hm : match match_action U line' with
               | Some a => Some a
               | None => current
               end = cur).
  { unfold line', cur.
    destruct (match_action U line) as [a|] eqn:Em.
    - rewrite (match_action_not_name U line a Em), andb_false_r, Em. reflexivity.
    - destruct current as [a|]; [|rewrite Em; reflexivity].
      destruct (negb (str_eqb a []) && starts_with (lit "Name=") line);
        [|rewrite Em; reflexivity].
      destruct (dict_get name_map a); [reflexivity | rewrite Em; reflexivity]. }
  rewrite Hm. f_equal; [|apply IH].
  unfold line'. destruct cur as [a|]; [|reflexivity].
  destruct (negb (str_eqb a []) && starts_with (lit "Name=") line) eqn:B;
    [|rewrite B; reflexivity].
  destruct (dict_get name_map a) as [v|] eqn:D;
    [|cbv beta iota; rewrite B; reflexivity].
  apply andb_prop in B. destruct B as [B1 _].
  rewrite B1, starts_with_app. reflexivity.
Qed.

Lemma patch_lines_kept_or_renamed U name_map current lines :
  Forall2 (kept_or_renamed name_map) lines
          (patch_lines U name_map current lines).
Proof.
  revert current. induction lines as [|line rest IH]; intros current; [constructor|].
  cbn [patch_lines]. constructor; [|apply IH].
  destruct (match match_action U line with
            | Some a => Some a
            | None => current
            end) as [a|]; [|left; reflexivity].
  destruct (negb (str_eqb a []) && starts_with (lit "Name=") line) eqn:B;
    [|left; reflexivity].
  destruct (dict_get name_map a) as [v|] eqn:D; [|left; reflexivity].
  right. apply andb_prop in B. split; [apply B|]. exists a, v. auto.
Qed.

Lemma one_line_app a b : one_line a -> one_line b -> one_line (a ++ b).
Proof. unfold one_line. intros Ha Hb. rewrite existsb_app, Ha, Hb. reflexivity. Qed.

Lemma patch_lines_one_line U name_map current lines :
  (forall a v, dict_get name_map a = Some v -> one_line v) ->
  Forall one_line lines ->
  Forall one_line (patch_lines U name_map current lines).
Proof.
  intros Hmap Hl.
  pose proof (patch_lines_kept_or_renamed U name_map current lines) as H2.
  revert Hl. induction H2 as [|l l' ls ls' Hk _ IH]; intros Hl; [constructor|].
  constructor; [|apply IH; exact (Forall_inv_tail Hl)].
  destruct Hk as [-> | (_ & a & v & D & ->)]; [exact (Forall_inv Hl)|].
  apply one_line_app; [reflexivity | exact (Hmap a v D)].
Qed.

(** The entries of the map that lines 161-168 build. *)
Lemma name_map_from_spec render cfg defs :
  forall acc name_map,
    name_map_from render cfg defs acc = Some name_map ->
    (forall fmt data, In (fmt, data) defs -> exists q, dict_get cfg fmt = Some q) /\
    (forall a v, dict_get name_map a = Some v ->
       dict_get acc a = Some v
       \/ exists fmt data q, In (fmt, data) defs /\ dict_get cfg fmt = Some q /\
            a = lit "convertTo" ++ capitalize fmt /\
            v = action_name render data q).
Proof.
  induction defs as [|[fmt data] defs IH]; intros acc name_map; cbn [name_map_from].
  - intros H; inversion H; subst. split; [intros ? ? []|]. auto.
  - destruct (dict_get cfg fmt) as [q|] eqn:Eq; [|discriminate].
    intros H. destruct (IH _ _ H) as [I1 I2]. split.
    + intros f d [E | Hin]; [inversion E; subst; eauto | eauto].
    + intros a v Hv. destruct (I2 a v Hv) as [Hacc | (f & d & q' & Hin & Hq & Ea & Ev)].
      * rewrite dict_get_set in Hacc.
        destruct (str_eqb (lit "convertTo" ++ capitalize fmt) a) eqn:Ek; [|auto].
        apply str_eqb_eq in Ek. inversion Hacc; subst v.
        right. exists fmt, data, q. split; [left; reflexivity|].
        split; [exact Eq|]. split; [symmetry; exact Ek | reflexivity].
      * right. exists f, d, q'. split; [right; exact Hin | auto].
Qed.

Lemma name_map_from_total render cfg defs :
  (forall fmt data, In (fmt, data) defs -> exists q, dict_get cfg fmt = Some q) ->
  forall acc, exists name_map, name_map_from render cfg defs acc = Some name_map.
Proof.
  induction defs as [|[fmt data] defs IH]; intros Hall acc; cbn [name_map_from].
  - eexists; reflexivity.
  - destruct (Hall fmt data (or_introl eq_refl)) as [q Eq]. rewrite Eq.
    apply IH. intros f d Hin. apply (Hall f d). right. exact Hin.
Qed.

Lemma In_FORMAT_DEFS_mem fmt data :
  In (fmt, data) FORMAT_DEFS -> dict_mem FORMAT_DEFS fmt = true.
Proof.
  unfold FORMAT_DEFS. cbn [In]. intros Hin.
  repeat (destruct Hin as [Hin | Hin]; [inversion Hin; reflexivity|]).
  contradiction.
Qed.

Lemma labels_one_line fmt data : In (fmt, data) FORMAT_DEFS -> one_line (label data).
Proof.
  unfold FORMAT_DEFS. cbn [In]. intros Hin.
  repeat (destruct Hin as [Hin | Hin]; [inversion Hin; reflexivity|]).
  contradiction.
Qed.

Lemma action_name_one_line render fmt data q :
  In (fmt, data) FORMAT_DEFS -> one_line (format_value render q) ->
  one_line (action_name render data q).
Proof.
  intros Hin Hq. unfold action_name.
  apply one_line_app; [reflexivity|].
  apply one_line_app; [exact (labels_one_line fmt data Hin)|].
  destruct (json_is q (lit "lossless")); [reflexivity|].
  apply one_line_app; [reflexivity|]. apply one_line_app; [exact Hq | reflexivity].
Qed.

(** X24: whatever the configuration file holds, and whether it exists or
    not, the configuration that [load_config] returns has a value for
    every registered format; so [update_desktop_names], which reads
    [cfg[fmt]] for every format, never raises [KeyError] on it, nor on
    it after [run_configure] has set one entry. *)
Theorem load_config_has_every_format file :
  (forall fmt, dict_mem FORMAT_DEFS fmt = true ->
     exists quality, dict_get (load_config file) fmt = Some quality) /\
  (forall U render desktop,
     update_desktop_names U render (load_config file) desktop <> RaisedKeyError) /\
  (forall U render desktop k v,
     update_desktop_names U render (dict_set (load_config file) k v) desktop
       <> RaisedKeyError).
Proof.
  split; [intros fmt; apply load_config_mem|].
  assert (G : forall cfg U render desktop,
            (forall fmt, dict_mem FORMAT_DEFS fmt = true ->
               exists q, dict_get cfg fmt = Some q) ->
            update_desktop_names U render cfg desktop <> RaisedKeyError).
  { intros cfg U render desktop Hall. unfold update_desktop_names.
    destruct desktop as [text|]; [|discriminate].
    destruct (name_map_from_total render cfg FORMAT_DEFS) with (acc := @nil (str * str))
      as [nm E].
    - intros fmt data Hin. apply Hall. exact (In_FORMAT_DEFS_mem fmt data Hin).
    - rewrite E. discriminate. }
  split.
  - intros U render desktop. apply G. intros fmt. apply load_config_mem.
  - intros U render desktop k v. apply G. intros fmt Hm.
    rewrite dict_get_set. destruct (str_eqb k fmt); [eexists; reflexivity|].
    apply load_config_mem. exact Hm.
Qed.

(** X25: [update_desktop_names] is idempotent: run again with the same
    configuration on the file it has just written, it writes the same
    text (provided the configured qualities, as they are printed, hold
    no line break). *)
Theorem update_desktop_names_idempotent U render cfg text text' :
  (forall fmt q, dict_mem FORMAT_DEFS fmt = true -> dict_get cfg fmt = Some q ->
     one_line (format_value render q)) ->
  update_desktop_names U render cfg (Some text) = Written text' ->
  update_desktop_names U render cfg (Some text') = Written text'.
Proof.
  intros Hq. unfold update_desktop_names.
  destruct (name_map_from render cfg FORMAT_DEFS []) as [nm|] eqn:E; [|discriminate].
  intros H. inversion H as [Ht]. clear H. f_equal.
  set (out := patch_lines U nm None (splitlines text)) in *.
  assert (Hnm : forall a v, dict_get nm a = Some v -> one_line v).
  { intros a v Hv. destruct (name_map_from_spec _ _ _ _ _ E) as [_ S].
    destruct (S a v Hv) as [Hacc | (fmt & data & q & Hin & Hc & _ & ->)];
      [discriminate|].
    apply (action_name_one_line render fmt data q Hin).
    apply (Hq fmt q); [exact (In_FORMAT_DEFS_mem fmt data Hin) | exact Hc]. }
  assert (Hout : Forall one_line out).
  { unfold out. apply patch_lines_one_line; [exact Hnm|].
    apply splitlines_from_one_line. }
  rewrite (splitlines_join out Hout).
  destruct out as [|l ls] eqn:Eo.
  - reflexivity.
  - rewrite <- Eo. unfold out. rewrite patch_lines_idempotent. reflexivity.
Qed.

Lemma update_desktop_names_idempotent_witness :
  (forall fmt q, dict_mem FORMAT_DEFS fmt = true ->
     dict_get (load_config NoFile) fmt = Some q ->
     one_line (format_value (fun _ => []) q)) /\
  update_desktop_names ascii_tables (fun _ => []) (load_config NoFile)
    (Some sample_desktop) = Written sample_desktop_patched /\
  update_desktop_names ascii_tables (fun _ => []) (load_config NoFile)
    (Some sample_desktop_patched) = Written sample_desktop_patched.
Proof.
  assert (H1 : forall fmt q, dict_mem FORMAT_DEFS fmt = true ->
     dict_get (load_config NoFile) fmt = Some q ->
     one_line (format_value (fun _ => []) q)).
  { intros fmt q _. change (load_config NoFile) with defaults.
    unfold defaults, FORMAT_DEFS. cbn [map dict_get first_option options].
    repeat (destruct (str_eqb _ fmt);
            [intros H; inversion H; reflexivity|]).
    discriminate. }
  assert (H2 : update_desktop_names ascii_tables (fun _ => [])
                 (load_config NoFile) (Some sample_desktop)
               = Written sample_desktop_patched)
    by (vm_compute; reflexivity).
  split; [exact H1|]. split; [exact H2|].
  exact (update_desktop_names_idempotent _ _ _ _ _ H1 H2).
Defined.

Lemma patch_lines_prefix U name_map pre rest :
  Forall (fun l => match_action U l = None) pre ->
  patch_lines U name_map None (pre ++ rest)
  = pre ++ patch_lines U name_map None rest.
Proof.
  induction 1 as [|l pre Hl _ IH]; [reflexivity|].
  cbn [app patch_lines]. rewrite Hl, IH. reflexivity.
Qed.

(** X26: [update_desktop_names] leaves the number and the order of the
    lines as they are; a line is either kept or, if it starts with
    "Name=", replaced by "Name=" and an entry of the map; the lines before
    the first "[Desktop Action ...]" header are all kept, and so is every
    line when the map is empty. *)
Theorem patch_lines_keeps_other_lines U name_map lines :
  Forall2 (kept_or_renamed name_map) lines (patch_lines U name_map None lines) /\
  List.length (patch_lines U name_map None lines) = List.length lines /\
  (forall pre rest, lines = pre ++ rest ->
     Forall (fun l => match_action U l = None) pre ->
     firstn (List.length pre) (patch_lines U name_map None lines) = pre) /\
  (name_map = [] -> patch_lines U name_map None lines = lines).
Proof.
  pose proof (patch_lines_kept_or_renamed U name_map None lines) as H2.
  split; [exact H2|]. split; [symmetry; eapply Forall2_length; exact H2|]. split.
  - intros pre rest -> Hpre. rewrite patch_lines_prefix by assumption.
    rewrite firstn_app, Nat.sub_diag, firstn_all. cbn. apply app_nil_r.
  - intros ->. clear H2. generalize (@None str).
    induction lines as [|l ls IH]; intros cur; [reflexivity|].
    cbn [patch_lines]. rewrite IH. f_equal.
    destruct (match match_action U l with Some a => Some a | None => cur end);
      [|reflexivity].
    destruct (negb (str_eqb s []) && starts_with (lit "Name=") l); reflexivity.
Qed.

Lemma word_then_bracket_exact U w rest :
  w <> [] -> forallb (isword U) w = true -> isword U 93 = false ->
  word_then_bracket U (w ++ 93%N :: rest) = Some w.
Proof.
  intros Hw Hall Hb. induction w as [|c w IH]; [congruence|].
  cbn [forallb] in Hall. apply andb_prop in Hall. destruct Hall as [Hc Hall].
  cbn [app word_then_bracket]. rewrite Hc.
  destruct w as [|d w'].
  - cbn [app word_then_bracket]. rewrite Hb. reflexivity.
  - rewrite IH; [reflexivity | discriminate | exact Hall].
Qed.

(* ------------------------------------------------------------------ *)
(** ** The entries of the service menu *)

Lemma action_name_str render data s :
  action_name render data (JStr s)
  = lit "Convert to " ++ label data ++ quality_label s.
Proof. reflexivity. Qed.

Lemma name_map_lookup render cfg name_map fmt data q :
  name_map_from render cfg FORMAT_DEFS [] = Some name_map ->
  In (fmt, data) FORMAT_DEFS -> dict_get cfg fmt = Some q ->
  dict_get name_map (lit "convertTo" ++ capitalize fmt)
  = Some (action_name render data q).
Proof.
  unfold FORMAT_DEFS. cbn [name_map_from].
  destruct (dict_get cfg (lit "mp3")) as [q1|] eqn:E1; [|discriminate].
  destruct (dict_get cfg (lit "ogg")) as [q2|] eqn:E2; [|discriminate].
  destruct (dict_get cfg (lit "flac")) as [q3|] eqn:E3; [|discriminate].
  destruct (dict_get cfg (lit "wav")) as [q4|] eqn:E4; [|discriminate].
  destruct (dict_get cfg (lit "m4a")) as [q5|] eqn:E5; [|discriminate].
  destruct (dict_get cfg (lit "opus")) as [q6|] eqn:E6; [|discriminate].
  destruct (dict_get cfg (lit "alac")) as [q7|] eqn:E7; [|discriminate].
  intros H Hin Hq. inversion H; subst name_map. clear H.
  cbn [In] in Hin.
  repeat (destruct Hin as [Hin | Hin];
          [inversion Hin; subst fmt data; clear Hin;
           first [rewrite E1 in Hq | rewrite E2 in Hq | rewrite E3 in Hq
                 | rewrite E4 in Hq | rewrite E5 in Hq | rewrite E6 in Hq
                 | rewrite E7 in Hq];
           inversion Hq; subst; reflexivity|]).
  contradiction.
Qed.

(** X27: in the section of the action "convertTo" followed by the
    capitalised format, a line that starts with "Name=" becomes "Name=Convert
    to", the label of the format and, unless the configured quality is
    "lossless", that quality in parentheses, as [quality_label] writes
    it. *)
Theorem menu_entry_shows_quality U render cfg name_map fmt data q header old rest :
  name_map_from render cfg FORMAT_DEFS [] = Some name_map ->
  In (fmt, data) FORMAT_DEFS -> dict_get cfg fmt = Some q ->
  match_action U header = Some (lit "convertTo" ++ capitalize fmt) ->
  patch_lines U name_map None (header :: (lit "Name=" ++ old) :: rest)
  = header :: (lit "Name=" ++ action_name render data q)
    :: patch_lines U name_map (Some (lit "convertTo" ++ capitalize fmt)) rest
  /\ (forall s, q = JStr s ->
        action_name render data q
        = lit "Convert to " ++ label data ++ quality_label s).
Proof.
  intros Hnm Hin Hq Hh. split; [|intros s ->; apply action_name_str].
  pose proof (name_map_lookup _ _ _ _ _ _ Hnm Hin Hq) as Hl.
  cbn [patch_lines]. rewrite Hh, (match_action_not_name U header _ Hh).
  rewrite andb_false_r. rewrite match_action_name, starts_with_app, Hl.
  reflexivity.
Qed.

Lemma menu_entry_shows_quality_witness :
  name_map_from (fun _ => []) (load_config NoFile) FORMAT_DEFS []
    = Some (match name_map_from (fun _ => []) (load_config NoFile) FORMAT_DEFS []
            with Some m => m | None => [] end) /\
  In (lit "mp3", mkFormat (lit "MP3")
       [opt "V0" "VBR ~245 kbps (best)"; opt "V2" "VBR ~190 kbps";
        opt "V4" "VBR ~165 kbps"; opt "128k" "CBR 128 kbps";
        opt "192k" "CBR 192 kbps"; opt "256k" "CBR 256 kbps";
        opt "320k" "CBR 320 kbps (max)"]) FORMAT_DEFS /\
  dict_get (load_config NoFile) (lit "mp3") = Some (JStr (lit "V0")) /\
  match_action ascii_tables (lit "[Desktop Action convertToMp3]")
    = Some (lit "convertTo" ++ capitalize (lit "mp3")) /\
  patch_lines ascii_tables
    (match name_map_from (fun _ => []) (load_config NoFile) FORMAT_DEFS []
     with Some m => m | None => [] end)
    None [lit "[Desktop Action convertToMp3]"; lit "Name=" ++ lit "old"]
  = [lit "[Desktop Action convertToMp3]"; lit "Name=Convert to MP3 (V0)"].
Proof.
  assert (H1 : name_map_from (fun _ => []) (load_config NoFile) FORMAT_DEFS []
    = Some (match name_map_from (fun _ => []) (load_config NoFile) FORMAT_DEFS []
            with Some m => m | None => [] end)) by (vm_compute; reflexivity).
  assert (H2 : In (lit "mp3", mkFormat (lit "MP3")
       [opt "V0" "VBR ~245 kbps (best)"; opt "V2" "VBR ~190 kbps";
        opt "V4" "VBR ~165 kbps"; opt "128k" "CBR 128 kbps";
        opt "192k" "CBR 192 kbps"; opt "256k" "CBR 256 kbps";
        opt "320k" "CBR 320 kbps (max)"]) FORMAT_DEFS) by (left; reflexivity).
  assert (H3 : dict_get (load_config NoFile) (lit "mp3") = Some (JStr (lit "V0")))
    by reflexivity.
  assert (H4 : match_action ascii_tables (lit "[Desktop Action convertToMp3]")
    = Some (lit "convertTo" ++ capitalize (lit "mp3"))) by (vm_compute; reflexivity).
  split; [exact H1|]. split; [exact H2|]. split; [exact H3|]. split; [exact H4|].
  exact (proj1 (menu_entry_shows_quality ascii_tables (fun _ => [])
                  (load_config NoFile) _ (lit "mp3") _ (JStr (lit "V0"))
                  (lit "[Desktop Action convertToMp3]") (lit "old") []
                  H1 H2 H3 H4)).
Defined.

(* ------------------------------------------------------------------ *)
(** ** From the dialog to the next conversion *)

(** X28: what [run_configure] saves is read back unchanged by
    [load_config], and a conversion to the configured format then gets
    the chosen quality: [main] passes it to [convert_files]. *)
Theorem configured_quality_is_used U file r r2 cfg' a ffmpeg_found files quality :
  In (SaveConfig cfg') (run_configure file r r2) ->
  load_config (Parsed (JDict cfg')) = cfg' /\
  (main U a ffmpeg_found (Parsed (JDict cfg'))
     = Convert files (strip (dialog_stdout r)) quality ->
   quality = JStr (strip (dialog_stdout r2))).
Proof.
  intros H. destruct (run_configure_saves file r r2 cfg' H)
    as (data & R1 & R2 & M1 & D & M2 & E & Run).
  assert (Hfix : load_config (Parsed (JDict cfg')) = cfg').
  { apply load_config_fix. subst cfg'.
    pose proof (load_config_complete file) as Hc.
    eapply Forall_impl; [|exact Hc]. intros kv Hkv. apply dict_mem_set. exact Hkv. }
  split; [exact Hfix|].
  unfold main.
  destruct (arg_configure a); [discriminate|].
  destruct (arg_format a) as [f|]; [|discriminate].
  destruct f as [|c f']; [discriminate|].
  destruct (dict_mem FORMAT_DEFS (lower U (c :: f'))); cbn [negb]; [|discriminate].
  destruct (arg_files a); [discriminate|].
  destruct ffmpeg_found; cbn [negb]; [|discriminate].
  destruct (dict_get FORMAT_DEFS (lower U (c :: f'))); [|discriminate].
  rewrite Hfix.
  intros K. injection K as Hf Hfmt Hq. rewrite Hfmt in Hq.
  rewrite E, dict_get_set, str_eqb_refl in Hq. symmetry. exact Hq.
Qed.

Lemma configured_quality_is_used_witness :
  In (SaveConfig (dict_set (load_config NoFile) (lit "ogg") (JStr (lit "Q8"))))
     (run_configure NoFile (mkDialog 0 (lit "ogg ")) (mkDialog 0 (lit "Q8 "))) /\
  main ascii_tables (mkArgs (Some (lit "OGG")) false [lit "a.wav"]) true
       (Parsed (JDict (dict_set (load_config NoFile) (lit "ogg") (JStr (lit "Q8")))))
    = Convert [lit "a.wav"] (strip (dialog_stdout (mkDialog 0 (lit "ogg "))))
              (JStr (lit "Q8")) /\
  JStr (lit "Q8") = JStr (strip (dialog_stdout (mkDialog 0 (lit "Q8 ")))).
Proof.
  assert (H1 : In (SaveConfig (dict_set (load_config NoFile) (lit "ogg")
                                 (JStr (lit "Q8"))))
     (run_configure NoFile (mkDialog 0 (lit "ogg ")) (mkDialog 0 (lit "Q8 "))))
    by (vm_compute; right; right; left; reflexivity).
  assert (H2 : main ascii_tables (mkArgs (Some (lit "OGG")) false [lit "a.wav"]) true
       (Parsed (JDict (dict_set (load_config NoFile) (lit "ogg") (JStr (lit "Q8")))))
    = Convert [lit "a.wav"] (strip (dialog_stdout (mkDialog 0 (lit "ogg "))))
              (JStr (lit "Q8"))) by (vm_compute; reflexivity).
  split; [exact H1|]. split; [exact H2|].
  exact (proj2 (configured_quality_is_used ascii_tables NoFile
                  (mkDialog 0 (lit "ogg ")) (mkDialog 0 (lit "Q8 ")) _
                  (mkArgs (Some (lit "OGG")) false [lit "a.wav"]) true
                  [lit "a.wav"] (JStr (lit "Q8")) H1) H2).
Defined.

